(** * HumdrumLine: a shallow embedding of humlib's line class

    The definitions below follow HumdrumLine.cpp function by function.
    A line is a [std::string] (its bytes) together with the token vector
    [m_tokens], the tab-width vector [m_tabs], four duration fields, the
    [m_rhythm_analyzed] gate and the owner pointer.

    Conventions
    - a [std::string] is a [list ascii];
    - [size_t] values are [nat] (or [Z] when compared with an [int]);
    - an [(int)] cast of a size is [to_int], the two's complement wrap to
      32 bits; plain [int] arithmetic is written in [Z];
    - a pointer that may be [NULL] is an [option];
    - a function that can dereference [NULL], index out of range or throw
      returns an [option], [None] standing for that failure. *)

From Stdlib Require Import ZArith List Ascii String Bool Lia.
Import ListNotations.
Local Open Scope Z_scope.

Set Implicit Arguments.

(* ------------------------------------------------------------------ *)
(** ** Strings and machine integers *)

Definition text := list ascii.

Definition lit (s : string) : text := list_ascii_of_string s.

Definition NUL : ascii := "000"%char.
Definition TAB : ascii := "009"%char.
Definition CR  : ascii := "013"%char.

Definition INT_MAX : Z := 2147483647.

(** [(int)x] for an unsigned [x]: reduction modulo 2^32 into
    [-2^31, 2^31). *)
Definition to_int (z : Z) : Z := (z + 2147483648) mod 4294967296 - 2147483648.

(** [size()] as a [size_t], and [(int)size()]. *)
Definition size (s : text) : Z := Z.of_nat (List.length s).
Definition int_size (s : text) : Z := to_int (size s).

(** Lines whose length is representable as an [int]. *)
Definition fits_int (s : text) : Prop := size s <= INT_MAX.

(** The result of an [int] operation; [None] when it does not fit
    (signed overflow). *)
Definition as_int (z : Z) : option Z :=
  if (- INT_MAX - 1 <=? z) && (z <=? INT_MAX) then Some z else None.

(** [operator[]] of [std::string]: defined for positions [0..size()]
    (position [size()] reads the terminating NUL), undefined elsewhere. *)
Definition subscript (s : text) (index : Z) : option ascii :=
  if (0 <=? index) && (index <=? size s)
  then Some (nth (Z.to_nat index) s NUL)
  else None.

(** [at()] of [std::string]: throws outside [0..size()-1]. *)
Definition at_ (s : text) (index : Z) : option ascii :=
  if (0 <=? index) && (index <? size s)
  then Some (nth (Z.to_nat index) s NUL)
  else None.

Definition char_eqb (a b : ascii) : bool := Ascii.eqb a b.

(* ------------------------------------------------------------------ *)
(** ** Character access *)

Module Chars.

(** HumdrumLine::getChar, with the subscript kept partial. *)
Definition getChar_checked (s : text) (index : Z) : option ascii :=
  if index <? 0 then Some NUL
  else if index >=? int_size s then Some NUL
  else subscript s index.

(** HumdrumLine::equalChar, with the subscript kept partial. *)
Definition equalChar_checked (s : text) (index : Z) (ch : ascii) : option bool :=
  if int_size s <=? index then Some false
  else if index <? 0 then Some false
  else match subscript s index with
       | Some c => if char_eqb c ch then Some true else Some false
       | None => None
       end.

End Chars.

(** HumdrumLine::getChar. *)
Definition getChar (s : text) (index : Z) : ascii :=
  if index <? 0 then NUL
  else if index >=? int_size s then NUL
  else nth (Z.to_nat index) s NUL.

(** HumdrumLine::equalChar. *)
Definition equalChar (s : text) (index : Z) (ch : ascii) : bool :=
  if int_size s <=? index then false
  else if index <? 0 then false
  else if char_eqb (nth (Z.to_nat index) s NUL) ch then true else false.

(* ------------------------------------------------------------------ *)
(** ** Line classification (purely textual) *)

Definition isComment (s : text) : bool := equalChar s 0 "!".
Definition isCommentLocal (s : text) : bool :=
  equalChar s 0 "!" && negb (equalChar s 1 "!").
Definition isCommentGlobal (s : text) : bool :=
  equalChar s 0 "!" && equalChar s 1 "!".
Definition isCommentUniversal (s : text) : bool :=
  equalChar s 3 "!" && equalChar s 2 "!" && equalChar s 1 "!" && equalChar s 0 "!".
Definition isExclusive (s : text) : bool :=
  equalChar s 1 "*" && equalChar s 0 "*".
Definition isInterp (s : text) : bool := equalChar s 0 "*".
Definition isBarline (s : text) : bool := equalChar s 0 "=".
Definition isEmpty (s : text) : bool := size s =? 0.
Definition isData (s : text) : bool :=
  if isComment s || isInterp s || isBarline s || isEmpty s then false else true.
Definition hasSpines (s : text) : bool :=
  if isEmpty s || isCommentGlobal s then false else true.
Definition isGlobal (s : text) : bool := negb (hasSpines s).

(** How many of a list of flags are set. *)
Fixpoint count_true (l : list bool) : nat :=
  match l with
  | [] => 0%nat
  | b :: r => ((if b then 1 else 0) + count_true r)%nat
  end.

(* ------------------------------------------------------------------ *)
(** ** Reference records *)

(** Failure propagation for the partial string accessors. *)
Notation "x <- e ;; k" :=
  (match e with Some x => k | None => None end)
  (at level 61, e at next level, right associativity).

Fixpoint text_eqb (a b : text) : bool :=
  match a, b with
  | [], [] => true
  | x :: a', y :: b' => char_eqb x y && text_eqb a' b'
  | _, _ => false
  end.

(** [substr(pos, n)]; every use below has [pos <= size()]. *)
Definition substr (s : text) (pos n : nat) : text := firstn n (skipn pos s).

(** [substr(pos)]: to the end of the string. *)
Definition substr_from (s : text) (pos : nat) : text := skipn pos s.

(** [resize(n)]: truncate, or pad with NUL. *)
Definition resize (s : text) (n : Z) : text :=
  firstn (Z.to_nat n) s ++ repeat NUL (Z.to_nat n - List.length s).

(** [find(c)] for a one-character pattern: position of the first
    occurrence, [None] for [string::npos]. *)
Fixpoint find_char (c : ascii) (s : text) : option nat :=
  match s with
  | [] => None
  | x :: r => if char_eqb x c then Some 0%nat
              else match find_char c r with
                   | Some k => Some (S k)
                   | None => None
                   end
  end.

(** [isspace] in the C locale: space, and the controls 9 to 13 (bytes
    above 127 are not spaces). *)
Definition isspace (c : ascii) : bool :=
  let n := Z.of_nat (nat_of_ascii c) in
  (n =? 32) || ((9 <=? n) && (n <=? 13)).

(** [loc < colloc] on [size_t], after [loc != npos]. *)
Definition found_before (loc : option nat) (colloc : nat) : bool :=
  match loc with
  | Some l => Nat.ltb l colloc
  | None => false
  end.

(** HumdrumLine::isGlobalReference.  [None]: [at(3)] threw. *)
Definition isGlobalReference (s : text) : option bool :=
  if size s <? 5 then Some false
  else if negb (text_eqb (substr s 0 3) (lit "!!!")) then Some false
  else
    c <- at_ s 3 ;;
    if char_eqb c "!" then Some false
    else
      let spaceloc := find_char " " s in
      let tabloc := find_char TAB s in
      match find_char ":" s with
      | None => Some false
      | Some colloc =>
          if found_before spaceloc colloc then Some false
          else if found_before tabloc colloc then Some false
          else Some true
      end.

(** HumdrumLine::isUniversalReference. *)
Definition isUniversalReference (s : text) : option bool :=
  if size s <? 5 then Some false
  else if negb (text_eqb (substr s 0 4) (lit "!!!!")) then Some false
  else
    c <- subscript s 4 ;;
    if char_eqb c "!" then Some false
    else
      let spaceloc := find_char " " s in
      let tabloc := find_char TAB s in
      match find_char ":" s with
      | None => Some false
      | Some colloc =>
          if found_before spaceloc colloc then Some false
          else if found_before tabloc colloc then Some false
          else Some true
      end.

(** HumdrumLine::isReference ([||] evaluates its right side only when the
    left one is false). *)
Definition isReference (s : text) : option bool :=
  g <- isGlobalReference s ;;
  if g then Some true else isUniversalReference s.

(** HumdrumLine::isSignifier. *)
Definition isSignifier (s : text) : bool :=
  if size s <? 9 then false
  else if negb (text_eqb (substr s 0 8) (lit "!!!RDF**")) then false
  else true.

(** The loop [for (i=index; i<bound; i++) { if (isspace(at(i))) {index++;
    continue;} break; }]; returns the final [index]. *)
Fixpoint skip_spaces (fuel : nat) (s : text) (i index bound : Z) : option Z :=
  match fuel with
  | O => Some index
  | S f =>
      if i <? bound then
        c <- at_ s i ;;
        if isspace c then skip_spaces f s (i + 1) (index + 1) bound
        else Some index
      else Some index
  end.

(** The loop [for (i=size-1; i>=0; i--) { if (isspace(output.at(i)))
    {output.resize(size-1); continue;} break; }] of the value getters. *)
Fixpoint trim_tail_break (fuel : nat) (output : text) (i : Z) : option text :=
  match fuel with
  | O => Some output
  | S f =>
      if i >=? 0 then
        c <- at_ output i ;;
        if isspace c
        then trim_tail_break f (resize output (int_size output - 1)) (i - 1)
        else Some output
      else Some output
  end.

(** The same loop as written in the key getters, which has no [break]. *)
Fixpoint trim_tail_scan (fuel : nat) (output : text) (i : Z) : option text :=
  match fuel with
  | O => Some output
  | S f =>
      if i >=? 0 then
        c <- at_ output i ;;
        if isspace c
        then trim_tail_scan f (resize output (int_size output - 1)) (i - 1)
        else trim_tail_scan f output (i - 1)
      else Some output
  end.

(** Shared tail of the two key getters, from [index = start] on. *)
Definition reference_key_from (s : text) (start : Z) : option text :=
  match find_char ":" s with
  | None => Some []
  | Some colloc =>
      let icol := to_int (Z.of_nat colloc) in
      index <- skip_spaces (S (List.length s)) s start start icol ;;
      if index >=? icol then Some []
      else
        let length := icol - index in
        let output := substr s (Z.to_nat index) (Z.to_nat length) in
        trim_tail_scan (S (List.length output)) output (int_size output - 1)
  end.

(** Shared tail of the two value getters. *)
Definition reference_value_from (s : text) : option text :=
  match find_char ":" s with
  | None => Some []
  | Some colloc =>
      let start := to_int (Z.of_nat colloc) + 1 in
      index <- skip_spaces (S (List.length s)) s start start (int_size s) ;;
      if index >=? int_size s then Some []
      else
        let output := substr_from s (Z.to_nat index) in
        trim_tail_break (S (List.length output)) output (int_size output - 1)
  end.

(** HumdrumLine::getGlobalReferenceKey. *)
Definition getGlobalReferenceKey (s : text) : option text :=
  if size s <? 5 then Some []
  else if negb (text_eqb (substr s 0 3) (lit "!!!")) then Some []
  else
    c <- subscript s 3 ;;
    if char_eqb c "!" then Some [] else reference_key_from s 3.

(** HumdrumLine::getUniversalReferenceKey. *)
Definition getUniversalReferenceKey (s : text) : option text :=
  if size s <? 6 then Some []
  else if negb (text_eqb (substr s 0 4) (lit "!!!!")) then Some []
  else
    c <- subscript s 4 ;;
    if char_eqb c "!" then Some [] else reference_key_from s 4.

(** HumdrumLine::getGlobalReferenceValue (it tests position 4, as the
    source does). *)
Definition getGlobalReferenceValue (s : text) : option text :=
  if size s <? 6 then Some []
  else if negb (text_eqb (substr s 0 3) (lit "!!!")) then Some []
  else
    c <- subscript s 4 ;;
    if char_eqb c "!" then Some [] else reference_value_from s.

(** HumdrumLine::getUniversalReferenceValue. *)
Definition getUniversalReferenceValue (s : text) : option text :=
  if size s <? 6 then Some []
  else if negb (text_eqb (substr s 0 4) (lit "!!!!")) then Some []
  else
    c <- subscript s 4 ;;
    if char_eqb c "!" then Some [] else reference_value_from s.

(** HumdrumLine::getReferenceKey. *)
Definition getReferenceKey (s : text) : option text :=
  if size s <? 4 then Some []
  else if negb (text_eqb (substr s 0 3) (lit "!!!")) then Some []
  else
    c <- at_ s 3 ;;
    if negb (char_eqb c "!") then getGlobalReferenceKey s
    else getUniversalReferenceKey s.

(** HumdrumLine::getReferenceValue. *)
Definition getReferenceValue (s : text) : option text :=
  if size s <? 4 then Some []
  else if negb (text_eqb (substr s 0 3) (lit "!!!")) then Some []
  else
    c <- at_ s 3 ;;
    if negb (char_eqb c "!") then getGlobalReferenceValue s
    else getUniversalReferenceValue s.

(* ------------------------------------------------------------------ *)
(** ** Durations *)

(** Modelled from the spec: HumNum.h is not among the sources.  The spec
    (section 6) describes the duration type as an exact rational: integer
    numerator and denominator in reduced form, the arithmetic operations,
    ordering, [isZero] and [isNonNegative]. *)
Record HumNum := mkHumNum { top : Z; bot : Z }.

Definition HumNum_reduce (t b : Z) : HumNum :=
  let g := Z.gcd t b in
  if g =? 0 then mkHumNum t b
  else if b <? 0 then mkHumNum (- (t / g)) (- (b / g))
  else mkHumNum (t / g) (b / g).

Definition HumNum_of_int (n : Z) : HumNum := mkHumNum n 1.

(** What HumdrumLine.cpp takes from headers that are not among the
    sources and that the spec does not give: the value of a
    default-constructed HumNum (HumNum.h), the spine information, track,
    subtrack and subtrack count a token built from a string starts with
    (HumdrumToken.h), and the value a line's [m_rhythm_analyzed] has
    before anything is assigned to it (the HumdrumLine.h among the
    sources predates that member).  They are parameters: every theorem
    is proved for all values they can have, and only the closed
    statements at the end of the file are about one choice of them,
    [sample_externals]. *)
Class Externals := {
  HumNum_default : HumNum;
  new_spineinfo : text;
  new_track : Z;
  new_subtrack : Z;
  new_subtrackcount : Z;
  new_rhythm_analyzed : bool
}.

Section Line.

Context {externals : Externals}.

Definition HumNum_add (a b : HumNum) : HumNum :=
  HumNum_reduce (top a * bot b + top b * bot a) (bot a * bot b).
Definition HumNum_sub (a b : HumNum) : HumNum :=
  HumNum_reduce (top a * bot b - top b * bot a) (bot a * bot b).
Definition HumNum_mul (a b : HumNum) : HumNum :=
  HumNum_reduce (top a * top b) (bot a * bot b).

Definition isNegative (a : HumNum) : bool := top a * bot a <? 0.
Definition isNonNegative (a : HumNum) : bool := 0 <=? top a * bot a.
Definition isZero (a : HumNum) : bool := top a =? 0.

(* ------------------------------------------------------------------ *)
(** ** Tokens and lines *)

(** Modelled from the spec: HumdrumToken.h and the address class behind
    it are not among the sources.  Section 3 of the spec gives a token
    its text, its track, its subtrack and its spine-path string; these
    are the fields HumdrumLine.cpp reads and writes, together with the
    subtrack count it sets.  The setters are taken as plain
    assignments.  What these fields hold in a token built from a string
    is not in the sources: [HumdrumToken_new] takes it from the
    parameters. *)
Record HumdrumToken := mkToken {
  tok_text : text;
  tok_spineinfo : text;
  tok_track : Z;
  tok_subtrack : Z;
  tok_subtrackcount : Z
}.

Definition HumdrumToken_new (t : text) : HumdrumToken :=
  mkToken t new_spineinfo new_track new_subtrack new_subtrackcount.

Definition setTrack (t : HumdrumToken) (track : Z) : HumdrumToken :=
  mkToken (tok_text t) (tok_spineinfo t) track (tok_subtrack t) (tok_subtrackcount t).
Definition setSubtrack (t : HumdrumToken) (sub : Z) : HumdrumToken :=
  mkToken (tok_text t) (tok_spineinfo t) (tok_track t) sub (tok_subtrackcount t).
Definition setSubtrackCount (t : HumdrumToken) (n : Z) : HumdrumToken :=
  mkToken (tok_text t) (tok_spineinfo t) (tok_track t) (tok_subtrack t) n.

(** A token pointer, [None] for [NULL]. *)
Definition HTp := option HumdrumToken.

(** The owner pointer of a line: [NULL], or the file that manages it. *)
Inductive owner_ptr := OwnerNull | OwnerFile.

Record HumdrumLine := mkLine {
  line_text : text;
  m_tokens : list HTp;
  m_tabs : list Z;
  m_duration : HumNum;
  m_durationFromStart : HumNum;
  m_durationFromBarline : HumNum;
  m_durationToBarline : HumNum;
  m_rhythm_analyzed : bool;
  m_owner : owner_ptr
}.

Definition with_text (l : HumdrumLine) (s : text) : HumdrumLine :=
  mkLine s (m_tokens l) (m_tabs l) (m_duration l) (m_durationFromStart l)
         (m_durationFromBarline l) (m_durationToBarline l)
         (m_rhythm_analyzed l) (m_owner l).

Definition with_tokens (l : HumdrumLine) (toks : list HTp) (tabs : list Z)
  : HumdrumLine :=
  mkLine (line_text l) toks tabs (m_duration l) (m_durationFromStart l)
         (m_durationFromBarline l) (m_durationToBarline l)
         (m_rhythm_analyzed l) (m_owner l).

(** [c_str()] read back as a C string: the bytes before the first NUL. *)
Fixpoint c_str (s : text) : text :=
  match s with
  | [] => []
  | c :: r => if char_eqb c NUL then [] else c :: c_str r
  end.

(** HumdrumLine::getTokenCount. *)
Definition getTokenCount (l : HumdrumLine) : Z :=
  to_int (Z.of_nat (List.length (m_tokens l))).

(** HumdrumLine::token: [m_tokens[index]], undefined out of range. *)
Definition token (l : HumdrumLine) (index : Z) : option HTp :=
  if (0 <=? index) && (index <? Z.of_nat (List.length (m_tokens l)))
  then nth_error (m_tokens l) (Z.to_nat index)
  else None.

(* ------------------------------------------------------------------ *)
(** ** createTokensFromLine *)

(** The locals of the scanning loop together with the two vectors. *)
Record scan := mkScan {
  sc_ch : ascii;
  sc_tstring : text;
  sc_tokens : list HTp;
  sc_tabs : list Z
}.

(** [m_tabs.back()++] on a non-empty vector. *)
Definition inc_back (tabs : list Z) : list Z :=
  removelast tabs ++ [last tabs 0 + 1].

(** One iteration of the loop body, [c] being [getChar(i)]. *)
Definition scan_step (c : ascii) (st : scan) : scan :=
  let lastch := sc_ch st in
  if char_eqb c TAB then
    if negb (char_eqb lastch TAB) then
      mkScan c [] (sc_tokens st ++ [Some (HumdrumToken_new (sc_tstring st))])
             (sc_tabs st ++ [1])
    else
      match sc_tabs st with
      | [] => mkScan c (sc_tstring st) (sc_tokens st) (sc_tabs st)
      | _ :: _ => mkScan c (sc_tstring st) (sc_tokens st) (inc_back (sc_tabs st))
      end
  else mkScan c (sc_tstring st ++ [c]) (sc_tokens st) (sc_tabs st).

(** [for (int i=0; i<(int)size(); i++)]. *)
Fixpoint scan_loop (fuel : nat) (s : text) (i : Z) (st : scan) : scan :=
  match fuel with
  | O => st
  | S f =>
      if i <? int_size s
      then scan_loop f s (i + 1) (scan_step (getChar s i) st)
      else st
  end.

(** The three branches on the line text. *)
Definition scan_line (s : text) : scan :=
  if size s =? 0 then
    mkScan NUL [] [Some (HumdrumToken_new []); None] []
  else if text_eqb (substr s 0 2) (lit "!!") then
    mkScan NUL [] [Some (HumdrumToken_new (c_str s))] [0]
  else scan_loop (List.length s) s 0 (mkScan NUL [] [] []).

(** The trailing [if (tstring.size() > 0)]. *)
Definition scan_flush (st : scan) : scan :=
  if 0 <? size (sc_tstring st) then
    mkScan (sc_ch st) []
           (sc_tokens st ++ [Some (HumdrumToken_new (sc_tstring st))])
           (sc_tabs st ++ [0])
  else st.

(** HumdrumLine::createTokensFromLine (the old vectors are cleared
    first, so the result depends on the text alone). *)
Definition createTokensFromLine (l : HumdrumLine) : HumdrumLine :=
  let st := scan_flush (scan_line (line_text l)) in
  with_tokens l (sc_tokens st) (sc_tabs st).

(* ------------------------------------------------------------------ *)
(** ** createLineFromTokens *)

(** [v.at(i)]: throws out of range. *)
Definition vec_at (A : Type) (v : list A) (i : Z) : option A :=
  if (0 <=? i) && (i <? Z.of_nat (List.length v))
  then nth_error v (Z.to_nat i)
  else None.

(** [v.at(i) = x] for an index in range. *)
Definition vec_set (A : Type) (v : list A) (i : Z) (x : A) : list A :=
  firstn (Z.to_nat i) v ++ x :: skipn (S (Z.to_nat i)) v.

Definition int_len (A : Type) (v : list A) : Z := to_int (Z.of_nat (List.length v)).

(** The inner loop [for (j=0; j<(int)m_tokens.size() - (int)m_tabs.size();
    j++) m_tabs.push_back(1)]: its bound shrinks with every push. *)
Fixpoint pad_tabs (fuel : nat) (ntokens j : Z) (tabs : list Z) : list Z :=
  match fuel with
  | O => tabs
  | S f =>
      if j <? ntokens - int_len tabs
      then pad_tabs f ntokens (j + 1) (tabs ++ [1])
      else tabs
  end.

(** The joining loop; [None] when a token pointer is [NULL] or an
    [at()] is out of range. *)
Fixpoint join_loop (fuel : nat) (toks : list HTp) (i : Z)
         (tabs : list Z) (iline : text) : option (list Z * text) :=
  match fuel with
  | O => Some (tabs, iline)
  | S f =>
      if i <? int_len toks then
        p <- vec_at toks i ;;
        tok <- p ;;
        let iline := iline ++ tok_text tok in
        if i <? int_len toks - 1 then
          let tabs :=
            if int_len tabs <=? i
            then pad_tabs (List.length toks) (int_len toks) 0 tabs
            else tabs in
          k <- vec_at tabs i ;;
          let tabs := if k =? 0 then vec_set tabs i 1 else tabs in
          k <- vec_at tabs i ;;
          join_loop f toks (i + 1) tabs (iline ++ repeat TAB (Z.to_nat k))
        else join_loop f toks (i + 1) tabs iline
      else Some (tabs, iline)
  end.

(** The [m_tokens.back() == NULL] test in front of the loop. *)
Definition drop_null_back (toks : list HTp) : list HTp :=
  match toks with
  | [] => []
  | _ :: _ => match last toks None with
              | None => removelast toks
              | Some _ => toks
              end
  end.

(** HumdrumLine::createLineFromTokens. *)
Definition createLineFromTokens (l : HumdrumLine) : option HumdrumLine :=
  let toks := drop_null_back (m_tokens l) in
  r <- join_loop (List.length toks) toks 0 (m_tabs l) [] ;;
  Some (with_text (with_tokens l toks (fst r)) (snd r)).

(** HumdrumLine::removeExtraTabs. *)
Definition removeExtraTabs (l : HumdrumLine) : HumdrumLine :=
  with_tokens l (m_tokens l) (map (fun _ => 0) (m_tabs l)).

(* ------------------------------------------------------------------ *)
(** ** Constructors *)

(** The [back() == 0x0d] test of the two string constructors. *)
Definition strip_cr (s : text) : text :=
  if (0 <? size s) && char_eqb (last s NUL) CR
  then resize s (size s - 1)
  else s.

(** What the three constructors have in common: -1 in [m_duration] and
    [m_durationFromStart], a [NULL] owner; the fields they do not
    mention are left to their own default constructors (both vectors
    empty, two durations default-constructed), and the gate is not
    assigned. *)
Definition blank_line (s : text) : HumdrumLine :=
  mkLine s [] [] (HumNum_of_int (-1)) (HumNum_of_int (-1))
         HumNum_default HumNum_default new_rhythm_analyzed OwnerNull.

(** HumdrumLine::HumdrumLine without argument. *)
Definition HumdrumLine_void : HumdrumLine := blank_line [].

(** HumdrumLine::HumdrumLine from a [std::string]. *)
Definition HumdrumLine_string (aString : text) : HumdrumLine :=
  createTokensFromLine (blank_line (strip_cr aString)).

(** HumdrumLine::HumdrumLine from a C string: the argument is read up
    to its terminating NUL. *)
Definition HumdrumLine_cstring (aString : text) : HumdrumLine :=
  createTokensFromLine (blank_line (strip_cr (c_str aString))).

Definition token_texts (l : HumdrumLine) : list (option text) :=
  map (option_map tok_text) (m_tokens l).

(* ------------------------------------------------------------------ *)
(** ** analyzeTracks *)

Definition isdigit (c : ascii) : bool :=
  let n := Z.of_nat (nat_of_ascii c) in (48 <=? n) && (n <=? 57).

(** [c - '0']. *)
Definition digit_value (c : ascii) : Z := Z.of_nat (nat_of_ascii c) - 48.

(** The inner loop over [k]: extend [track] while digits follow.  An
    [int] that would pass [INT_MAX] is a signed overflow: [None]. *)
Fixpoint more_digits (info : text) (track : Z) : option Z :=
  match info with
  | [] => Some track
  | c :: r =>
      if isdigit c then
        let t := track * 10 + digit_value c in
        if t <=? INT_MAX then more_digits r t else None
      else Some track
  end.

(** The loop over [j]: skip to the first digit, read the run that
    starts there, and stop; 0 when the string has no digit. *)
Fixpoint spine_track (info : text) : option Z :=
  match info with
  | [] => Some 0
  | c :: r =>
      if negb (isdigit c) then spine_track r
      else more_digits r (digit_value c)
  end.

(** First loop over the tokens: [setTrack] on each, and [maxtrack]. *)
Fixpoint assign_tracks (toks : list HTp) (maxtrack : Z)
  : option (list HTp * Z) :=
  match toks with
  | [] => Some ([], maxtrack)
  | p :: r =>
      tok <- p ;;
      track <- spine_track (tok_spineinfo tok) ;;
      let maxtrack := if maxtrack <? track then track else maxtrack in
      res <- assign_tracks r maxtrack ;;
      Some (Some (setTrack tok track) :: fst res, snd res)
  end.

(** Second loop: [subtracks[m_tokens[i]->getTrack()]++]. *)
Fixpoint count_subtracks (toks : list HTp) (subtracks : list Z)
  : option (list Z) :=
  match toks with
  | [] => Some subtracks
  | p :: r =>
      tok <- p ;;
      n <- vec_at subtracks (tok_track tok) ;;
      count_subtracks r (vec_set subtracks (tok_track tok) (n + 1))
  end.

(** Third loop: [setSubtrack] and [setSubtrackCount] on each token. *)
Fixpoint assign_subtracks (toks : list HTp) (subtracks cursub : list Z)
  : option (list HTp) :=
  match toks with
  | [] => Some []
  | p :: r =>
      tok <- p ;;
      let track := tok_track tok in
      subtrack <- vec_at subtracks track ;;
      if subtrack >? 1 then
        c <- vec_at cursub track ;;
        let cursub := vec_set cursub track (c + 1) in
        rest <- assign_subtracks r subtracks cursub ;;
        Some (Some (setSubtrackCount (setSubtrack tok (c + 1)) subtrack) :: rest)
      else
        rest <- assign_subtracks r subtracks cursub ;;
        Some (Some (setSubtrackCount (setSubtrack tok 0) subtrack) :: rest)
  end.

(** HumdrumLine::analyzeTracks.  The returned flag [!err.size()] does
    not depend on the line and is left out.  [maxtrack+1], the size
    given to both vectors, is a sum of [int]s. *)
Definition analyzeTracks (l : HumdrumLine) : option HumdrumLine :=
  if negb (hasSpines (line_text l)) then Some l
  else
    r <- assign_tracks (m_tokens l) 0 ;;
    let toks := fst r in
    let maxtrack := snd r in
    n <- as_int (maxtrack + 1) ;;
    let zeros := repeat 0 (Z.to_nat n) in
    subtracks <- count_subtracks toks zeros ;;
    toks <- assign_subtracks toks subtracks zeros ;;
    Some (with_tokens l toks (m_tabs l)).

(** The tokens of a line, all pointers being valid. *)
Definition valid_tokens (toks : list HumdrumToken) : list HTp := map Some toks.

(** How many tokens of a list are in a given track. *)
Definition same_track (track : Z) (toks : list HumdrumToken) : nat :=
  List.length (filter (fun t => tok_track t =? track) toks).

(* ------------------------------------------------------------------ *)
(** ** Duration accessors *)

(** The owning file, as far as a line can see it: its lines. *)
Record HumdrumFile := mkFile { f_lines : list HumdrumLine }.

(** The state the accessors run in: the file, and how many times its
    rhythm analysis has been started. *)
Record World := mkWorld { w_file : HumdrumFile; w_passes : nat }.

(** State and failure: [None] is a dereference of an invalid pointer. *)
Definition M (A : Type) : Type := World -> option (A * World).

Definition ret (A : Type) (a : A) : M A := fun w => Some (a, w).
Definition fail (A : Type) : M A := fun _ => None.
Definition bind (A B : Type) (m : M A) (k : A -> M B) : M B :=
  fun w => match m w with
           | Some (a, w') => k a w'
           | None => None
           end.

Notation "x <~ e ;; k" := (bind e (fun x => k))
  (at level 61, e at next level, right associativity).
Notation "e ;;; k" := (bind e (fun _ => k))
  (at level 61, right associativity).

(** The object [this] points to: line number [this] of the file. *)
Definition read_line (this : nat) : M HumdrumLine :=
  fun w => match nth_error (f_lines (w_file w)) this with
           | Some l => Some (l, w)
           | None => None
           end.

Section Accessors.

(** HumdrumFileStructure is not among the sources: its analysis pass and
    its score duration are taken as given. *)
Variable analyzeRhythmStructure : HumdrumFile -> HumdrumFile.
Variable getScoreDuration : HumdrumFile -> HumNum.

(** [getOwner()->analyzeRhythmStructure()]. *)
Definition run_analysis : M unit :=
  fun w => Some (tt, mkWorld (analyzeRhythmStructure (w_file w)) (S (w_passes w))).

(** The test every accessor starts with. *)
Definition ensure_rhythm (this : nat) : M unit :=
  l <~ read_line this ;;
  if negb (m_rhythm_analyzed l) then
    match m_owner l with
    | OwnerFile => run_analysis
    | OwnerNull => ret tt
    end
  else ret tt.

(** HumdrumLine::getDuration. *)
Definition getDuration (this : nat) : M HumNum :=
  ensure_rhythm this ;;;
  l <~ read_line this ;;
  ret (m_duration l).

(** HumdrumLine::getDurationFromStart. *)
Definition getDurationFromStart (this : nat) : M HumNum :=
  ensure_rhythm this ;;;
  l <~ read_line this ;;
  ret (m_durationFromStart l).

(** HumdrumLine::getDurationFromBarline. *)
Definition getDurationFromBarline (this : nat) : M HumNum :=
  ensure_rhythm this ;;;
  l <~ read_line this ;;
  ret (m_durationFromBarline l).

(** HumdrumLine::getDurationToBarline. *)
Definition getDurationToBarline (this : nat) : M HumNum :=
  ensure_rhythm this ;;;
  l <~ read_line this ;;
  ret (m_durationToBarline l).

(** HumdrumLine::getDurationToEnd.  The final [return] goes through the
    owner pointer whether or not it is [NULL]. *)
Definition getDurationToEnd (this : nat) : M HumNum :=
  l <~ read_line this ;;
  if negb (m_rhythm_analyzed l) then
    (match m_owner l with
     | OwnerFile => run_analysis
     | OwnerNull => ret tt
     end) ;;;
    l <~ read_line this ;;
    match m_owner l with
    | OwnerFile =>
        fun w => Some (HumNum_sub (getScoreDuration (w_file w))
                                  (m_durationFromStart l), w)
    | OwnerNull => @fail HumNum
    end
  else ret (HumNum_of_int 0).

(** HumdrumLine::getBarlineDuration. *)
Definition getBarlineDuration (this : nat) : M HumNum :=
  ensure_rhythm this ;;;
  l <~ read_line this ;;
  if isBarline (line_text l) then getDurationToBarline this
  else
    a <~ getDurationFromBarline this ;;
    b <~ getDurationToBarline this ;;
    ret (HumNum_add a b).

(** The operands of the sum in getBarlineDuration are two calls, and
    C++ does not say which of them is made first.  [getBarlineDuration]
    makes the left one first; this is the same function with the right
    one first. *)
Definition getBarlineDuration_right_first (this : nat) : M HumNum :=
  ensure_rhythm this ;;;
  l <~ read_line this ;;
  if isBarline (line_text l) then getDurationToBarline this
  else
    b <~ getDurationToBarline this ;;
    a <~ getDurationFromBarline this ;;
    ret (HumNum_add a b).

End Accessors.

(* ------------------------------------------------------------------ *)
(** ** Predicates used in the statements *)

(** The line starts with the three characters of a reference record. *)
Definition starts_reference (s : text) : bool :=
  text_eqb (substr s 0 3) (lit "!!!").






(** Tokens followed each by its run of tabs. *)
Fixpoint glue (ts : list text) (ks : list Z) : text :=
  match ts, ks with
  | t :: ts', k :: ks' => t ++ repeat TAB (Z.to_nat k) ++ glue ts' ks'
  | _, _ => []
  end.

Definition fresh_tokens (ts : list text) : list HTp :=
  map (fun t => Some (HumdrumToken_new t)) ts.

(** The round trip: text from tokens, then tokens from text. *)
Definition retokenize (l : HumdrumLine) : option HumdrumLine :=
  l1 <- createLineFromTokens l ;;
  Some (createTokensFromLine l1).



(** What holds of the scanning state once the prefix [p] of the line
    has been read. *)
Definition scan_inv (p : text) (st : scan) : Prop :=
  exists ts : list text,
    sc_tokens st = fresh_tokens ts /\
    List.length (sc_tabs st) = List.length ts /\
    Forall (fun k => 1 <= k) (sc_tabs st) /\
    sc_ch st = last p NUL /\
    if char_eqb (sc_ch st) TAB
    then sc_tstring st = [] /\
         p = glue ts (sc_tabs st) /\
         exists ts' t bt k,
           ts = ts' ++ [t] /\ sc_tabs st = bt ++ [k] /\
           List.length bt = List.length ts' /\
           last (glue ts' bt ++ t) NUL <> TAB
    else p = glue ts (sc_tabs st) ++ sc_tstring st /\
         (sc_tstring st <> [] \/ p = []).

(** The locals before the first iteration. *)
Definition scan_init : scan := mkScan NUL [] [] [].

(** The scanning loop as a fold over the characters. *)
Definition scan_fold (q : text) (st : scan) : scan :=
  fold_left (fun st c => scan_step c st) q st.

(** The specification's reading of a spine-info string: the first run
    of decimal digits, as a number; 0 when there is none. *)
Fixpoint drop_nondigits (info : text) : text :=
  match info with
  | [] => []
  | c :: r => if isdigit c then info else drop_nondigits r
  end.

Fixpoint take_digits (info : text) : text :=
  match info with
  | [] => []
  | c :: r => if isdigit c then c :: take_digits r else []
  end.

Definition first_digit_run (info : text) : text :=
  take_digits (drop_nondigits info).

Definition decimal_from (acc : Z) (digits : text) : Z :=
  fold_left (fun a c => a * 10 + digit_value c) digits acc.

Definition decimal_value (digits : text) : Z := decimal_from 0 digits.

Definition track_of (t : HumdrumToken) : Z :=
  decimal_value (first_digit_run (tok_spineinfo t)).

(** The specification's numbering, token by token: [full] is the whole line,
    [pre] the tokens to the left. *)
Fixpoint number_subtracks (full pre ts : list HumdrumToken)
  : list HumdrumToken :=
  match ts with
  | [] => []
  | t :: r =>
      let n := Z.of_nat (same_track (tok_track t) full) in
      let sub := if n >? 1
                 then Z.of_nat (same_track (tok_track t) (pre ++ [t]))
                 else 0 in
      setSubtrackCount (setSubtrack t sub) n
        :: number_subtracks full (pre ++ [t]) r
  end.

Definition retrack (t : HumdrumToken) : HumdrumToken := setTrack t (track_of t).

(** The specification of the tokens [toks'] that analyzeTracks leaves
    in place of [toks]. *)
Definition tracks_assigned (toks toks' : list HumdrumToken) : Prop :=
  List.length toks' = List.length toks /\
  forall i t t',
    nth_error toks i = Some t -> nth_error toks' i = Some t' ->
    tok_text t' = tok_text t /\
    tok_spineinfo t' = tok_spineinfo t /\
    tok_track t' = track_of t /\
    tok_subtrack t'
    = (if (1 <? same_track (tok_track t') toks')%nat
       then Z.of_nat (same_track (tok_track t') (firstn (S i) toks'))
       else 0) /\
    tok_subtrackcount t' = Z.of_nat (same_track (tok_track t') toks').

(** analyzeTracks runs to its end and numbers the tokens as specified. *)
Definition tracks_analyzed (l : HumdrumLine) (toks : list HumdrumToken) : Prop :=
  exists toks',
    analyzeTracks l = Some (with_tokens l (valid_tokens toks') (m_tabs l)) /\
    tracks_assigned toks toks'.

(** All four duration fields hold a negative value. *)
Definition all_durations_unanalyzed (l : HumdrumLine) : Prop :=
  isNegative (m_duration l) = true /\
  isNegative (m_durationFromStart l) = true /\
  isNegative (m_durationFromBarline l) = true /\
  isNegative (m_durationToBarline l) = true.

(** What the constructors do: -1 in the two fields they assign, the
    other two left as default-constructed. *)
Definition own_durations_unanalyzed (l : HumdrumLine) : Prop :=
  m_duration l = HumNum_of_int (-1) /\
  isNegative (m_duration l) = true /\
  m_durationFromStart l = HumNum_of_int (-1) /\
  isNegative (m_durationFromStart l) = true /\
  m_durationFromBarline l = HumNum_default /\
  m_durationToBarline l = HumNum_default.

(* ------------------------------------------------------------------ *)
(** ** Sample lines and files *)

(** A data line of three tokens, the last two being subspines of
    track 2. *)
Definition split_line : HumdrumLine :=
  with_tokens (blank_line (lit "4c" ++ [TAB] ++ lit "4e" ++ [TAB] ++ lit "4g"))
    (valid_tokens
       [mkToken (lit "4c") (lit "1") (-1) (-1) 0;
        mkToken (lit "4e") (lit "(2)a") (-1) (-1) 0;
        mkToken (lit "4g") (lit "(2)b") (-1) (-1) 0])
    [1; 1; 0].

Definition split_line_tokens : list HumdrumToken :=
  [mkToken (lit "4c") (lit "1") (-1) (-1) 0;
   mkToken (lit "4e") (lit "(2)a") (-1) (-1) 0;
   mkToken (lit "4g") (lit "(2)b") (-1) (-1) 0].

(** One choice of the values that are not in the sources, used where a
    closed statement needs them written out. *)
Definition sample_externals : Externals :=
  {| HumNum_default := HumNum_of_int 0;
     new_spineinfo := [];
     new_track := -1;
     new_subtrack := -1;
     new_subtrackcount := 0;
     new_rhythm_analyzed := false |}.

(** A global comment whose token holds a track: every field of the
    line and of the token is written out. *)
Definition stale_token : HumdrumToken := mkToken (lit "!!x") [] 5 0 1.

Definition stale_comment : HumdrumLine :=
  mkLine (lit "!!x") [Some stale_token] [0]
         (HumNum_of_int (-1)) (HumNum_of_int (-1))
         (HumNum_of_int 0) (HumNum_of_int 0) false OwnerNull.

(** A file of three analysed lines, used to run the accessors: a
    barline and two data lines of duration 1. *)
Definition analysed_line (s : text) (dur start frombar tobar : Z) : HumdrumLine :=
  mkLine s (m_tokens (createTokensFromLine (blank_line s)))
         (m_tabs (createTokensFromLine (blank_line s)))
         (HumNum_of_int dur) (HumNum_of_int start)
         (HumNum_of_int frombar) (HumNum_of_int tobar) true OwnerFile.

Definition sample_file : HumdrumFile :=
  mkFile [analysed_line (lit "=1") 0 0 0 2;
          analysed_line (lit "4c") 1 0 0 2;
          analysed_line (lit "4d") 1 1 1 1].

Definition sample_world : World := mkWorld sample_file 0.

(** Stand-ins for the two functions of HumdrumFileStructure when an
    accessor is run on [sample_world]: the pass sets every gate, and
    the score lasts 2. *)
Definition sample_analysis (f : HumdrumFile) : HumdrumFile :=
  mkFile (map (fun l => mkLine (line_text l) (m_tokens l) (m_tabs l)
                               (m_duration l) (m_durationFromStart l)
                               (m_durationFromBarline l) (m_durationToBarline l)
                               true (m_owner l))
              (f_lines f)).

Definition sample_score (f : HumdrumFile) : HumNum := HumNum_of_int 2.

(* ------------------------------------------------------------------ *)
(** ** Further predicates on tokenized lines *)

(** A text without tab characters. *)
Definition tab_free (t : text) : bool :=
  forallb (fun c => negb (char_eqb c TAB)) t.

(** The line without the tabs that end it. *)
Fixpoint strip_tabs (s : text) : text :=
  match s with
  | [] => []
  | c :: r =>
      match strip_tabs r with
      | [] => if char_eqb c TAB then [] else [c]
      | r' => c :: r'
      end
  end.

(** What else holds of the scanning state once the prefix [p] of the
    line has been read: the shape of the tokens made so far. *)
Definition scan_shape (st : scan) : Prop :=
  exists ts : list text,
    sc_tokens st = fresh_tokens ts /\
    Forall (fun t => tab_free t = true) ts /\
    tab_free (sc_tstring st) = true /\
    Forall (fun t => t <> []) (tl ts).

(** The tokenizer's result on a line with spines, in one statement. *)
Definition tokenized_as (l : HumdrumLine) (ts : list text) (ks : list Z) : Prop :=
  m_tokens (createTokensFromLine l) = fresh_tokens ts /\
  m_tabs (createTokensFromLine l) = ks /\
  List.length ks = List.length ts /\
  line_text l = glue ts ks.

(* ------------------------------------------------------------------ *)
(** ** Writing a line from any token vector *)

(** The separator width the joining loop uses for a stored width. *)
Definition eff_width (k : Z) : Z := if k =? 0 then 1 else k.

(** The width used after token [i]: the stored one, 1 when it is 0 or
    when the tab vector has no entry [i]. *)
Definition sep_width (tabs : list Z) (i : nat) : Z := eff_width (nth i tabs 1).

(** The text of a line whose tokens have the texts [ts], token [i]
    being the first of them. *)
Fixpoint join_texts (ts : list text) (tabs : list Z) (i : nat) : text :=
  match ts with
  | [] => []
  | t :: r =>
      match r with
      | [] => t
      | _ :: _ => t ++ repeat TAB (Z.to_nat (sep_width tabs i))
                    ++ join_texts r tabs (S i)
      end
  end.

(** Texts joined by single tabs. *)
Fixpoint tab_join (ts : list text) : text :=
  match ts with
  | [] => []
  | t :: r =>
      match r with
      | [] => t
      | _ :: _ => t ++ TAB :: tab_join r
      end
  end.

(** HumdrumLine::appendToken, the variant that takes a token pointer
    and a tab count. *)
Definition appendToken (l : HumdrumLine) (tok : HTp) (tabcount : Z)
  : HumdrumLine :=
  with_tokens l (m_tokens l ++ [tok]) (m_tabs l ++ [tabcount]).

(** HumdrumLine::insertToken: [insert(begin() + index, _)] on both
    vectors, undefined for a position outside of either. *)
Definition insertToken (l : HumdrumLine) (index : Z) (tok : HTp) (tabcount : Z)
  : option HumdrumLine :=
  if (0 <=? index)
     && (index <=? Z.of_nat (List.length (m_tokens l)))
     && (index <=? Z.of_nat (List.length (m_tabs l)))
  then Some (with_tokens l
               (firstn (Z.to_nat index) (m_tokens l) ++ tok
                  :: skipn (Z.to_nat index) (m_tokens l))
               (firstn (Z.to_nat index) (m_tabs l) ++ tabcount
                  :: skipn (Z.to_nat index) (m_tabs l)))
  else None.

(** HumdrumLine::appendToken after a position: [insertToken(index+1)]. *)
Definition appendTokenAfter (l : HumdrumLine) (index : Z) (tok : HTp)
           (tabcount : Z) : option HumdrumLine :=
  insertToken l (index + 1) tok tabcount.

(** A line of three tokens whose tab vector was emptied and refilled by
    hand: one width is 0, one is missing. *)
Definition edited_line : HumdrumLine :=
  with_tokens (blank_line [])
    (valid_tokens [HumdrumToken_new (lit "4c"); HumdrumToken_new (lit "4e");
                   HumdrumToken_new (lit "4g")])
    [0].

Definition edited_tokens : list HumdrumToken :=
  [HumdrumToken_new (lit "4c"); HumdrumToken_new (lit "4e");
   HumdrumToken_new (lit "4g")].

(** A token vector with a [NULL] pointer that is not the last entry. *)
Definition broken_line : HumdrumLine :=
  with_tokens (blank_line [])
    [Some (HumdrumToken_new (lit "4c")); None; Some (HumdrumToken_new (lit "4e"))]
    [1; 1; 0].

(* ------------------------------------------------------------------ *)
(** ** Trimming, as the reference getters do it *)

(** The text without the white space in front of it. *)
Fixpoint drop_spaces (x : text) : text :=
  match x with
  | [] => []
  | c :: r => if isspace c then drop_spaces r else x
  end.

(** The text without the white space at its end. *)
Definition drop_spaces_end (x : text) : text := rev (drop_spaces (rev x)).

(** The text without white space at either end. *)
Definition trim_spaces (x : text) : text := drop_spaces_end (drop_spaces x).

(** How many white-space characters a text has. *)
Definition count_spaces (x : text) : nat := List.length (filter isspace x).

(** What the loop without [break] leaves of a key: as many characters
    are cut from its end as it has white-space characters anywhere. *)
Definition key_cut (x : text) : text :=
  firstn (List.length x - count_spaces x) x.

(** The text of a reference record with the given key, white space and
    value. *)
Definition reference_record (key ws value : text) : text :=
  lit "!!!" ++ key ++ lit ":" ++ ws ++ value.

(** A key that the getters read back: not empty, free of white space
    and colons, and without [!] in its first two places. *)
Definition plain_key (key : text) : bool :=
  negb (text_eqb key [])
  && forallb (fun c => negb (isspace c) && negb (char_eqb c ":")) key
  && negb (char_eqb (nth 0 key NUL) "!")
  && negb (char_eqb (nth 1 key NUL) "!").

(** A value that the getters read back: no white space at either
    end. *)
Definition plain_value (value : text) : bool :=
  negb (isspace (nth 0 value "x"%char)) && negb (isspace (last value "x"%char)).

(** How many exclamation marks open the record: four when position 3
    holds one, three otherwise. *)
Definition marker_width (s : text) : nat :=
  if char_eqb (nth 3 s NUL) "!" then 4%nat else 3%nat.

(* ------------------------------------------------------------------ *)
(** ** Clearing, reading the tokens, setting the duration *)

(** HumdrumLine::clear: the tokens are deleted, both vectors emptied
    and the gate unset; the text and the durations stay. *)
Definition clear (l : HumdrumLine) : HumdrumLine :=
  mkLine (line_text l) [] [] (m_duration l) (m_durationFromStart l)
         (m_durationFromBarline l) (m_durationToBarline l)
         false (m_owner l).

(** HumdrumLine::getTokens: the list handed back, and the line after
    the call. *)
Definition getTokens (l : HumdrumLine) : list HTp * HumdrumLine :=
  let l' := if (List.length (m_tokens l) =? 0)%nat
            then createTokensFromLine l else l in
  (m_tokens l', l').

(** HumdrumLine::setDuration. *)
Definition setDuration (l : HumdrumLine) (aDur : HumNum) : HumdrumLine :=
  mkLine (line_text l) (m_tokens l) (m_tabs l)
         (if isNonNegative aDur then aDur else HumNum_of_int 0)
         (m_durationFromStart l) (m_durationFromBarline l)
         (m_durationToBarline l) (m_rhythm_analyzed l) (m_owner l).

(** A line that no file owns and whose rhythm is not analysed. *)
Definition loose_world (l : HumdrumLine) : World := mkWorld (mkFile [l]) 0.

(** An analysis pass that fails to set any gate. *)
Definition idle_analysis (f : HumdrumFile) : HumdrumFile := f.

(** An analysis pass that writes durations and fails to set any gate:
    every pass stores duration 1 and moves each line 1 further from
    the barline before it and 10 further from the barline after it. *)
Definition busy_analysis (f : HumdrumFile) : HumdrumFile :=
  mkFile (map (fun l => mkLine (line_text l) (m_tokens l) (m_tabs l)
                               (HumNum_of_int 1) (m_durationFromStart l)
                               (HumNum_add (m_durationFromBarline l) (HumNum_of_int 1))
                               (HumNum_add (m_durationToBarline l) (HumNum_of_int 10))
                               (m_rhythm_analyzed l) (m_owner l))
              (f_lines f)).

(** A data line owned by a file, not yet analysed. *)
Definition owned_line (s : text) (frombar tobar : Z) : HumdrumLine :=
  mkLine s [] [] (HumNum_of_int (-1)) (HumNum_of_int (-1))
         (HumNum_of_int frombar) (HumNum_of_int tobar) false OwnerFile.

(** The world after [n] more analysis passes. *)
Definition after_passes (analyze : HumdrumFile -> HumdrumFile)
           (n : nat) (w : World) : World :=
  mkWorld (Nat.iter n analyze (w_file w)) (n + w_passes w).

(** The tokens analyzeTracks leaves in place of [toks]: tracks first,
    subtracks after. *)
Definition numbered (toks : list HumdrumToken) : list HumdrumToken :=
  number_subtracks (map retrack toks) [] (map retrack toks).

(* ------------------------------------------------------------------ *)
(** ** setLineFromCsv *)

(** The double quote character. *)
Definition DQUOTE : ascii := ascii_of_nat 34.

(** The loop of setLineFromCsv over [newcsv].  Both subscripts stay
    inside [0..size()], since [i < (int)newcsv.size()].  [None]: the
    loop has not ended within the fuel; with a separator that is not
    empty every iteration moves [i] forward, so that [size() + 1]
    iterations are enough. *)
Fixpoint csv_loop (fuel : nat) (newcsv separator : text) (i : Z)
         (inquote : bool) (output : text) : option text :=
  match fuel with
  | O => None
  | S f =>
      if i <? int_size newcsv then
        let c := nth (Z.to_nat i) newcsv NUL in
        if char_eqb c DQUOTE && negb inquote then
          csv_loop f newcsv separator (i + 1) true output
        else if inquote && char_eqb c DQUOTE
                && char_eqb (nth (Z.to_nat (i + 1)) newcsv NUL) DQUOTE
                && (i <? int_size newcsv - 1) then
          csv_loop f newcsv separator (i + 1 + 1) inquote (output ++ [DQUOTE])
        else if char_eqb c DQUOTE then
          csv_loop f newcsv separator (i + 1) false output
        else if negb inquote
                && text_eqb (substr newcsv (Z.to_nat i)
                                    (List.length separator)) separator then
          csv_loop f newcsv separator (i + (int_size separator - 1) + 1)
                   inquote (output ++ [TAB])
        else csv_loop f newcsv separator (i + 1) inquote (output ++ [c])
      else Some output
  end.

(** HumdrumLine::setLineFromCsv from a [std::string].  Only the text is
    assigned: the tokens stay as they were. *)
Definition setLineFromCsv (l : HumdrumLine) (csv separator : text)
  : option HumdrumLine :=
  if size csv <? 1 then Some l
  else
    let newcsv := strip_cr csv in
    if (2 <=? size newcsv) && char_eqb (nth 0 newcsv NUL) "!"
       && char_eqb (nth 1 newcsv NUL) "!"
    then Some (with_text l newcsv)
    else
      output <- csv_loop (S (List.length newcsv)) newcsv separator 0 false [] ;;
      Some (with_text l output).

(** HumdrumLine::setLineFromCsv from a C string: the separator it is
    given is not passed on, the call uses the default one. *)
Definition setLineFromCsv_cstring (l : HumdrumLine) (csv separator : text)
  : option HumdrumLine :=
  setLineFromCsv l (c_str csv) (lit ",").

(** No double quote in the text. *)
Definition quote_free (t : text) : bool :=
  forallb (fun c => negb (char_eqb c DQUOTE)) t.

(** A field as CSV writes it when it needs quoting: in double quotes,
    every double quote of its own doubled. *)
Definition csv_escape (field : text) : text :=
  flat_map (fun c => if char_eqb c DQUOTE then [DQUOTE; DQUOTE] else [c]) field.

Definition csv_quoted (field : text) : text :=
  DQUOTE :: csv_escape field ++ [DQUOTE].

(** The separator character replaced by a tab. *)
Definition tab_for (sep : ascii) (t : text) : text :=
  map (fun c => if char_eqb c sep then TAB else c) t.

(* ------------------------------------------------------------------ *)
(** ** Loops over the tokens *)

Section TokenTests.

(** HumdrumToken.cpp is not among the sources: the two tests of a
    token are taken as given. *)
Variable token_isManipulator : HumdrumToken -> bool.
Variable token_isTerminator : HumdrumToken -> bool.

(** The loop of isManipulator; [None] is [m_tokens[i]] being [NULL]. *)
Fixpoint manipulator_loop (fuel : nat) (l : HumdrumLine) (i : Z)
  : option bool :=
  match fuel with
  | O => Some false
  | S f =>
      if i <? int_len (m_tokens l) then
        p <- token l i ;;
        tok <- p ;;
        if token_isManipulator tok then Some true
        else manipulator_loop f l (i + 1)
      else Some false
  end.

(** HumdrumLine::isManipulator. *)
Definition isManipulator (l : HumdrumLine) : option bool :=
  manipulator_loop (List.length (m_tokens l)) l 0.

(** The loop of isTerminator. *)
Fixpoint terminator_loop (fuel : nat) (l : HumdrumLine) (i : Z)
  : option bool :=
  match fuel with
  | O => Some true
  | S f =>
      if i <? getTokenCount l then
        p <- token l i ;;
        tok <- p ;;
        if negb (token_isTerminator tok) then Some false
        else terminator_loop f l (i + 1)
      else Some true
  end.

(** HumdrumLine::isTerminator. *)
Definition isTerminator (l : HumdrumLine) : option bool :=
  if getTokenCount l =? 0 then
    Some (equalChar (line_text l) 1 "!" && equalChar (line_text l) 0 "*")
  else terminator_loop (List.length (m_tokens l)) l 0.

End TokenTests.

(* ------------------------------------------------------------------ *)
(** ** getBarNumber *)

(** [sscanf(tok->c_str(), "=%d", &output)] as getBarNumber calls it,
    that is on a token whose character 1 is a digit: the first
    character has to be [=], and [%d] then reads the run of digits.
    The outer [None] is a number that does not fit an [int]
    (undefined); [Some None] is no assignment, [output] keeping its
    value. *)
Definition scan_bar_number (s : text) : option (option Z) :=
  match c_str s with
  | c0 :: c1 :: r =>
      if char_eqb c0 "=" && isdigit c1
      then match more_digits r (digit_value c1) with
           | Some n => Some (Some n)
           | None => None
           end
      else Some None
  | _ => Some None
  end.

(** The loop of getBarNumber.  [output] is -1 whenever an iteration
    starts, since a value that is assigned and not negative is returned
    at once. *)
Fixpoint bar_number_loop (fuel : nat) (l : HumdrumLine) (i : Z) : option Z :=
  match fuel with
  | O => Some (-1)
  | S f =>
      if i <? getTokenCount l then
        p <- token l i ;;
        tok <- p ;;
        if size (tok_text tok) <? 2 then Some (-1)
        else
          c <- at_ (tok_text tok) 1 ;;
          if isdigit c then
            r <- scan_bar_number (tok_text tok) ;;
            match r with
            | Some output =>
                if output >=? 0 then Some output
                else bar_number_loop f l (i + 1)
            | None => bar_number_loop f l (i + 1)
            end
          else bar_number_loop f l (i + 1)
      else Some (-1)
  end.

(** HumdrumLine::getBarNumber. *)
Definition getBarNumber (l : HumdrumLine) : option Z :=
  if negb (isBarline (line_text l)) then Some (-1)
  else bar_number_loop (List.length (m_tokens l)) l 0.

(** A barline whose second token carries the number. *)
Definition late_number_line : HumdrumLine :=
  createTokensFromLine (blank_line (lit "=" ++ [TAB] ++ lit "=12")).

(* ------------------------------------------------------------------ *)
(** ** addExtraTabs *)

(** The loop of addExtraTabs over the tokens: [track] is the track of
    the token before, [local] counts the tokens seen in each track.
    [None]: a [NULL] token, an [at()] out of range, or an overflow. *)
Fixpoint extra_tabs_loop (fuel : nat) (l : HumdrumLine) (trackWidths : list Z)
         (j track : Z) (local tabs : list Z) : option (list Z) :=
  match fuel with
  | O => Some tabs
  | S f =>
      if j <? getTokenCount l then
        let lasttrack := track in
        p <- token l j ;;
        tok <- p ;;
        let track := tok_track tok in
        tabs <- (if negb (track =? lasttrack) && (lasttrack >? 0) then
                   w <- vec_at trackWidths lasttrack ;;
                   c <- vec_at local lasttrack ;;
                   diff <- as_int (w - c) ;;
                   if (diff >? 0) && (j >? 0) then
                     k <- vec_at tabs (j - 1) ;;
                     k' <- as_int (k + diff) ;;
                     Some (vec_set tabs (j - 1) k')
                   else Some tabs
                 else Some tabs) ;;
        c <- vec_at local track ;;
        c' <- as_int (c + 1) ;;
        extra_tabs_loop f l trackWidths (j + 1) track
                        (vec_set local track c') tabs
      else Some tabs
  end.

(** HumdrumLine::addExtraTabs. *)
Definition addExtraTabs (l : HumdrumLine) (trackWidths : list Z)
  : option HumdrumLine :=
  if negb (hasSpines (line_text l)) then Some l
  else
    tabs <- extra_tabs_loop (List.length (m_tokens l)) l trackWidths 0 0
                            (repeat 0 (List.length trackWidths))
                            (map (fun _ => 1) (m_tabs l)) ;;
    Some (with_tokens l (m_tokens l) tabs).

(** A line of three tokens in the tracks 1, 2, 2, as analyzeTracks
    leaves it. *)
Definition tracked_line : HumdrumLine :=
  with_tokens (blank_line (lit "4c" ++ [TAB] ++ lit "4e" ++ [TAB] ++ lit "4g"))
    (valid_tokens
       [mkToken (lit "4c") (lit "1") 1 0 1;
        mkToken (lit "4e") (lit "(2)a") 2 1 2;
        mkToken (lit "4g") (lit "(2)b") 2 2 2])
    [1; 1; 0].

(* ================================================================== *)
(** * Properties *)

(* ------------------------------------------------------------------ *)
(** ** Machine integers and strings *)

Lemma as_int_Some (z x : Z) : as_int z = Some x -> x = z /\ z <= INT_MAX.
Proof.
  unfold as_int. intros H.
  destruct (Z.leb_spec (- INT_MAX - 1) z); [|discriminate].
  destruct (Z.leb_spec z INT_MAX); [|discriminate].
  injection H as <-. split; [reflexivity | assumption].
Qed.

Lemma as_int_fits (z : Z) : - INT_MAX - 1 <= z <= INT_MAX -> as_int z = Some z.
Proof.
  intros H. unfold as_int.
  destruct (Z.leb_spec (- INT_MAX - 1) z); [|lia].
  destruct (Z.leb_spec z INT_MAX); [reflexivity | lia].
Qed.

Lemma to_int_small (z : Z) : 0 <= z <= INT_MAX -> to_int z = z.
Proof.
  unfold to_int, INT_MAX. intros H.
  rewrite Z.mod_small by lia. lia.
Qed.

Lemma to_int_le (z : Z) : 0 <= z -> to_int z <= z.
Proof.
  unfold to_int. intros H.
  pose proof (Z.mod_le (z + 2147483648) 4294967296 ltac:(lia) ltac:(lia)).
  lia.
Qed.

Lemma int_size_le (s : text) : int_size s <= size s.
Proof. apply to_int_le. unfold size. lia. Qed.

Lemma int_size_fits (s : text) : fits_int s -> int_size s = size s.
Proof.
  unfold fits_int, int_size. intros H. apply to_int_small.
  unfold size in *. lia.
Qed.

Lemma char_eqb_eq (a b : ascii) : char_eqb a b = true <-> a = b.
Proof. apply Ascii.eqb_eq. Qed.

Lemma char_eqb_neq (a b : ascii) : char_eqb a b = false <-> a <> b.
Proof. apply Ascii.eqb_neq. Qed.

Lemma char_eqb_refl (a : ascii) : char_eqb a a = true.
Proof. apply Ascii.eqb_refl. Qed.

Lemma nth_error_nth_Z (s : text) (index : Z) :
  0 <= index < size s ->
  nth_error s (Z.to_nat index) = Some (nth (Z.to_nat index) s NUL).
Proof.
  unfold size. intros H. apply nth_error_nth'. lia.
Qed.

(* ------------------------------------------------------------------ *)
(** ** Character access *)

(** The subscript in [getChar] is only reached inside the string. *)
Lemma getChar_checked_total (s : text) (index : Z) :
  Chars.getChar_checked s index = Some (getChar s index).
Proof.
  unfold Chars.getChar_checked, getChar, subscript.
  destruct (index <? 0) eqn:Hneg; [reflexivity|].
  destruct (index >=? int_size s) eqn:Hge; [reflexivity|].
  pose proof (int_size_le s).
  replace ((0 <=? index) && (index <=? size s)) with true; [reflexivity|].
  symmetry. apply andb_true_iff. split; lia.
Qed.

Lemma equalChar_checked_total (s : text) (index : Z) (ch : ascii) :
  Chars.equalChar_checked s index ch = Some (equalChar s index ch).
Proof.
  unfold Chars.equalChar_checked, equalChar, subscript.
  destruct (int_size s <=? index) eqn:Hge; [reflexivity|].
  destruct (index <? 0) eqn:Hneg; [reflexivity|].
  pose proof (int_size_le s).
  replace ((0 <=? index) && (index <=? size s)) with true.
  - destruct (char_eqb _ ch); reflexivity.
  - symmetry. apply andb_true_iff. split; lia.
Qed.

Lemma getChar_inside (s : text) (index : Z) :
  fits_int s -> 0 <= index < size s ->
  getChar s index = nth (Z.to_nat index) s NUL.
Proof.
  intros Hfit H. unfold getChar. rewrite (int_size_fits Hfit).
  destruct (index <? 0) eqn:E1; [lia|].
  destruct (index >=? size s) eqn:E2; [lia|]. reflexivity.
Qed.

Lemma equalChar_inside (s : text) (index : Z) (ch : ascii) :
  fits_int s -> 0 <= index < size s ->
  equalChar s index ch = char_eqb (nth (Z.to_nat index) s NUL) ch.
Proof.
  intros Hfit H. unfold equalChar. rewrite (int_size_fits Hfit).
  destruct (size s <=? index) eqn:E1; [lia|].
  destruct (index <? 0) eqn:E2; [lia|].
  destruct (char_eqb _ ch); reflexivity.
Qed.

(** C10: on a line whose length is an [int], [getChar] gives NUL and
    [equalChar] gives false at every index below 0 or at or above the
    length, [getChar] gives the character of the line at every other
    index, and neither function ever subscripts the string outside of
    it (the checked variants never fail). *)
Theorem char_access_total_in_bounds (s : text) (index : Z) (ch : ascii)
        (Hfit : fits_int s) :
  Chars.getChar_checked s index = Some (getChar s index) /\
  Chars.equalChar_checked s index ch = Some (equalChar s index ch) /\
  ((index < 0 \/ size s <= index) ->
     getChar s index = NUL /\ equalChar s index ch = false) /\
  (0 <= index < size s ->
     nth_error s (Z.to_nat index) = Some (getChar s index)).
Proof.
  split; [apply getChar_checked_total|].
  split; [apply equalChar_checked_total|].
  split.
  - intros Hout. unfold getChar, equalChar.
    rewrite (int_size_fits Hfit). split.
    + destruct (index <? 0) eqn:E1; [reflexivity|].
      destruct (index >=? size s) eqn:E2; [reflexivity|]. lia.
    + destruct (size s <=? index) eqn:E1; [reflexivity|].
      destruct (index <? 0) eqn:E2; [reflexivity|]. lia.
  - intros Hin. rewrite (getChar_inside Hfit Hin).
    apply nth_error_nth_Z. exact Hin.
Qed.

(* ------------------------------------------------------------------ *)
(** ** Classification *)

Lemma isEmpty_nil (s : text) : isEmpty s = true <-> s = [].
Proof.
  unfold isEmpty, size. split.
  - intros H. apply Z.eqb_eq in H. destruct s; [reflexivity|].
    simpl List.length in H. lia.
  - intros ->. reflexivity.
Qed.

(** C3: exactly one of comment, interpretation, barline, data and empty
    holds of a line; [isGlobal] is the negation of [hasSpines]; and
    [hasSpines] is false exactly on empty and global-comment lines. *)
Theorem classification_exclusive (s : text) :
  count_true [isComment s; isInterp s; isBarline s; isData s; isEmpty s] = 1%nat /\
  isGlobal s = negb (hasSpines s) /\
  (hasSpines s = false <-> (isEmpty s = true \/ isCommentGlobal s = true)).
Proof.
  split; [|split].
  - destruct (isEmpty s) eqn:He.
    + apply isEmpty_nil in He. subst s. reflexivity.
    + unfold isData, isComment, isInterp, isBarline. rewrite He.
      unfold equalChar.
      destruct (int_size s <=? 0); [reflexivity|].
      simpl (0 <? 0). cbv iota.
      set (c := nth (Z.to_nat 0) s NUL).
      destruct (char_eqb c "!") eqn:E1;
        destruct (char_eqb c "*") eqn:E2;
        destruct (char_eqb c "=") eqn:E3;
        try reflexivity;
        repeat match goal with
               | H : char_eqb c _ = true |- _ => apply char_eqb_eq in H
               end; congruence.
  - reflexivity.
  - unfold hasSpines.
    destruct (isEmpty s), (isCommentGlobal s); simpl; intuition congruence.
Qed.

(* ------------------------------------------------------------------ *)
(** ** Reference records *)

(** C6: the line [!!!OTL: Title] is a global reference record with key
    [OTL] and value [Title], and it has no spines. *)
Theorem scenario_C_reference_record :
  isGlobalReference (lit "!!!OTL: Title") = Some true /\
  getReferenceKey (lit "!!!OTL: Title") = Some (lit "OTL") /\
  getReferenceValue (lit "!!!OTL: Title") = Some (lit "Title") /\
  hasSpines (lit "!!!OTL: Title") = false.
Proof. vm_compute. repeat split. Qed.

Lemma starts_reference_inv (s : text) :
  starts_reference s = true ->
  exists r, s = "!"%char :: "!"%char :: "!"%char :: r.
Proof.
  unfold starts_reference, substr. simpl skipn.
  destruct s as [|a [|b [|c r]]]; simpl; try discriminate;
    try (rewrite ?andb_false_r; discriminate).
  rewrite andb_true_r, !andb_true_iff. intros (Ha & Hb & Hc).
  apply char_eqb_eq in Ha, Hb, Hc. subst. eauto.
Qed.





(* ------------------------------------------------------------------ *)
(** ** Tokenizing *)

(** C2 (what the code does): tokenizing the empty line leaves two
    entries in the token vector, an empty token and a [NULL] pointer,
    and an empty tab vector, where one token and no [NULL] is
    specified. *)
Theorem empty_line_token_vector :
  token_texts (createTokensFromLine (blank_line [])) = [Some []; None] /\
  getTokenCount (createTokensFromLine (blank_line [])) = 2 /\
  token (createTokensFromLine (blank_line [])) 1 = Some None /\
  m_tabs (createTokensFromLine (blank_line [])) = [] /\
  HumdrumLine_string [] = createTokensFromLine (blank_line []).
Proof. vm_compute. repeat split. Qed.

(** On a line whose length is an [int] the index loop visits the
    characters of the line in order. *)
Lemma scan_loop_fold (p q : text) (st : scan) :
  fits_int (p ++ q) ->
  scan_loop (List.length q) (p ++ q) (Z.of_nat (List.length p)) st
  = scan_fold q st.
Proof.
  revert p st. induction q as [|c q IH]; intros p st Hfit.
  - reflexivity.
  - simpl scan_loop. rewrite (int_size_fits Hfit).
    assert (Hin : 0 <= Z.of_nat (List.length p) < size (p ++ c :: q)).
    { unfold size. rewrite length_app. simpl. lia. }
    destruct (Z.of_nat (List.length p) <? size (p ++ c :: q)) eqn:E; [|lia].
    rewrite (getChar_inside Hfit Hin), Nat2Z.id, app_nth2, Nat.sub_diag
      by lia.
    simpl nth.
    replace (Z.of_nat (List.length p) + 1)
      with (Z.of_nat (List.length (p ++ [c])))
      by (rewrite length_app; simpl; lia).
    replace (p ++ c :: q) with ((p ++ [c]) ++ q) in *
      by (rewrite <- app_assoc; reflexivity).
    rewrite IH by exact Hfit. reflexivity.
Qed.

Lemma scan_line_general (s : text) :
  fits_int s -> s <> [] -> text_eqb (substr s 0 2) (lit "!!") = false ->
  scan_line s = scan_fold s scan_init.
Proof.
  intros Hfit Hne Hbang. unfold scan_line. rewrite Hbang.
  destruct (size s =? 0) eqn:E.
  - apply Z.eqb_eq in E. destruct s; [congruence|].
    unfold size in E. simpl in E. lia.
  - apply (@scan_loop_fold [] s scan_init Hfit).
Qed.

Lemma glue_app (ts : list text) (ks : list Z) (t : text) (k : Z) :
  List.length ks = List.length ts ->
  glue (ts ++ [t]) (ks ++ [k]) = glue ts ks ++ t ++ repeat TAB (Z.to_nat k).
Proof.
  revert ks. induction ts as [|x ts IH]; intros [|y ks] H;
    simpl in H; try discriminate.
  - simpl. rewrite !app_nil_r. reflexivity.
  - simpl. rewrite IH by lia. rewrite <- !app_assoc. reflexivity.
Qed.

Lemma repeat_succ_Z (k : Z) :
  0 <= k -> repeat TAB (Z.to_nat (k + 1)) = repeat TAB (Z.to_nat k) ++ [TAB].
Proof.
  intros H. rewrite Z2Nat.inj_add by lia.
  rewrite repeat_app. reflexivity.
Qed.

Lemma fresh_tokens_app (ts : list text) (t : text) :
  fresh_tokens (ts ++ [t]) = fresh_tokens ts ++ [Some (HumdrumToken_new t)].
Proof. unfold fresh_tokens. rewrite map_app. reflexivity. Qed.

Lemma inc_back_last (bt : list Z) (k : Z) :
  inc_back (bt ++ [k]) = bt ++ [k + 1].
Proof. unfold inc_back. rewrite removelast_last, last_last. reflexivity. Qed.

Lemma scan_inv_init : scan_inv [] scan_init.
Proof.
  exists []. simpl. repeat split; auto.
Qed.

Lemma scan_inv_step (p : text) (st : scan) (c : ascii) :
  scan_inv p st -> scan_inv (p ++ [c]) (scan_step c st).
Proof.
  intros (ts & Htok & Hlen & Hpos & Hch & Hcase).
  unfold scan_step.
  destruct (char_eqb c TAB) eqn:Ec.
  - apply char_eqb_eq in Ec. subst c.
    destruct (char_eqb (sc_ch st) TAB) eqn:El; simpl negb; cbv iota.
    + destruct Hcase as (Hts & Hp & ts' & t & bt & k & -> & Hbt & Hl & Hlast).
      assert (Hm : forall (A : Type) (x y : A),
                 match sc_tabs st with [] => x | _ :: _ => y end = y)
        by (intros; rewrite Hbt; destruct bt; reflexivity).
      rewrite Hm. clear Hm. rewrite Hbt in Hlen, Hpos, Hp |- *.
      rewrite inc_back_last.
      apply Forall_app in Hpos. destruct Hpos as [Hpb Hpk].
      apply Forall_inv in Hpk.
      exists (ts' ++ [t]). cbn [sc_tokens sc_tabs sc_ch sc_tstring].
      split; [exact Htok|].
      split; [rewrite !length_app in *; simpl in *; lia|].
      split; [apply Forall_app; split; [exact Hpb | constructor; [lia|constructor]]|].
      split; [rewrite last_last; reflexivity|].
      rewrite char_eqb_refl.
      split; [exact Hts|].
      split.
      * rewrite Hp, !glue_app by exact Hl.
        rewrite repeat_succ_Z by lia. rewrite <- !app_assoc. reflexivity.
      * exists ts', t, bt, (k + 1). repeat split; assumption.
    + destruct Hcase as (Hp & Hne).
      exists (ts ++ [sc_tstring st]). cbn [sc_tokens sc_tabs sc_ch sc_tstring].
      split; [rewrite Htok, fresh_tokens_app; reflexivity|].
      split; [rewrite !length_app; simpl; lia|].
      split; [apply Forall_app; split; [exact Hpos | constructor; [lia|constructor]]|].
      split; [rewrite last_last; reflexivity|].
      rewrite char_eqb_refl.
      split; [reflexivity|].
      split.
      * rewrite glue_app by exact Hlen. rewrite Hp at 1.
        rewrite <- !app_assoc. reflexivity.
      * exists ts, (sc_tstring st), (sc_tabs st), 1.
        repeat split; try assumption.
        rewrite <- Hp, <- Hch. apply char_eqb_neq. exact El.
  - exists ts. cbn [sc_tokens sc_tabs sc_ch sc_tstring].
    split; [exact Htok|]. split; [exact Hlen|]. split; [exact Hpos|].
    split; [rewrite last_last; reflexivity|].
    rewrite Ec. split.
    + destruct (char_eqb (sc_ch st) TAB).
      * destruct Hcase as (Hts & Hp & _). rewrite Hts, Hp at 1. reflexivity.
      * destruct Hcase as (Hp & _). rewrite Hp at 1.
        rewrite <- app_assoc. reflexivity.
    + left. destruct (sc_tstring st); discriminate.
Qed.

Lemma scan_inv_fold (q p : text) (st : scan) :
  scan_inv p st -> scan_inv (p ++ q) (scan_fold q st).
Proof.
  revert p st. induction q as [|c q IH]; intros p st H.
  - rewrite app_nil_r. exact H.
  - simpl. replace (p ++ c :: q) with ((p ++ [c]) ++ q)
      by (rewrite <- app_assoc; reflexivity).
    apply IH. apply scan_inv_step. exact H.
Qed.

(** The token and tab vectors the general branch ends with: the line is
    the tokens glued with their tab runs, then the trailing tabs. *)
Lemma scan_flush_result (s : text) (st : scan) :
  s <> [] -> scan_inv s st ->
  exists ts' t bt k,
    sc_tokens (scan_flush st) = fresh_tokens (ts' ++ [t]) /\
    sc_tabs (scan_flush st) = bt ++ [k] /\
    List.length bt = List.length ts' /\
    Forall (fun k => 1 <= k) bt /\
    0 <= k /\
    s = (glue ts' bt ++ t) ++ repeat TAB (Z.to_nat k) /\
    last (glue ts' bt ++ t) NUL <> TAB /\
    (t <> [] \/ 1 <= k).
Proof.
  intros Hne (ts & Htok & Hlen & Hpos & Hch & Hcase).
  destruct (char_eqb (sc_ch st) TAB) eqn:El.
  - destruct Hcase as (Hts & Hp & ts' & t & bt & k & -> & Hbt & Hl & Hlast).
    assert (Hflush : scan_flush st = st)
      by (unfold scan_flush; rewrite Hts; reflexivity).
    rewrite Hflush. rewrite Hbt in Hpos, Hp |- *.
    apply Forall_app in Hpos. destruct Hpos as [Hpb Hpk].
    apply Forall_inv in Hpk.
    exists ts', t, bt, k.
    split; [exact Htok|]. split; [reflexivity|]. split; [exact Hl|].
    split; [exact Hpb|]. split; [lia|].
    split; [rewrite Hp, glue_app by exact Hl; rewrite <- app_assoc; reflexivity|].
    split; [exact Hlast|]. right. exact Hpk.
  - destruct Hcase as (Hp & [Hts | Hnil]); [|congruence].
    assert (Hflush : scan_flush st =
                     mkScan (sc_ch st) []
                            (sc_tokens st ++ [Some (HumdrumToken_new (sc_tstring st))])
                            (sc_tabs st ++ [0])).
    { unfold scan_flush, size. destruct (sc_tstring st); [congruence|].
      reflexivity. }
    rewrite Hflush. cbn [sc_tokens sc_tabs].
    exists ts, (sc_tstring st), (sc_tabs st), 0.
    split; [rewrite Htok, fresh_tokens_app; reflexivity|].
    split; [reflexivity|]. split; [exact Hlen|]. split; [exact Hpos|].
    split; [lia|].
    split; [simpl; rewrite app_nil_r; exact Hp|].
    split; [rewrite <- Hp, <- Hch; apply char_eqb_neq; exact El|].
    left. exact Hts.
Qed.

Lemma range_check_true (i n : Z) :
  0 <= i < n -> (0 <=? i) && (i <? n) = true.
Proof.
  intros H. apply andb_true_iff. split; [apply Z.leb_le | apply Z.ltb_lt]; lia.
Qed.

Lemma vec_at_middle (A : Type) (a b : list A) (x : A) :
  vec_at (a ++ x :: b) (Z.of_nat (List.length a)) = Some x.
Proof.
  unfold vec_at. rewrite Nat2Z.id, range_check_true.
  - rewrite nth_error_app2, Nat.sub_diag by lia. reflexivity.
  - rewrite length_app. simpl. lia.
Qed.

Lemma join_loop_S (f : nat) (toks : list HTp) (i : Z) (tabs : list Z)
      (iline : text) :
  join_loop (S f) toks i tabs iline =
  if i <? int_len toks then
    match vec_at toks i with
    | Some (Some tok) =>
        if i <? int_len toks - 1 then
          let tabs1 :=
            if int_len tabs <=? i
            then pad_tabs (List.length toks) (int_len toks) 0 tabs
            else tabs in
          match vec_at tabs1 i with
          | Some k =>
              let tabs2 := if k =? 0 then vec_set tabs1 i 1 else tabs1 in
              match vec_at tabs2 i with
              | Some k' =>
                  join_loop f toks (i + 1) tabs2
                            ((iline ++ tok_text tok) ++ repeat TAB (Z.to_nat k'))
              | None => None
              end
          | None => None
          end
        else join_loop f toks (i + 1) tabs (iline ++ tok_text tok)
    | _ => None
    end
  else Some (tabs, iline).
Proof. reflexivity. Qed.

Lemma fresh_tokens_middle (pre post : list text) (x : text) :
  vec_at (fresh_tokens (pre ++ x :: post)) (Z.of_nat (List.length pre))
  = Some (Some (HumdrumToken_new x)).
Proof.
  unfold fresh_tokens. rewrite map_app. cbn [map].
  rewrite <- (length_map (fun t0 => Some (HumdrumToken_new t0)) pre).
  apply vec_at_middle.
Qed.

Lemma int_len_small (A : Type) (v : list A) :
  Z.of_nat (List.length v) <= INT_MAX -> int_len v = Z.of_nat (List.length v).
Proof. intros H. unfold int_len. apply to_int_small. lia. Qed.

Lemma join_loop_glue (post pre : list text) (bpost bpre : list Z)
      (t : text) (k : Z) (acc : text) :
  List.length bpre = List.length pre ->
  List.length bpost = List.length post ->
  Forall (fun k => 1 <= k) bpost ->
  Z.of_nat (List.length (pre ++ post ++ [t])) <= INT_MAX ->
  join_loop (S (List.length post)) (fresh_tokens (pre ++ post ++ [t]))
            (Z.of_nat (List.length pre)) (bpre ++ bpost ++ [k]) acc
  = Some (bpre ++ bpost ++ [k], acc ++ glue post bpost ++ t).
Proof.
  revert pre bpost bpre acc.
  induction post as [|x post IH]; intros pre bpost bpre acc Hpre Hpost Hpos Hmax.
  - destruct bpost; [|discriminate]. cbn [List.length app glue].
    rewrite join_loop_S.
    assert (Hlen : List.length (fresh_tokens (pre ++ [t])) = (List.length pre + 1)%nat)
      by (unfold fresh_tokens; rewrite length_map, length_app; reflexivity).
    cbn [app] in Hmax. rewrite length_app in Hmax. cbn [List.length] in Hmax.
    rewrite int_len_small by (rewrite Hlen; lia). rewrite Hlen.
    destruct (Z.ltb_spec (Z.of_nat (List.length pre)) (Z.of_nat (List.length pre + 1))); [|lia].
    rewrite fresh_tokens_middle.
    destruct (Z.ltb_spec (Z.of_nat (List.length pre)) (Z.of_nat (List.length pre + 1) - 1)); [lia|].
    reflexivity.
  - destruct bpost as [|b bpost]; [discriminate|].
    simpl in Hpost. apply Forall_cons_iff in Hpos. destruct Hpos as [Hb Hpos].
    cbn [List.length]. rewrite join_loop_S.
    assert (Hlen : List.length (fresh_tokens (pre ++ (x :: post) ++ [t]))
                   = (List.length pre + S (S (List.length post)))%nat)
      by (unfold fresh_tokens; rewrite length_map, ?length_app; simpl;
          rewrite ?length_app; simpl; lia).
    assert (Hmax' : Z.of_nat (List.length pre + S (S (List.length post))) <= INT_MAX).
    { rewrite ?length_app in Hmax. simpl in Hmax. rewrite ?length_app in Hmax.
      simpl in Hmax. lia. }
    rewrite int_len_small by (rewrite Hlen; lia). rewrite Hlen.
    destruct (Z.ltb_spec (Z.of_nat (List.length pre)) (Z.of_nat (List.length pre + S (S (List.length post))))); [|lia].
    cbn [app]. rewrite fresh_tokens_middle.
    destruct (Z.ltb_spec (Z.of_nat (List.length pre)) (Z.of_nat (List.length pre + S (S (List.length post))) - 1)); [|lia].
    assert (Hlt : List.length (bpre ++ b :: bpost ++ [k])
                  = (List.length pre + S (S (List.length post)))%nat)
      by (rewrite ?length_app; simpl; rewrite ?length_app; simpl; lia).
    rewrite int_len_small by (rewrite Hlt; lia). rewrite Hlt.
    destruct (Z.leb_spec (Z.of_nat (List.length pre + S (S (List.length post)))) (Z.of_nat (List.length pre))); [lia|].
    cbv zeta. rewrite <- Hpre at 1. rewrite vec_at_middle.
    destruct (Z.eqb_spec b 0); [lia|].
    rewrite <- Hpre at 1. rewrite vec_at_middle.
    replace (Z.of_nat (List.length pre) + 1)
      with (Z.of_nat (List.length (pre ++ [x])))
      by (rewrite length_app; simpl; lia).
    replace (pre ++ x :: post ++ [t]) with ((pre ++ [x]) ++ post ++ [t])
      by (rewrite <- !app_assoc; reflexivity).
    replace (bpre ++ b :: bpost ++ [k]) with ((bpre ++ [b]) ++ bpost ++ [k])
      by (rewrite <- !app_assoc; reflexivity).
    rewrite IH.
    + cbn [glue tok_text HumdrumToken_new]. rewrite <- !app_assoc. reflexivity.
    + rewrite !length_app. simpl. lia.
    + lia.
    + exact Hpos.
    + rewrite <- !app_assoc. exact Hmax.
Qed.

Lemma drop_null_back_fresh (ts : list text) (t : text) :
  drop_null_back (fresh_tokens (ts ++ [t])) = fresh_tokens (ts ++ [t]).
Proof.
  unfold drop_null_back. rewrite fresh_tokens_app, last_last.
  destruct (fresh_tokens ts ++ [Some (HumdrumToken_new t)]) eqn:E; [|reflexivity].
  destruct (fresh_tokens ts); discriminate.
Qed.

Lemma glue_length (ts : list text) (ks : list Z) :
  List.length ks = List.length ts -> Forall (fun k => 1 <= k) ks ->
  (List.length ts <= List.length (glue ts ks))%nat.
Proof.
  revert ks. induction ts as [|x ts IH]; intros [|k ks] Hl Hp;
    simpl in *; try discriminate; try lia.
  apply Forall_cons_iff in Hp. destruct Hp as [Hk Hp].
  specialize (IH ks ltac:(lia) Hp).
  rewrite !length_app, repeat_length. lia.
Qed.

(** createLineFromTokens on the vectors of a tokenized line. *)
Lemma createLineFromTokens_fresh (l : HumdrumLine) (ts : list text) (t : text)
      (bt : list Z) (k : Z) :
  m_tokens l = fresh_tokens (ts ++ [t]) ->
  m_tabs l = bt ++ [k] ->
  List.length bt = List.length ts ->
  Forall (fun k => 1 <= k) bt ->
  Z.of_nat (List.length (ts ++ [t])) <= INT_MAX ->
  createLineFromTokens l = Some (with_text l (glue ts bt ++ t)).
Proof.
  intros Htok Htab Hlen Hpos Hmax.
  unfold createLineFromTokens. rewrite Htok, Htab, drop_null_back_fresh.
  assert (Hfuel : List.length (fresh_tokens (ts ++ [t])) = S (List.length ts))
    by (unfold fresh_tokens; rewrite length_map, length_app; simpl; lia).
  rewrite Hfuel.
  pose proof (@join_loop_glue ts [] bt [] t k [] eq_refl Hlen Hpos Hmax) as H.
  cbn [app List.length Z.of_nat] in H. rewrite H. cbn [fst snd app].
  destruct l; unfold with_text, with_tokens; cbn in *. subst. reflexivity.
Qed.

Lemma scan_fold_app (a b : text) (st : scan) :
  scan_fold (a ++ b) st = scan_fold b (scan_fold a st).
Proof. unfold scan_fold. apply fold_left_app. Qed.

Lemma scan_fold_cons (c : ascii) (q : text) (st : scan) :
  scan_fold (c :: q) st = scan_fold q (scan_step c st).
Proof. reflexivity. Qed.

Lemma scan_step_tab_first (st : scan) :
  char_eqb (sc_ch st) TAB = false ->
  scan_step TAB st
  = mkScan TAB [] (sc_tokens st ++ [Some (HumdrumToken_new (sc_tstring st))])
           (sc_tabs st ++ [1]).
Proof. intros H. unfold scan_step. rewrite char_eqb_refl, H. reflexivity. Qed.

Lemma scan_step_tab_more (tstring : text) (toks : list HTp) (bt : list Z) (j : Z) :
  scan_step TAB (mkScan TAB tstring toks (bt ++ [j]))
  = mkScan TAB tstring toks (bt ++ [j + 1]).
Proof.
  unfold scan_step. cbn [sc_ch sc_tabs sc_tokens sc_tstring].
  rewrite char_eqb_refl. cbn [negb].
  destruct (bt ++ [j]) eqn:E; [destruct bt; discriminate|]. rewrite <- E.
  rewrite inc_back_last. reflexivity.
Qed.

(** Further tabs after a tab only raise the last tab count. *)
Lemma scan_fold_more_tabs (n : nat) (tstring : text)
      (toks : list HTp) (bt : list Z) (j : Z) :
  scan_fold (repeat TAB n) (mkScan TAB tstring toks (bt ++ [j]))
  = mkScan TAB tstring toks (bt ++ [j + Z.of_nat n]).
Proof.
  revert j. induction n as [|n IH]; intros j.
  - simpl. rewrite Z.add_0_r. reflexivity.
  - cbn [repeat]. rewrite scan_fold_cons, scan_step_tab_more, IH.
    f_equal. f_equal. f_equal. lia.
Qed.



Lemma fits_int_prefix (a b : text) : fits_int (a ++ b) -> fits_int a.
Proof. unfold fits_int, size. rewrite length_app. lia. Qed.



Lemma glue_nil_inv (ts : list text) (bt : list Z) (t : text) :
  List.length bt = List.length ts -> Forall (fun k => 1 <= k) bt ->
  glue ts bt ++ t = [] -> ts = [] /\ t = [].
Proof.
  intros Hl Hp H. apply app_eq_nil in H. destruct H as [Hg Ht].
  pose proof (@glue_length ts bt Hl Hp) as Hle. rewrite Hg in Hle.
  destruct ts; [auto|]. simpl in Hle. lia.
Qed.




(** A line of one tab: its token is empty and is followed by one tab.
    Written back it is the empty line, which is tokenized to the empty
    token and [NULL], with no tab count. *)
Example round_trip_tabs_only :
  m_tokens (createTokensFromLine (blank_line [TAB])) = [Some (HumdrumToken_new [])] /\
  m_tabs (createTokensFromLine (blank_line [TAB])) = [1] /\
  exists l2,
    retokenize (createTokensFromLine (blank_line [TAB])) = Some l2 /\
    line_text l2 = [] /\
    m_tokens l2 = [Some (HumdrumToken_new []); None] /\
    m_tabs l2 = [].
Proof.
  split; [reflexivity|]. split; [reflexivity|].
  eexists. split; [reflexivity|]. repeat split; reflexivity.
Qed.

(** The count after the last token is lost whatever a new token and a
    new line hold: [a<tab>] has count 1 there, and 0 after the round
    trip. *)
Lemma round_trip_trailing_tab_lost :
  m_tabs (createTokensFromLine (blank_line (lit "a" ++ [TAB]))) = [1] /\
  exists l2,
    retokenize (createTokensFromLine (blank_line (lit "a" ++ [TAB]))) = Some l2 /\
    m_tabs l2 = [0].
Proof.
  split; [reflexivity|]. eexists. split; reflexivity.
Qed.

(* ------------------------------------------------------------------ *)
(** ** Tracks and subtracks *)

Lemma isdigit_value (c : ascii) : isdigit c = true -> 0 <= digit_value c <= 9.
Proof.
  unfold isdigit, digit_value. intros H.
  apply andb_true_iff in H. destruct H as [H1 H2].
  apply Z.leb_le in H1, H2. lia.
Qed.

Lemma take_digits_all (info : text) :
  Forall (fun c => isdigit c = true) (take_digits info).
Proof.
  induction info as [|c r IH]; simpl; [constructor|].
  destruct (isdigit c) eqn:E; constructor; assumption.
Qed.

Lemma decimal_from_mono (digits : text) (acc : Z) :
  Forall (fun c => isdigit c = true) digits -> 0 <= acc ->
  acc <= decimal_from acc digits.
Proof.
  revert acc. induction digits as [|c r IH]; intros acc Hd Hacc.
  - simpl. lia.
  - apply Forall_cons_iff in Hd. destruct Hd as [Hc Hr].
    pose proof (isdigit_value c Hc).
    unfold decimal_from in *. simpl.
    specialize (IH (acc * 10 + digit_value c) Hr ltac:(lia)). lia.
Qed.

(** The inner loop reads the digits in front of its input. *)
Lemma more_digits_value (info : text) (acc : Z) :
  0 <= acc ->
  decimal_from acc (take_digits info) <= INT_MAX ->
  more_digits info acc = Some (decimal_from acc (take_digits info)).
Proof.
  revert acc. induction info as [|c r IH]; intros acc Hacc Hmax.
  - reflexivity.
  - simpl in *. destruct (isdigit c) eqn:E; [|reflexivity].
    pose proof (isdigit_value c E).
    unfold decimal_from in Hmax. simpl in Hmax.
    fold (decimal_from (acc * 10 + digit_value c) (take_digits r)) in Hmax.
    pose proof (@decimal_from_mono (take_digits r) (acc * 10 + digit_value c)
                  (take_digits_all r) ltac:(lia)).
    destruct (Z.leb_spec (acc * 10 + digit_value c) INT_MAX); [|lia].
    rewrite IH by (try lia; exact Hmax). reflexivity.
Qed.

(** [spine_track] computes the specified track number, as long as that
    number is an [int]. *)
Lemma spine_track_value (info : text) :
  decimal_value (first_digit_run info) <= INT_MAX ->
  spine_track info = Some (decimal_value (first_digit_run info)).
Proof.
  unfold first_digit_run, decimal_value.
  induction info as [|c r IH]; intros Hmax.
  - reflexivity.
  - simpl in *. destruct (isdigit c) eqn:E; simpl.
    + pose proof (isdigit_value c E).
      simpl in Hmax. rewrite E in Hmax. unfold decimal_from in Hmax. simpl in Hmax.
      fold (decimal_from (digit_value c) (take_digits r)) in Hmax.
      rewrite more_digits_value by (try lia; exact Hmax).
      rewrite E. reflexivity.
    + apply IH. exact Hmax.
Qed.

Lemma decimal_value_nonneg (info : text) :
  0 <= decimal_value (first_digit_run info).
Proof.
  unfold decimal_value, first_digit_run.
  apply decimal_from_mono; [apply take_digits_all | lia].
Qed.

(** *** Vectors of counters *)

Lemma vec_at_nth (v : list Z) (i : Z) :
  0 <= i < Z.of_nat (List.length v) ->
  vec_at v i = Some (nth (Z.to_nat i) v 0).
Proof.
  intros H. unfold vec_at. rewrite range_check_true by exact H.
  apply nth_error_nth'. lia.
Qed.

Lemma vec_set_length (v : list Z) (i x : Z) :
  0 <= i < Z.of_nat (List.length v) ->
  List.length (vec_set v i x) = List.length v.
Proof.
  intros H. unfold vec_set.
  rewrite length_app, length_firstn. cbn [List.length].
  rewrite length_skipn. lia.
Qed.

Lemma vec_set_nth (v : list Z) (i j x : Z) :
  0 <= i < Z.of_nat (List.length v) -> 0 <= j ->
  nth (Z.to_nat j) (vec_set v i x) 0
  = if j =? i then x else nth (Z.to_nat j) v 0.
Proof.
  intros Hi Hj. unfold vec_set.
  assert (Hf : List.length (firstn (Z.to_nat i) v) = Z.to_nat i)
    by (rewrite length_firstn; lia).
  destruct (Z.eqb_spec j i) as [->|Hne].
  - rewrite app_nth2 by lia. rewrite Hf, Nat.sub_diag. reflexivity.
  - destruct (Z.ltb_spec j i).
    + rewrite app_nth1 by lia. rewrite nth_firstn.
      destruct (Nat.ltb_spec (Z.to_nat j) (Z.to_nat i)); [reflexivity|lia].
    + rewrite app_nth2 by lia. rewrite Hf.
      destruct (Z.to_nat j - Z.to_nat i)%nat as [|d] eqn:Ed; [lia|].
      cbn [nth]. rewrite nth_skipn. f_equal. lia.
Qed.

Lemma same_track_cons (k : Z) (t : HumdrumToken) (ts : list HumdrumToken) :
  same_track k (t :: ts)
  = ((if (tok_track t =? k)%Z then 1 else 0) + same_track k ts)%nat.
Proof.
  unfold same_track. simpl. destruct (tok_track t =? k); reflexivity.
Qed.

Lemma same_track_app (k : Z) (a b : list HumdrumToken) :
  same_track k (a ++ b) = (same_track k a + same_track k b)%nat.
Proof. unfold same_track. rewrite filter_app, length_app. reflexivity. Qed.

(** *** The three loops *)

Lemma assign_tracks_spec (toks : list HumdrumToken) (m : Z) :
  Forall (fun t => track_of t <= INT_MAX) toks ->
  exists mx,
    assign_tracks (valid_tokens toks) m
    = Some (valid_tokens (map retrack toks), mx) /\
    m <= mx /\
    Forall (fun t => track_of t <= mx) toks.
Proof.
  revert m. induction toks as [|t r IH]; intros m Hfit.
  - exists m. simpl. repeat split; [lia | constructor].
  - apply Forall_cons_iff in Hfit. destruct Hfit as [Ht Hr].
    cbn [valid_tokens map assign_tracks].
    unfold track_of in Ht. rewrite (spine_track_value _ Ht).
    fold (track_of t).
    destruct (IH (if m <? track_of t then track_of t else m) Hr)
      as (mx & Hrun & Hle & Hall).
    unfold valid_tokens in Hrun. rewrite Hrun. cbn [fst snd].
    exists mx. split; [reflexivity|].
    destruct (Z.ltb_spec m (track_of t)).
    + split; [lia|]. constructor; [lia | exact Hall].
    + split; [lia|]. constructor; [lia | exact Hall].
Qed.

(** The largest track the first loop finds is one of the tracks, or the
    value [maxtrack] started with. *)
Lemma assign_tracks_bound (toks : list HumdrumToken) (m b : Z) :
  Forall (fun t => track_of t <= b) toks -> b <= INT_MAX -> m <= b ->
  exists mx,
    assign_tracks (valid_tokens toks) m
    = Some (valid_tokens (map retrack toks), mx) /\
    m <= mx <= b /\
    Forall (fun t => track_of t <= mx) toks.
Proof.
  revert m. induction toks as [|t r IH]; intros m Hfit Hb Hm.
  - exists m. simpl. repeat split; [lia | lia | constructor].
  - apply Forall_cons_iff in Hfit. destruct Hfit as [Ht Hr].
    cbn [valid_tokens map assign_tracks].
    assert (Ht' : decimal_value (first_digit_run (tok_spineinfo t)) <= INT_MAX)
      by (unfold track_of in Ht; lia).
    rewrite (spine_track_value _ Ht').
    fold (track_of t).
    destruct (IH (if m <? track_of t then track_of t else m) Hr Hb)
      as (mx & Hrun & Hle & Hall).
    { destruct (Z.ltb_spec m (track_of t)); lia. }
    unfold valid_tokens in Hrun. rewrite Hrun. cbn [fst snd].
    exists mx. split; [reflexivity|].
    destruct (Z.ltb_spec m (track_of t)).
    + split; [lia|]. constructor; [lia | exact Hall].
    + split; [lia|]. constructor; [lia | exact Hall].
Qed.

Lemma count_subtracks_spec (ts : list HumdrumToken) (v : list Z) :
  Forall (fun t => 0 <= tok_track t < Z.of_nat (List.length v)) ts ->
  exists v',
    count_subtracks (valid_tokens ts) v = Some v' /\
    List.length v' = List.length v /\
    forall j, 0 <= j ->
      nth (Z.to_nat j) v' 0 = nth (Z.to_nat j) v 0 + Z.of_nat (same_track j ts).
Proof.
  revert v. induction ts as [|t r IH]; intros v Hin.
  - exists v. simpl. repeat split. intros j Hj. unfold same_track. simpl. lia.
  - apply Forall_cons_iff in Hin. destruct Hin as [Ht Hr].
    cbn [valid_tokens map count_subtracks].
    rewrite (vec_at_nth v Ht).
    set (v1 := vec_set v (tok_track t) (nth (Z.to_nat (tok_track t)) v 0 + 1)).
    assert (Hlen1 : List.length v1 = List.length v)
      by (apply vec_set_length; exact Ht).
    destruct (IH v1) as (v' & Hrun & Hlen & Hcnt).
    { rewrite Hlen1. exact Hr. }
    exists v'. unfold valid_tokens in Hrun. rewrite Hrun.
    split; [reflexivity|]. split; [lia|].
    intros j Hj. rewrite (Hcnt j Hj). unfold v1.
    rewrite (vec_set_nth v _ Ht Hj), same_track_cons.
    destruct (Z.eqb_spec j (tok_track t)) as [->|Hne].
    + rewrite Z.eqb_refl. lia.
    + destruct (Z.eqb_spec (tok_track t) j); [congruence|]. lia.
Qed.

Lemma assign_subtracks_spec (full ts pre : list HumdrumToken)
      (sub cur : list Z) :
  List.length cur = List.length sub ->
  Forall (fun t => 0 <= tok_track t < Z.of_nat (List.length sub)) ts ->
  (forall j, 0 <= j < Z.of_nat (List.length sub) ->
     nth (Z.to_nat j) sub 0 = Z.of_nat (same_track j full)) ->
  (forall j, 0 <= j < Z.of_nat (List.length sub) ->
     (1 < same_track j full)%nat ->
     nth (Z.to_nat j) cur 0 = Z.of_nat (same_track j pre)) ->
  assign_subtracks (valid_tokens ts) sub cur
  = Some (valid_tokens (number_subtracks full pre ts)).
Proof.
  unfold valid_tokens.
  revert pre cur. induction ts as [|t r IH]; intros pre cur Hlen Hin Hsub Hcur.
  - reflexivity.
  - apply Forall_cons_iff in Hin. destruct Hin as [Ht Hr].
    cbn [map assign_subtracks number_subtracks].
    rewrite (vec_at_nth sub Ht), (Hsub _ Ht).
    destruct (Z.of_nat (same_track (tok_track t) full) >? 1) eqn:Egt.
    + assert (Hmany : (1 < same_track (tok_track t) full)%nat)
        by (apply Z.gtb_lt in Egt; lia).
      assert (Htc : 0 <= tok_track t < Z.of_nat (List.length cur)) by lia.
      rewrite (vec_at_nth cur Htc), (Hcur _ Ht Hmany).
      rewrite (IH (pre ++ [t])
                  (vec_set cur (tok_track t)
                           (Z.of_nat (same_track (tok_track t) pre) + 1))).
      * assert (Hrank : Z.of_nat (same_track (tok_track t) (pre ++ [t]))
                        = Z.of_nat (same_track (tok_track t) pre) + 1).
        { rewrite same_track_app, same_track_cons, Z.eqb_refl.
          replace (same_track (tok_track t) []) with 0%nat by reflexivity. lia. }
        rewrite Hrank. reflexivity.
      * rewrite vec_set_length by exact Htc. exact Hlen.
      * exact Hr.
      * exact Hsub.
      * intros j Hj Hjm. rewrite (vec_set_nth cur _ Htc) by lia.
        rewrite same_track_app, same_track_cons.
        replace (same_track j []) with 0%nat by reflexivity.
        destruct (Z.eqb_spec j (tok_track t)) as [->|Hne].
        -- rewrite Z.eqb_refl. lia.
        -- destruct (Z.eqb_spec (tok_track t) j); [congruence|].
           rewrite (Hcur j Hj Hjm). lia.
    + rewrite (IH (pre ++ [t]) cur); [reflexivity | exact Hlen | exact Hr
                                      | exact Hsub |].
      intros j Hj Hjm. rewrite (Hcur j Hj Hjm).
      rewrite same_track_app, same_track_cons.
      replace (same_track j []) with 0%nat by reflexivity.
      destruct (Z.eqb_spec (tok_track t) j) as [<-|Hne]; [|lia].
      rewrite Z.gtb_ltb in Egt. apply Z.ltb_ge in Egt. lia.
Qed.

Lemma same_track_map (k : Z) (a b : list HumdrumToken) :
  map tok_track a = map tok_track b -> same_track k a = same_track k b.
Proof.
  revert b. induction a as [|x a IH]; intros [|y b] H; simpl in H;
    try discriminate; [reflexivity|].
  injection H as Hxy Hab. rewrite !same_track_cons, Hxy, (IH b Hab).
  reflexivity.
Qed.

Lemma number_subtracks_tracks (full ts pre : list HumdrumToken) :
  map tok_track (number_subtracks full pre ts) = map tok_track ts.
Proof.
  revert pre. induction ts as [|t r IH]; intros pre; [reflexivity|].
  simpl. rewrite IH. reflexivity.
Qed.

Lemma number_subtracks_length (full ts pre : list HumdrumToken) :
  List.length (number_subtracks full pre ts) = List.length ts.
Proof.
  rewrite <- (length_map tok_track), number_subtracks_tracks, length_map.
  reflexivity.
Qed.

Lemma number_subtracks_nth (full ts pre : list HumdrumToken) (i : nat)
      (t t' : HumdrumToken) :
  nth_error ts i = Some t ->
  nth_error (number_subtracks full pre ts) i = Some t' ->
  let n := Z.of_nat (same_track (tok_track t) full) in
  t' = setSubtrackCount
         (setSubtrack t
            (if n >? 1
             then Z.of_nat (same_track (tok_track t) (pre ++ firstn (S i) ts))
             else 0)) n.
Proof.
  revert pre i. induction ts as [|x r IH]; intros pre i Ht Ht'.
  - destruct i; discriminate.
  - destruct i as [|i]; simpl in Ht, Ht'.
    + injection Ht as ->. injection Ht' as <-. cbn [firstn]. reflexivity.
    + specialize (IH (pre ++ [x]) i Ht Ht').
      rewrite <- app_assoc in IH. exact IH.
Qed.

(** C5 (as amended): on a line without spines analyzeTracks returns at
    once and changes nothing.  On a line that has spines, whose token
    pointers are valid and whose spine-info numbers are below
    [INT_MAX] (the size [maxtrack+1] of the two counter vectors is an
    [int]), analyzeTracks runs to its end and leaves in every token: as
    track, the number written by the first run of decimal digits of its
    spine info (0 when it has none); as subtrack, 0 when no other token
    of the line has the same track, and otherwise its rank, counted
    from 1 and from the left, among the tokens of that track. *)
Theorem analyzeTracks_numbers (l : HumdrumLine) (toks : list HumdrumToken) :
  (hasSpines (line_text l) = false -> analyzeTracks l = Some l) /\
  (hasSpines (line_text l) = true ->
   m_tokens l = valid_tokens toks ->
   Forall (fun t => track_of t < INT_MAX) toks ->
   tracks_analyzed l toks).
Proof.
  split; [intros Hglobal; unfold analyzeTracks; rewrite Hglobal; reflexivity|].
  intros Hspines Htoks Hfit.
  unfold tracks_analyzed, analyzeTracks. rewrite Hspines, Htoks. cbn [negb].
  assert (Hfit' : Forall (fun t => track_of t <= INT_MAX - 1) toks)
    by (eapply Forall_impl; [|exact Hfit]; cbv beta; intros; lia).
  destruct (@assign_tracks_bound toks 0 (INT_MAX - 1) Hfit')
    as (mx & Hrun1 & Hmx & Hall);
    [lia | unfold INT_MAX; lia |].
  rewrite Hrun1. cbn [fst snd].
  rewrite as_int_fits by (unfold INT_MAX in *; lia).
  set (toks1 := map retrack toks).
  set (zeros := repeat 0 (Z.to_nat (mx + 1))).
  assert (Hzlen : Z.of_nat (List.length zeros) = mx + 1)
    by (unfold zeros; rewrite repeat_length; lia).
  assert (Hrange : Forall (fun t => 0 <= tok_track t < Z.of_nat (List.length zeros))
                          toks1).
  { unfold toks1. apply Forall_map. rewrite Hzlen.
    eapply Forall_impl; [|exact Hall]. intros t Ht.
    cbn [retrack setTrack tok_track].
    pose proof (decimal_value_nonneg (tok_spineinfo t)). unfold track_of in *.
    lia. }
  destruct (@count_subtracks_spec toks1 zeros Hrange) as (sub & Hrun2 & Hslen & Hcnt).
  rewrite Hrun2.
  assert (Hzero : forall j, nth (Z.to_nat j) zeros 0 = 0)
    by (intros j; unfold zeros; apply nth_repeat).
  rewrite (@assign_subtracks_spec toks1 toks1 [] sub zeros).
  - exists (number_subtracks toks1 [] toks1). split; [reflexivity|].
    split.
    + rewrite number_subtracks_length. unfold toks1. apply length_map.
    + intros i t t' Ht Ht'.
      assert (Ht1 : nth_error toks1 i = Some (retrack t))
        by (unfold toks1; rewrite nth_error_map, Ht; reflexivity).
      pose proof (number_subtracks_nth toks1 toks1 [] _ Ht1 Ht') as Heq.
      cbn [app] in Heq.
      assert (Hsame : forall k, same_track k (number_subtracks toks1 [] toks1)
                                = same_track k toks1)
        by (intros k; apply same_track_map, number_subtracks_tracks).
      assert (Hpre : forall k, same_track k (firstn (S i) (number_subtracks toks1 [] toks1))
                               = same_track k (firstn (S i) toks1)).
      { intros k. apply same_track_map.
        rewrite <- !firstn_map, number_subtracks_tracks. reflexivity. }
      rewrite Heq.
      cbn [retrack setTrack setSubtrack setSubtrackCount tok_text
           tok_spineinfo tok_track tok_subtrack tok_subtrackcount].
      rewrite Hsame, Hpre.
      repeat split.
      destruct (Z.gtb_spec (Z.of_nat (same_track (track_of t) toks1)) 1);
        destruct (Nat.ltb_spec 1 (same_track (track_of t) toks1));
        try lia; reflexivity.
  - lia.
  - rewrite Hslen. exact Hrange.
  - intros j Hj. rewrite (Hcnt j) by lia. rewrite Hzero. lia.
  - intros j Hj _. rewrite Hzero. reflexivity.
Qed.

Example analyzeTracks_split_line :
  option_map (fun l => map (option_map (fun t => (tok_track t, tok_subtrack t)))
                           (m_tokens l))
             (analyzeTracks split_line)
  = Some [Some (1, 0); Some (2, 1); Some (2, 2)].
Proof. vm_compute. reflexivity. Qed.

(** A global comment that has just been tokenized is returned as it
    is: its token keeps what the constructor of the token put there. *)
Example analyzeTracks_new_global_comment :
  m_tokens (createTokensFromLine (blank_line (lit "!!x")))
  = [Some (HumdrumToken_new (lit "!!x"))] /\
  analyzeTracks (createTokensFromLine (blank_line (lit "!!x")))
  = Some (createTokensFromLine (blank_line (lit "!!x"))).
Proof. split; reflexivity. Qed.

(** With a track number of [INT_MAX] the sum [maxtrack+1] overflows. *)
Example analyzeTracks_track_overflow :
  analyzeTracks
    (with_tokens split_line
       [Some (mkToken (lit "4c") (lit "2147483647") 0 0 0)] [0])
  = None.
Proof. vm_compute. reflexivity. Qed.

(* ------------------------------------------------------------------ *)
(** ** Durations *)

(** What the constructors decide of the four duration fields: a line
    made by any of the three has -1 in [duration] and
    [durationFromStart]; nothing is assigned to [durationFromBarline]
    and [durationToBarline], which hold the value of a
    default-constructed HumNum. *)
Lemma constructed_durations (aString : text) :
  own_durations_unanalyzed HumdrumLine_void /\
  own_durations_unanalyzed (HumdrumLine_string aString) /\
  own_durations_unanalyzed (HumdrumLine_cstring aString).
Proof.
  unfold own_durations_unanalyzed, HumdrumLine_void, HumdrumLine_string,
    HumdrumLine_cstring, createTokensFromLine, with_tokens, blank_line.
  cbn [m_duration m_durationFromStart m_durationFromBarline m_durationToBarline].
  repeat split.
Qed.

(** Hence all four fields of a new line are negative exactly when the
    default-constructed HumNum is, which HumNum.h decides and the
    sources do not show. *)
Lemma constructed_durations_sign (aString : text) :
  (all_durations_unanalyzed HumdrumLine_void
   <-> isNegative HumNum_default = true) /\
  (all_durations_unanalyzed (HumdrumLine_string aString)
   <-> isNegative HumNum_default = true) /\
  (all_durations_unanalyzed (HumdrumLine_cstring aString)
   <-> isNegative HumNum_default = true).
Proof.
  unfold all_durations_unanalyzed, HumdrumLine_void, HumdrumLine_string,
    HumdrumLine_cstring, createTokensFromLine, with_tokens, blank_line.
  cbn [m_duration m_durationFromStart m_durationFromBarline m_durationToBarline].
  repeat split; try tauto; reflexivity.
Qed.

Section AccessorFacts.

Variable analyzeRhythmStructure : HumdrumFile -> HumdrumFile.
Variable getScoreDuration : HumdrumFile -> HumNum.

Variable w : World.
Variable this : nat.
Variable l : HumdrumLine.
Hypothesis Hthis : nth_error (f_lines (w_file w)) this = Some l.

Lemma read_line_this : read_line this w = Some (l, w).
Proof. unfold read_line. rewrite Hthis. reflexivity. Qed.

(** With the gate set the test at the head of an accessor does
    nothing. *)
Lemma ensure_rhythm_set :
  m_rhythm_analyzed l = true ->
  ensure_rhythm analyzeRhythmStructure this w = Some (tt, w).
Proof.
  intros Hg. unfold ensure_rhythm, bind. rewrite read_line_this, Hg.
  reflexivity.
Qed.

(** With the gate unset and an owner, it runs the analysis once. *)
Lemma ensure_rhythm_unset :
  m_rhythm_analyzed l = false -> m_owner l = OwnerFile ->
  ensure_rhythm analyzeRhythmStructure this w
  = Some (tt, mkWorld (analyzeRhythmStructure (w_file w)) (S (w_passes w))).
Proof.
  intros Hg Ho. unfold ensure_rhythm, bind. rewrite read_line_this, Hg, Ho.
  reflexivity.
Qed.

(** The four field accessors return the stored field and leave the
    world alone when the gate is set. *)
Lemma field_accessors_cached :
  m_rhythm_analyzed l = true ->
  getDuration analyzeRhythmStructure this w = Some (m_duration l, w) /\
  getDurationFromStart analyzeRhythmStructure this w
  = Some (m_durationFromStart l, w) /\
  getDurationFromBarline analyzeRhythmStructure this w
  = Some (m_durationFromBarline l, w) /\
  getDurationToBarline analyzeRhythmStructure this w
  = Some (m_durationToBarline l, w).
Proof.
  intros Hg.
  unfold getDuration, getDurationFromStart, getDurationFromBarline,
    getDurationToBarline, bind.
  rewrite (ensure_rhythm_set Hg), read_line_this. repeat split.
Qed.

(** With the gate unset and an owner, every accessor starts the
    analysis of the file. *)
Lemma accessors_trigger :
  m_rhythm_analyzed l = false -> m_owner l = OwnerFile ->
  let w' := mkWorld (analyzeRhythmStructure (w_file w)) (S (w_passes w)) in
  getDuration analyzeRhythmStructure this w
  = (x <~ read_line this ;; ret (m_duration x)) w' /\
  getDurationFromStart analyzeRhythmStructure this w
  = (x <~ read_line this ;; ret (m_durationFromStart x)) w' /\
  getDurationFromBarline analyzeRhythmStructure this w
  = (x <~ read_line this ;; ret (m_durationFromBarline x)) w' /\
  getDurationToBarline analyzeRhythmStructure this w
  = (x <~ read_line this ;; ret (m_durationToBarline x)) w' /\
  getDurationToEnd analyzeRhythmStructure getScoreDuration this w
  = (x <~ read_line this ;;
     match m_owner x with
     | OwnerFile =>
         fun v => Some (HumNum_sub (getScoreDuration (w_file v))
                                   (m_durationFromStart x), v)
     | OwnerNull => @fail HumNum
     end) w' /\
  getBarlineDuration analyzeRhythmStructure this w
  = (x <~ read_line this ;;
     if isBarline (line_text x)
     then getDurationToBarline analyzeRhythmStructure this
     else a <~ getDurationFromBarline analyzeRhythmStructure this ;;
          b <~ getDurationToBarline analyzeRhythmStructure this ;;
          ret (HumNum_add a b)) w'.
Proof.
  intros Hg Ho w'.
  pose proof (ensure_rhythm_unset Hg Ho) as He. fold w' in He.
  repeat split.
  - unfold getDuration. unfold bind at 1. rewrite He. reflexivity.
  - unfold getDurationFromStart. unfold bind at 1. rewrite He. reflexivity.
  - unfold getDurationFromBarline. unfold bind at 1. rewrite He. reflexivity.
  - unfold getDurationToBarline. unfold bind at 1. rewrite He. reflexivity.
  - unfold getDurationToEnd. unfold bind at 1.
    rewrite read_line_this, Hg, Ho. reflexivity.
  - unfold getBarlineDuration. unfold bind at 1. rewrite He. reflexivity.
Qed.

(** getDurationToEnd with the gate set: the constant 0, whatever the
    score duration and the line's start are. *)
Lemma getDurationToEnd_analyzed :
  m_rhythm_analyzed l = true ->
  getDurationToEnd analyzeRhythmStructure getScoreDuration this w
  = Some (HumNum_of_int 0, w).
Proof.
  intros Hg. unfold getDurationToEnd, bind. rewrite read_line_this, Hg.
  reflexivity.
Qed.

(** C8: once the rhythm of the line is analysed, getBarlineDuration
    returns the line's [durationToBarline] on a barline and the sum of
    its [durationFromBarline] and [durationToBarline] on any other
    line, without starting an analysis. *)
Theorem getBarlineDuration_analyzed
        (Hgate : m_rhythm_analyzed l = true) :
  getBarlineDuration analyzeRhythmStructure this w
  = Some (if isBarline (line_text l)
          then m_durationToBarline l
          else HumNum_add (m_durationFromBarline l) (m_durationToBarline l),
          w).
Proof.
  destruct (field_accessors_cached Hgate) as (_ & _ & Hfrom & Hto).
  unfold getBarlineDuration. unfold bind at 1.
  rewrite (ensure_rhythm_set Hgate). unfold bind at 1.
  rewrite read_line_this.
  destruct (isBarline (line_text l)); [exact Hto|].
  unfold bind. rewrite Hfrom, Hto. reflexivity.
Qed.

End AccessorFacts.

Example getBarlineDuration_data_line :
  getBarlineDuration sample_analysis 2 sample_world
  = Some (HumNum_of_int 2, sample_world).
Proof. vm_compute. reflexivity. Qed.

(** C4 (what the code does): on the second data line of the sample
    file, whose gate is set, whose start is 1 and whose score lasts 2,
    getDuration and getDurationFromStart return the stored 1 without
    an analysis pass, but getDurationToEnd returns 0 and not the
    remaining 1. *)
Theorem getDurationToEnd_cached_zero :
  getDuration sample_analysis 2 sample_world
  = Some (HumNum_of_int 1, sample_world) /\
  getDurationFromStart sample_analysis 2 sample_world
  = Some (HumNum_of_int 1, sample_world) /\
  HumNum_sub (sample_score (w_file sample_world)) (HumNum_of_int 1)
  = HumNum_of_int 1 /\
  getDurationToEnd sample_analysis sample_score 2 sample_world
  = Some (HumNum_of_int 0, sample_world).
Proof. vm_compute. repeat split. Qed.

(* ------------------------------------------------------------------ *)
(** ** What the tokenizer produces *)

Lemma fresh_tokens_inj (a b : list text) :
  fresh_tokens a = fresh_tokens b -> a = b.
Proof.
  revert b. induction a as [|x a IH]; intros [|y b] H; simpl in H;
    try discriminate; [reflexivity|].
  injection H as Hxy Hab. rewrite Hxy, (IH b Hab). reflexivity.
Qed.

Lemma tab_free_app (a b : text) :
  tab_free (a ++ b) = tab_free a && tab_free b.
Proof. unfold tab_free. apply forallb_app. Qed.

Lemma tl_app_nonempty (A : Type) (a : list A) (x : A) :
  a <> [] -> tl (a ++ [x]) = tl a ++ [x].
Proof. destruct a; [congruence | reflexivity]. Qed.

Lemma scan_shape_init : scan_shape scan_init.
Proof. exists []. simpl. repeat split; constructor. Qed.

(** One more character keeps the shape. *)
Lemma scan_shape_step (p : text) (st : scan) (c : ascii) :
  scan_inv p st -> scan_shape st -> scan_shape (scan_step c st).
Proof.
  intros (ts0 & Htok0 & Hlen & Hpos & Hch & Hcase)
         (ts & Htok & Hfree & Hstr & Htl).
  assert (ts0 = ts) by (apply fresh_tokens_inj; congruence). subst ts0.
  unfold scan_step.
  destruct (char_eqb c TAB) eqn:Ec.
  - destruct (char_eqb (sc_ch st) TAB) eqn:El; cbn [negb].
    + destruct (sc_tabs st);
        (exists ts; cbn [sc_tokens sc_tstring];
         repeat split; assumption).
    + destruct Hcase as (Hp & Hne).
      exists (ts ++ [sc_tstring st]). cbn [sc_tokens sc_tstring].
      split; [rewrite Htok, fresh_tokens_app; reflexivity|].
      split; [apply Forall_app; split; [exact Hfree | constructor; [exact Hstr | constructor]]|].
      split; [reflexivity|].
      destruct ts as [|t0 ts']; [constructor|].
      rewrite tl_app_nonempty by discriminate.
      apply Forall_app. split; [exact Htl|]. constructor; [|constructor].
      destruct Hne as [Hne | Hnil]; [exact Hne|]. exfalso.
      rewrite Hnil in Hp. symmetry in Hp.
      destruct (@glue_nil_inv (t0 :: ts') (sc_tabs st) (sc_tstring st) Hlen Hpos Hp)
        as [Hbad _]. discriminate.
  - exists ts. cbn [sc_tokens sc_tstring].
    split; [exact Htok|]. split; [exact Hfree|]. split; [|exact Htl].
    rewrite tab_free_app, Hstr. unfold tab_free. simpl. rewrite Ec. reflexivity.
Qed.

Lemma scan_shape_fold (q p : text) (st : scan) :
  scan_inv p st -> scan_shape st -> scan_shape (scan_fold q st).
Proof.
  revert p st. induction q as [|c q IH]; intros p st Hinv Hsh.
  - exact Hsh.
  - rewrite scan_fold_cons. apply (IH (p ++ [c])).
    + apply scan_inv_step. exact Hinv.
    + apply (@scan_shape_step _ _ c Hinv Hsh).
Qed.

Lemma scan_shape_flush (p : text) (st : scan) :
  scan_inv p st -> scan_shape st ->
  exists ts, sc_tokens (scan_flush st) = fresh_tokens ts /\
             Forall (fun t => tab_free t = true) ts /\
             Forall (fun t => t <> []) (tl ts).
Proof.
  intros (ts0 & Htok0 & Hlen & Hpos & Hch & Hcase)
         (ts & Htok & Hfree & Hstr & Htl).
  unfold scan_flush.
  destruct (0 <? size (sc_tstring st)) eqn:E.
  - exists (ts ++ [sc_tstring st]). cbn [sc_tokens].
    split; [rewrite Htok, fresh_tokens_app; reflexivity|].
    split; [apply Forall_app; split; [exact Hfree | constructor; [exact Hstr | constructor]]|].
    destruct ts as [|t0 ts']; [constructor|].
    rewrite tl_app_nonempty by discriminate.
    apply Forall_app. split; [exact Htl|]. constructor; [|constructor].
    intros Hnil. rewrite Hnil in E. discriminate.
  - exists ts. repeat split; assumption.
Qed.

(** On a line whose length is an [int], having spines means: not empty
    and not starting with two exclamation marks. *)
Lemma hasSpines_general (s : text) :
  fits_int s -> hasSpines s = true ->
  s <> [] /\ text_eqb (substr s 0 2) (lit "!!") = false.
Proof.
  intros Hfit H. unfold hasSpines in H.
  destruct (isEmpty s) eqn:He; [discriminate|].
  destruct (isCommentGlobal s) eqn:Hg; [discriminate|].
  split.
  - intros ->. discriminate.
  - destruct s as [|a [|b r]]; [reflexivity | |].
    + unfold substr. simpl. rewrite andb_false_r. reflexivity.
    + unfold isCommentGlobal in Hg.
      rewrite !equalChar_inside in Hg
        by (try exact Hfit; unfold size; simpl List.length; lia).
      simpl in Hg. unfold substr. simpl. rewrite andb_true_r. exact Hg.
Qed.

Lemma isCommentGlobal_bang (s : text) :
  fits_int s -> isCommentGlobal s = text_eqb (substr s 0 2) (lit "!!").
Proof.
  intros Hfit. destruct s as [|a [|b r]].
  - reflexivity.
  - unfold isCommentGlobal, substr.
    replace (equalChar [a] 1 "!") with false by reflexivity.
    simpl. rewrite !andb_false_r. reflexivity.
  - unfold isCommentGlobal.
    rewrite !equalChar_inside
      by (try exact Hfit; unfold size; simpl List.length; lia).
    unfold substr. simpl. rewrite andb_true_r. reflexivity.
Qed.

(** The whole result of the tokenizer on a line with spines. *)
Lemma tokenize_spined (l : HumdrumLine) :
  fits_int (line_text l) -> hasSpines (line_text l) = true ->
  exists ts t bt k,
    m_tokens (createTokensFromLine l) = fresh_tokens (ts ++ [t]) /\
    m_tabs (createTokensFromLine l) = bt ++ [k] /\
    List.length bt = List.length ts /\
    Forall (fun k => 1 <= k) bt /\ 0 <= k /\
    line_text l = (glue ts bt ++ t) ++ repeat TAB (Z.to_nat k) /\
    last (glue ts bt ++ t) NUL <> TAB /\
    (t <> [] \/ 1 <= k) /\
    Forall (fun t => tab_free t = true) (ts ++ [t]) /\
    Forall (fun t => t <> []) (tl (ts ++ [t])).
Proof.
  intros Hfit Hsp.
  destruct (@hasSpines_general _ Hfit Hsp) as [Hne Hbang].
  unfold createTokensFromLine. cbn [with_tokens m_tokens m_tabs].
  rewrite (@scan_line_general (line_text l) Hfit Hne Hbang).
  pose proof (@scan_inv_fold (line_text l) [] scan_init scan_inv_init) as Hinv.
  cbn [app] in Hinv.
  pose proof (@scan_shape_fold (line_text l) [] scan_init scan_inv_init
                scan_shape_init) as Hsh.
  destruct (@scan_flush_result (line_text l) _ Hne Hinv)
    as (ts & t & bt & k & Htok & Htab & Hlen & Hpos & Hk & Hsplit & Hlast & Hlive).
  destruct (@scan_shape_flush _ _ Hinv Hsh) as (ts2 & Htok2 & Hfree & Htl).
  assert (ts2 = ts ++ [t]) by (apply fresh_tokens_inj; congruence). subst ts2.
  exists ts, t, bt, k. repeat split; assumption.
Qed.

Lemma strip_tabs_app_tabs (s1 : text) (k : nat) :
  last s1 NUL <> TAB -> strip_tabs (s1 ++ repeat TAB k) = s1.
Proof.
  induction s1 as [|c r IH]; intros Hlast.
  - simpl. induction k as [|k IHk]; [reflexivity|].
    simpl. rewrite IHk. reflexivity.
  - destruct r as [|c' r'].
    + pose proof (IH ltac:(simpl; discriminate)) as H0. cbn [app] in H0.
      cbn [app strip_tabs]. rewrite H0.
      simpl in Hlast. destruct (char_eqb c TAB) eqn:E; [|reflexivity].
      apply char_eqb_eq in E. congruence.
    + change ((c :: c' :: r') ++ repeat TAB k)
        with (c :: ((c' :: r') ++ repeat TAB k)).
      cbn [strip_tabs]. rewrite (IH Hlast). reflexivity.
Qed.

Lemma token_count_fits (s : text) (ts : list text) (t : text) (bt : list Z) (k : Z) :
  fits_int s ->
  List.length bt = List.length ts -> Forall (fun k => 1 <= k) bt ->
  s = (glue ts bt ++ t) ++ repeat TAB (Z.to_nat k) ->
  (t <> [] \/ 1 <= k) ->
  Z.of_nat (List.length (ts ++ [t])) <= INT_MAX.
Proof.
  intros Hfit Hlen Hpos Hsplit Hlive.
  pose proof (@glue_length ts bt Hlen Hpos) as Hg.
  assert (Hs : List.length s = (List.length (glue ts bt) + List.length t
                                + Z.to_nat k)%nat)
    by (rewrite Hsplit, !length_app, repeat_length; reflexivity).
  unfold fits_int, size in Hfit. rewrite length_app. simpl.
  assert (1 <= List.length t + Z.to_nat k)%nat
    by (destruct Hlive as [Ht | Hk1]; [destruct t; [congruence|simpl; lia] | lia]).
  lia.
Qed.

(** X1: the tokens and tab counts of a line with spines give the line
    back, character for character: every token pointer is valid, there
    are as many tab counts as tokens, and the line is its tokens, each
    followed by as many tabs as its count says. *)
Theorem tokenize_regenerates (l : HumdrumLine)
        (Hfit : fits_int (line_text l))
        (Hsp : hasSpines (line_text l) = true) :
  exists ts ks, ts <> [] /\ tokenized_as l ts ks.
Proof.
  destruct (tokenize_spined l Hfit Hsp)
    as (ts & t & bt & k & Htok & Htab & Hlen & _ & _ & Hsplit & _).
  exists (ts ++ [t]), (bt ++ [k]).
  split; [destruct ts; discriminate|].
  repeat split; try assumption.
  - rewrite !length_app. simpl. lia.
  - rewrite Hsplit, glue_app by exact Hlen. rewrite <- app_assoc. reflexivity.
Qed.

(** X2: on a line with spines no token contains a tab, only the first
    token can be empty, every tab count but the last is at least 1 and
    the last one, the number of tabs that end the line, is not
    negative. *)
Theorem token_shape (l : HumdrumLine)
        (Hfit : fits_int (line_text l))
        (Hsp : hasSpines (line_text l) = true) :
  exists ts,
    m_tokens (createTokensFromLine l) = fresh_tokens ts /\
    Forall (fun t => tab_free t = true) ts /\
    Forall (fun t => t <> []) (tl ts) /\
    Forall (fun k => 1 <= k) (removelast (m_tabs (createTokensFromLine l))) /\
    0 <= last (m_tabs (createTokensFromLine l)) 0.
Proof.
  destruct (tokenize_spined l Hfit Hsp)
    as (ts & t & bt & k & Htok & Htab & _ & Hpos & Hk & _ & _ & _ & Hfree & Htl).
  exists (ts ++ [t]). rewrite Htab, removelast_last, last_last.
  repeat split; assumption.
Qed.

(** The text written back from the tokens of a freshly tokenized
    line. *)
Lemma rebuilt_text (l : HumdrumLine) :
  fits_int (line_text l) ->
  exists l1,
    createLineFromTokens (createTokensFromLine l) = Some l1 /\
    line_text l1 = if isCommentGlobal (line_text l)
                   then c_str (line_text l)
                   else strip_tabs (line_text l).
Proof.
  intros Hfit. rewrite (@isCommentGlobal_bang _ Hfit).
  destruct (text_eqb (substr (line_text l) 0 2) (lit "!!")) eqn:Hbang.
  - destruct l as [s toks tabs d1 d2 d3 d4 g o]. cbn [line_text] in *.
    unfold substr in Hbang.
    destruct s as [|a [|b r]]; simpl in Hbang;
      [discriminate | rewrite andb_false_r in Hbang; discriminate |].
    rewrite !andb_true_iff in Hbang. destruct Hbang as (Ha & Hb' & _).
    apply char_eqb_eq in Ha, Hb'. subst a b.
    eexists. split; reflexivity.
  - destruct (line_text l) as [|c0 r0] eqn:Hs.
    + destruct l as [s toks tabs d1 d2 d3 d4 g o]. cbn [line_text] in *.
      subst s. eexists. split; reflexivity.
    + rewrite <- Hs in *.
      assert (Hsp : hasSpines (line_text l) = true).
      { unfold hasSpines. rewrite (@isCommentGlobal_bang _ Hfit), Hbang.
        unfold isEmpty, size. rewrite Hs. reflexivity. }
      destruct (tokenize_spined l Hfit Hsp)
        as (ts & t & bt & k & Htok & Htab & Hlen & Hpos & Hk & Hsplit & Hlast
            & Hlive & _).
      pose proof (@token_count_fits _ ts t bt k Hfit Hlen Hpos Hsplit Hlive) as Hcount.
      rewrite (@createLineFromTokens_fresh (createTokensFromLine l)
                 ts t bt k Htok Htab Hlen Hpos Hcount).
      eexists. split; [reflexivity|].
      cbn [with_text line_text].
      rewrite Hsplit. rewrite (@strip_tabs_app_tabs _ _ Hlast). reflexivity.
Qed.

(** X3: tokenizing a line and writing it back from its tokens gives the
    line without the tabs that end it; a global comment comes back as
    it is, up to its first NUL byte. *)
Theorem tokens_to_text_strips_trailing_tabs (l : HumdrumLine)
        (Hfit : fits_int (line_text l)) :
  exists l1,
    createLineFromTokens (createTokensFromLine l) = Some l1 /\
    line_text l1 = if isCommentGlobal (line_text l)
                   then c_str (line_text l)
                   else strip_tabs (line_text l).
Proof. exact (rebuilt_text l Hfit). Qed.

(** X4: a line that is not empty is tokenized into at least one token,
    all its token pointers are valid, and it has one tab count per
    token. *)
Theorem tokens_valid_unless_empty (l : HumdrumLine)
        (Hfit : fits_int (line_text l))
        (Hne : line_text l <> []) :
  exists toks,
    toks <> [] /\
    m_tokens (createTokensFromLine l) = valid_tokens toks /\
    List.length (m_tabs (createTokensFromLine l)) = List.length toks.
Proof.
  destruct (text_eqb (substr (line_text l) 0 2) (lit "!!")) eqn:Hbang.
  - exists [HumdrumToken_new (c_str (line_text l))].
    split; [discriminate|].
    unfold createTokensFromLine, scan_line. rewrite Hbang.
    destruct (size (line_text l) =? 0) eqn:E.
    + apply Z.eqb_eq in E. unfold size in E.
      destruct (line_text l); [congruence | simpl in E; lia].
    + split; reflexivity.
  - assert (Hsp : hasSpines (line_text l) = true).
    { unfold hasSpines. rewrite (@isCommentGlobal_bang _ Hfit), Hbang.
      destruct (isEmpty (line_text l)) eqn:E; [|reflexivity].
      apply isEmpty_nil in E. congruence. }
    destruct (tokenize_spined l Hfit Hsp)
      as (ts & t & bt & k & Htok & Htab & Hlen & _).
    exists (map HumdrumToken_new (ts ++ [t])).
    split; [destruct ts; discriminate|].
    split.
    + rewrite Htok. unfold fresh_tokens, valid_tokens. rewrite map_map.
      reflexivity.
    + rewrite Htab, length_map, !length_app. simpl. lia.
Qed.

(** *** Tokenizing a line put together from fields *)

Lemma scan_step_plain (c : ascii) (st : scan) :
  char_eqb c TAB = false ->
  scan_step c st = mkScan c (sc_tstring st ++ [c]) (sc_tokens st) (sc_tabs st).
Proof. intros H. unfold scan_step. rewrite H. reflexivity. Qed.

Lemma last_default (A : Type) (r : list A) (d1 d2 : A) :
  r <> [] -> last r d1 = last r d2.
Proof.
  induction r as [|x r IH]; intros H; [congruence|].
  destruct r as [|y r']; [reflexivity|].
  change (last (y :: r') d1 = last (y :: r') d2). apply IH. discriminate.
Qed.

Lemma last_cons_default (A : Type) (c : A) (r : list A) (d : A) :
  last (c :: r) d = last r c.
Proof.
  destruct r as [|y r']; [reflexivity|].
  change (last (y :: r') d = last (y :: r') c). apply last_default. discriminate.
Qed.

Lemma scan_fold_tab_free (t : text) (ch : ascii) (tstring : text)
      (toks : list HTp) (tabs : list Z) :
  tab_free t = true ->
  scan_fold t (mkScan ch tstring toks tabs)
  = mkScan (last t ch) (tstring ++ t) toks tabs.
Proof.
  revert ch tstring. induction t as [|c r IH]; intros ch tstring Hfree.
  - simpl. rewrite app_nil_r. reflexivity.
  - unfold tab_free in Hfree. simpl in Hfree.
    apply andb_true_iff in Hfree. destruct Hfree as [Hc Hr].
    apply negb_true_iff in Hc.
    rewrite scan_fold_cons, (@scan_step_plain c _ Hc).
    cbn [sc_tstring sc_tokens sc_tabs]. rewrite (IH c (tstring ++ [c]) Hr).
    rewrite <- app_assoc, last_cons_default. reflexivity.
Qed.

Lemma last_tab_free (t : text) (d : ascii) :
  tab_free t = true -> t <> [] -> char_eqb (last t d) TAB = false.
Proof.
  intros Hfree Hne.
  assert (Hin : In (last t d) t).
  { destruct (exists_last Hne) as (r & x & ->). rewrite last_last.
    apply in_or_app. right. left. reflexivity. }
  unfold tab_free in Hfree. rewrite forallb_forall in Hfree.
  apply negb_true_iff. apply Hfree. exact Hin.
Qed.

(** A field and the run of tabs after it make one token. *)
Lemma scan_fold_field (t : text) (k : Z) (ch : ascii)
      (toks : list HTp) (tabs : list Z) :
  tab_free t = true ->
  (t <> [] \/ char_eqb ch TAB = false) ->
  1 <= k ->
  scan_fold (t ++ repeat TAB (Z.to_nat k)) (mkScan ch [] toks tabs)
  = mkScan TAB [] (toks ++ [Some (HumdrumToken_new t)]) (tabs ++ [k]).
Proof.
  intros Hfree Hlive Hk.
  rewrite scan_fold_app, (@scan_fold_tab_free t _ _ _ _ Hfree). cbn [app].
  destruct (Z.to_nat k) as [|n] eqn:En; [lia|].
  cbn [repeat]. rewrite scan_fold_cons, scan_step_tab_first.
  - cbn [sc_tokens sc_tstring sc_tabs]. rewrite scan_fold_more_tabs.
    replace (1 + Z.of_nat n) with k by lia. reflexivity.
  - cbn [sc_ch]. destruct t as [|c r].
    + destruct Hlive as [H|H]; [congruence | exact H].
    + apply last_tab_free; [exact Hfree | discriminate].
Qed.

(** Fields that are not empty, each with its run of tabs. *)
Lemma scan_fold_fields (ts : list text) (ks : list Z) (ch : ascii)
      (toks : list HTp) (tabs : list Z) :
  List.length ks = List.length ts ->
  Forall (fun t => tab_free t = true) ts ->
  Forall (fun t => t <> []) ts ->
  Forall (fun k => 1 <= k) ks ->
  scan_fold (glue ts ks) (mkScan ch [] toks tabs)
  = mkScan (match ts with [] => ch | _ :: _ => TAB end) []
           (toks ++ fresh_tokens ts) (tabs ++ ks).
Proof.
  revert ks ch toks tabs.
  induction ts as [|t r IH]; intros [|k ks] ch toks tabs Hlen Hfree Hne Hpos;
    simpl in Hlen; try discriminate.
  - simpl. rewrite !app_nil_r. reflexivity.
  - apply Forall_cons_iff in Hfree, Hne, Hpos.
    destruct Hfree as [Hft Hfr]. destruct Hne as [Hnt Hnr].
    destruct Hpos as [Hk Hks].
    cbn [glue]. rewrite app_assoc, scan_fold_app.
    rewrite (@scan_fold_field t k ch toks tabs Hft (or_introl Hnt) Hk).
    rewrite (IH ks TAB _ _ ltac:(lia) Hfr Hnr Hks).
    cbn [fresh_tokens map]. rewrite <- !app_assoc. cbn [app].
    destruct r; reflexivity.
Qed.

(** The same when only the first field may be empty, from the start of
    the line. *)
Lemma scan_fold_line_fields (ts : list text) (ks : list Z) :
  List.length ks = List.length ts ->
  Forall (fun t => tab_free t = true) ts ->
  Forall (fun t => t <> []) (tl ts) ->
  Forall (fun k => 1 <= k) ks ->
  scan_fold (glue ts ks) scan_init
  = mkScan (match ts with [] => NUL | _ :: _ => TAB end) []
           (fresh_tokens ts) ks.
Proof.
  intros Hlen Hfree Hne Hpos.
  destruct ts as [|t r]; destruct ks as [|k ks]; simpl in Hlen;
    try discriminate; [reflexivity|].
  apply Forall_cons_iff in Hfree, Hpos.
  destruct Hfree as [Hft Hfr]. destruct Hpos as [Hk Hks].
  cbn [glue tl] in *. rewrite app_assoc, scan_fold_app. unfold scan_init.
  rewrite (@scan_fold_field t k NUL [] [] Hft (or_intror eq_refl) Hk).
  rewrite (@scan_fold_fields r ks TAB _ _ ltac:(lia) Hfr Hne Hks).
  destruct r; reflexivity.
Qed.

(** X5: the tokenizer inverts the joining of fields.  A line made of
    tab-free fields, of which only the first may be empty, each but the
    last followed by at least one tab, and ended by any number of tabs,
    is tokenized into these fields and these tab counts. *)
Theorem tokenize_joined_fields (l : HumdrumLine) (ts : list text) (t : text)
        (bt : list Z) (k : Z)
        (Hline : line_text l = (glue ts bt ++ t) ++ repeat TAB (Z.to_nat k))
        (Hfit : fits_int (line_text l))
        (Hsp : hasSpines (line_text l) = true)
        (Hlen : List.length bt = List.length ts)
        (Hpos : Forall (fun k => 1 <= k) bt)
        (Hk : 0 <= k)
        (Hfree : Forall (fun t => tab_free t = true) (ts ++ [t]))
        (Hne : Forall (fun t => t <> []) (tl (ts ++ [t])))
        (Hlive : t <> [] \/ 1 <= k) :
  m_tokens (createTokensFromLine l) = fresh_tokens (ts ++ [t]) /\
  m_tabs (createTokensFromLine l) = bt ++ [k].
Proof.
  destruct (@hasSpines_general _ Hfit Hsp) as [Hnil Hbang].
  unfold createTokensFromLine. cbn [with_tokens m_tokens m_tabs].
  rewrite (@scan_line_general (line_text l) Hfit Hnil Hbang), Hline.
  apply Forall_app in Hfree. destruct Hfree as [Hfts Hft].
  apply Forall_inv in Hft.
  assert (Hnts : Forall (fun t => t <> []) (tl ts)).
  { destruct ts as [|t0 r]; [constructor|].
    rewrite tl_app_nonempty in Hne by discriminate.
    apply Forall_app in Hne. apply Hne. }
  rewrite <- app_assoc, scan_fold_app.
  rewrite (@scan_fold_line_fields ts bt Hlen Hfts Hnts Hpos).
  assert (Hstart : t <> [] \/
                   char_eqb (match ts with [] => NUL | _ :: _ => TAB end) TAB
                   = false).
  { destruct ts as [|t0 r]; [right; reflexivity|].
    left. rewrite tl_app_nonempty in Hne by discriminate.
    apply Forall_app in Hne. destruct Hne as [_ Hl].
    apply Forall_inv in Hl. exact Hl. }
  destruct (Z.eq_dec k 0) as [-> | Hk0].
  - destruct Hlive as [Ht | Hbad]; [|lia].
    cbn [Z.to_nat repeat]. rewrite app_nil_r.
    rewrite (@scan_fold_tab_free t _ _ _ _ Hft). cbn [app].
    unfold scan_flush. cbn [sc_tstring sc_tokens sc_tabs sc_ch].
    assert (Hsz : (0 <? size t) = true)
      by (apply Z.ltb_lt; unfold size; destruct t; [congruence | simpl; lia]).
    rewrite Hsz. cbn [sc_tokens sc_tabs]. rewrite fresh_tokens_app.
    split; reflexivity.
  - rewrite scan_fold_field.
    + unfold scan_flush. cbn [sc_tstring sc_tokens sc_tabs size List.length].
      cbn. rewrite fresh_tokens_app. split; reflexivity.
    + exact Hft.
    + exact Hstart.
    + lia.
Qed.

(* ------------------------------------------------------------------ *)
(** ** The joining loop on valid token pointers *)

Lemma eff_width_nonzero (k : Z) : eff_width k <> 0.
Proof. unfold eff_width. destruct (Z.eqb_spec k 0); lia. Qed.

Lemma eff_width_idem (k : Z) : eff_width (eff_width k) = eff_width k.
Proof. unfold eff_width. destruct (Z.eqb_spec k 0); [reflexivity|].
  destruct (Z.eqb_spec k 0); [lia | reflexivity]. Qed.

Lemma eff_width_id (k : Z) : k <> 0 -> eff_width k = k.
Proof. unfold eff_width. destruct (Z.eqb_spec k 0); [lia | reflexivity]. Qed.

Lemma int_len_app1 (A : Type) (v : list A) (x : A) :
  Z.of_nat (List.length v) < INT_MAX ->
  int_len (v ++ [x]) = Z.of_nat (List.length v) + 1.
Proof.
  intros H. rewrite int_len_small; rewrite length_app; simpl; lia.
Qed.

(** The padding loop only appends ones, never beyond the number of
    tokens, and appends at least one when it starts below it. *)
Lemma pad_tabs_spec (fuel : nat) (n j : Z) (tabs : list Z) :
  0 <= j -> n <= INT_MAX -> Z.of_nat (List.length tabs) <= INT_MAX ->
  exists x,
    pad_tabs fuel n j tabs = tabs ++ repeat 1 x /\
    (Z.of_nat (List.length tabs + x) <= Z.max (Z.of_nat (List.length tabs)) n) /\
    ((0 < fuel)%nat -> j < n - Z.of_nat (List.length tabs) -> (1 <= x)%nat).
Proof.
  revert j tabs. induction fuel as [|f IH]; intros j tabs Hj Hn Hlen.
  - exists 0%nat. simpl. rewrite app_nil_r. repeat split; lia.
  - simpl. rewrite (int_len_small tabs Hlen).
    destruct (Z.ltb_spec j (n - Z.of_nat (List.length tabs))) as [Hlt|Hge].
    + destruct (IH (j + 1) (tabs ++ [1])) as (x & Hx & Hb & _);
        [lia | exact Hn | rewrite length_app; simpl; lia |].
      exists (S x). rewrite Hx, <- app_assoc. cbn [app repeat].
      rewrite length_app in Hb. simpl in Hb.
      repeat split; lia.
    + exists 0%nat. rewrite app_nil_r. repeat split; lia.
Qed.

Lemma vec_at_nat (A : Type) (v : list A) (i : nat) (x : A) :
  nth_error v i = Some x -> vec_at v (Z.of_nat i) = Some x.
Proof.
  intros H. unfold vec_at. rewrite Nat2Z.id.
  assert (i < List.length v)%nat by (apply nth_error_Some; congruence).
  rewrite range_check_true by lia. exact H.
Qed.

Lemma vec_set_nth_nat (v : list Z) (i j : nat) (x d : Z) :
  (i < List.length v)%nat ->
  nth j (vec_set v (Z.of_nat i) x) d = if Nat.eqb j i then x else nth j v d.
Proof.
  intros Hi. unfold vec_set. rewrite Nat2Z.id.
  assert (Hf : List.length (firstn i v) = i) by (rewrite length_firstn; lia).
  destruct (Nat.eqb_spec j i) as [->|Hne].
  - rewrite app_nth2 by lia. rewrite Hf, Nat.sub_diag. reflexivity.
  - destruct (Nat.ltb_spec j i).
    + rewrite app_nth1 by lia. rewrite nth_firstn.
      destruct (Nat.ltb_spec j i); [reflexivity|lia].
    + rewrite app_nth2 by lia. rewrite Hf.
      destruct (j - i)%nat as [|e] eqn:Ed; [lia|].
      cbn [nth]. rewrite nth_skipn. f_equal. lia.
Qed.

Lemma vec_set_length_nat (v : list Z) (i : nat) (x : Z) :
  (i < List.length v)%nat ->
  List.length (vec_set v (Z.of_nat i) x) = List.length v.
Proof. intros H. apply vec_set_length. lia. Qed.

Lemma nth_app_ones (C : list Z) (x j : nat) :
  nth j (C ++ repeat 1 x) 1 = nth j C 1.
Proof.
  destruct (Nat.ltb_spec j (List.length C)).
  - apply app_nth1. exact H.
  - rewrite app_nth2 by exact H. rewrite (nth_overflow C) by exact H.
    apply nth_repeat.
Qed.

Lemma nth_in_range_default (C : list Z) (j : nat) (d1 d2 : Z) :
  (j < List.length C)%nat -> nth j C d1 = nth j C d2.
Proof. intros H. apply nth_indep. exact H. Qed.

(** One iteration of the joining loop in front of a boundary. *)
Lemma join_step (f : nat) (toks : list HTp) (i : nat) (tok : HumdrumToken)
      (C : list Z) (acc : text) :
  nth_error toks i = Some (Some tok) ->
  (S i < List.length toks)%nat ->
  Z.of_nat (List.length toks) <= INT_MAX ->
  (i <= List.length C)%nat ->
  Z.of_nat (List.length C) <= INT_MAX ->
  exists C1,
    join_loop (S f) toks (Z.of_nat i) C acc
    = join_loop f toks (Z.of_nat (S i)) C1
                ((acc ++ tok_text tok) ++ repeat TAB (Z.to_nat (sep_width C i))) /\
    (S i <= List.length C1)%nat /\
    Z.of_nat (List.length C1) <= INT_MAX /\
    (forall j, j <> i -> nth j C1 1 = nth j C 1) /\
    (forall j, (j < i)%nat -> nth j C1 0 = nth j C 0) /\
    nth i C1 0 = sep_width C i /\
    ((i < List.length C)%nat -> nth i C 0 <> 0 -> C1 = C).
Proof.
  intros Htok Hi Hn HC HCmax.
  rewrite join_loop_S, (int_len_small toks Hn).
  destruct (Z.ltb_spec (Z.of_nat i) (Z.of_nat (List.length toks))); [|lia].
  rewrite (vec_at_nat _ _ Htok).
  destruct (Z.ltb_spec (Z.of_nat i) (Z.of_nat (List.length toks) - 1)); [|lia].
  rewrite (int_len_small C HCmax). cbv zeta.
  set (C0 := if Z.of_nat (List.length C) <=? Z.of_nat i
             then pad_tabs (List.length toks) (Z.of_nat (List.length toks)) 0 C
             else C).
  assert (HC0 : exists x, C0 = C ++ repeat 1 x /\
                          (i < List.length C + x)%nat /\
                          Z.of_nat (List.length C + x) <= INT_MAX /\
                          ((i < List.length C)%nat -> x = 0%nat)).
  { unfold C0. destruct (Z.leb_spec (Z.of_nat (List.length C)) (Z.of_nat i)).
    - destruct (@pad_tabs_spec (List.length toks) (Z.of_nat (List.length toks))
                  0 C ltac:(lia) Hn HCmax) as (x & Hx & Hb & Hone).
      exists x. split; [exact Hx|].
      specialize (Hone ltac:(lia) ltac:(lia)).
      repeat split; lia.
    - exists 0%nat. rewrite app_nil_r. repeat split; lia. }
  destruct HC0 as (x & HC0 & Hix & Hmax0 & Hx0). clearbody C0. subst C0.
  assert (Hlen0 : List.length (C ++ repeat 1 x) = (List.length C + x)%nat)
    by (rewrite length_app, repeat_length; reflexivity).
  assert (Hat : vec_at (C ++ repeat 1 x) (Z.of_nat i)
                = Some (nth i (C ++ repeat 1 x) 1)).
  { apply vec_at_nat. apply nth_error_nth'. lia. }
  rewrite Hat, nth_app_ones.
  set (k := nth i C 1).
  destruct (Z.eqb_spec k 0) as [Hk0 | Hk0].
  - assert (Hat2 : vec_at (vec_set (C ++ repeat 1 x) (Z.of_nat i) 1) (Z.of_nat i)
                   = Some 1).
    { apply vec_at_nat.
      rewrite (nth_error_nth' _ 0)
        by (rewrite vec_set_length_nat; lia).
      rewrite vec_set_nth_nat, Nat.eqb_refl by lia. reflexivity. }
    rewrite Hat2.
    exists (vec_set (C ++ repeat 1 x) (Z.of_nat i) 1).
    assert (Hsw : sep_width C i = 1)
      by (unfold sep_width, eff_width; fold k; rewrite Hk0; reflexivity).
    rewrite Hsw, Nat2Z.inj_succ, <- Z.add_1_r.
    split; [reflexivity|].
    rewrite vec_set_length_nat by lia.
    split; [lia|]. split; [lia|].
    split; [|split; [|split]].
    + intros j Hj. rewrite vec_set_nth_nat by lia.
      destruct (Nat.eqb_spec j i); [congruence|]. apply nth_app_ones.
    + intros j Hj. rewrite vec_set_nth_nat by lia.
      destruct (Nat.eqb_spec j i); [lia|]. apply app_nth1. lia.
    + rewrite vec_set_nth_nat, Nat.eqb_refl by lia. reflexivity.
    + intros Hin Hnz. exfalso. apply Hnz.
      rewrite (nth_in_range_default C 0 1 Hin). exact Hk0.
  - rewrite Hat, nth_app_ones. fold k.
    exists (C ++ repeat 1 x).
    assert (Hsw : sep_width C i = k)
      by (unfold sep_width; fold k; apply eff_width_id; exact Hk0).
    rewrite Hsw, Nat2Z.inj_succ, <- Z.add_1_r.
    split; [reflexivity|].
    split; [lia|]. split; [lia|].
    split; [|split; [|split]].
    + intros j Hj. apply nth_app_ones.
    + intros j Hj. apply app_nth1. lia.
    + rewrite (nth_in_range_default (C ++ repeat 1 x) 0 1) by lia.
      rewrite nth_app_ones. reflexivity.
    + intros Hin _. rewrite (Hx0 Hin). apply app_nil_r.
Qed.

Lemma join_texts_ext (ts : list text) (A B : list Z) (i : nat) :
  (forall j, (i <= j)%nat -> (S j < i + List.length ts)%nat ->
             sep_width A j = sep_width B j) ->
  join_texts ts A i = join_texts ts B i.
Proof.
  revert i. induction ts as [|t r IH]; intros i H; [reflexivity|].
  cbn [join_texts]. destruct r as [|t' r']; [reflexivity|].
  rewrite (H i) by (cbn [List.length]; lia).
  rewrite (IH (S i)); [reflexivity|].
  intros j Hj Hlt. apply H; cbn [List.length] in *; lia.
Qed.

Lemma join_texts_cons (t t' : text) (r : list text) (C : list Z) (i : nat) :
  join_texts (t :: t' :: r) C i
  = t ++ repeat TAB (Z.to_nat (sep_width C i)) ++ join_texts (t' :: r) C (S i).
Proof. reflexivity. Qed.

Lemma valid_tokens_nth (pre post : list HumdrumToken) (t : HumdrumToken) :
  nth_error (valid_tokens (pre ++ t :: post)) (List.length pre) = Some (Some t).
Proof.
  unfold valid_tokens. rewrite map_app. cbn [map].
  rewrite nth_error_app2 by (rewrite length_map; lia).
  rewrite length_map, Nat.sub_diag. reflexivity.
Qed.

(** The joining loop from token [i] on, all token pointers valid. *)
Lemma join_loop_run (post pre : list HumdrumToken) (C : list Z) (acc : text) :
  Z.of_nat (List.length (pre ++ post)) <= INT_MAX ->
  (List.length pre <= List.length C)%nat ->
  Z.of_nat (List.length C) <= INT_MAX ->
  exists C',
    join_loop (List.length post) (valid_tokens (pre ++ post))
              (Z.of_nat (List.length pre)) C acc
    = Some (C', acc ++ join_texts (map tok_text post) C (List.length pre)) /\
    (List.length pre + List.length post <= S (List.length C'))%nat /\
    Z.of_nat (List.length C') <= INT_MAX /\
    (forall j, (j < List.length pre)%nat -> nth j C' 0 = nth j C 0) /\
    (forall j, (List.length pre <= j)%nat ->
               (S j < List.length pre + List.length post)%nat ->
               nth j C' 0 = sep_width C j /\ (j < List.length C')%nat) /\
    ((List.length pre + List.length post <= S (List.length C))%nat ->
     (forall j, (List.length pre <= j)%nat ->
                (S j < List.length pre + List.length post)%nat ->
                nth j C 0 <> 0) ->
     C' = C).
Proof.
  revert pre C acc. induction post as [|t r IH]; intros pre C acc Hn HC HCmax.
  - exists C. simpl. rewrite app_nil_r.
    split; [reflexivity|]. split; [lia|]. split; [exact HCmax|].
    split; [intros; reflexivity|].
    split; [intros; lia | intros; reflexivity].
  - destruct r as [|t' r'].
    + (* the last token *)
      exists C. cbn [List.length map join_texts].
      assert (Hlen1 : List.length (valid_tokens (pre ++ [t]))
                      = (List.length pre + 1)%nat)
        by (unfold valid_tokens; rewrite length_map, length_app; reflexivity).
      rewrite length_app in Hn. cbn [List.length] in Hn.
      rewrite join_loop_S, int_len_small by (rewrite Hlen1; exact Hn).
      rewrite Hlen1.
      destruct (Z.ltb_spec (Z.of_nat (List.length pre))
                           (Z.of_nat (List.length pre + 1))); [|lia].
      rewrite (vec_at_nat _ _ (valid_tokens_nth pre [] t)).
      destruct (Z.ltb_spec (Z.of_nat (List.length pre))
                           (Z.of_nat (List.length pre + 1) - 1)); [lia|].
      cbn [join_loop].
      split; [reflexivity|]. split; [lia|]. split; [exact HCmax|].
      split; [intros; reflexivity|].
      split; [intros; lia | intros; reflexivity].
    + (* a token in front of a boundary *)
      assert (Hlen : List.length (valid_tokens (pre ++ t :: t' :: r'))
                     = (List.length pre + S (S (List.length r')))%nat)
        by (unfold valid_tokens; rewrite length_map, length_app; reflexivity).
      assert (Hn' : Z.of_nat (List.length (valid_tokens (pre ++ t :: t' :: r')))
                    <= INT_MAX)
        by (unfold valid_tokens; rewrite length_map; exact Hn).
      destruct (@join_step (List.length (t' :: r'))
                  (valid_tokens (pre ++ t :: t' :: r')) (List.length pre) t C acc
                  (valid_tokens_nth pre (t' :: r') t)
                  ltac:(rewrite Hlen; lia) Hn' HC HCmax)
        as (C1 & Hstep & Hl1 & Hmax1 & Hother & Hbelow & Hati & Hsame).
      change (List.length (t :: t' :: r')) with (S (List.length (t' :: r'))).
      rewrite Hstep.
      assert (Hn2 : Z.of_nat (List.length ((pre ++ [t]) ++ t' :: r')) <= INT_MAX)
        by (rewrite <- app_assoc; exact Hn).
      assert (HC2 : (List.length (pre ++ [t]) <= List.length C1)%nat)
        by (rewrite length_app; simpl; lia).
      destruct (IH (pre ++ [t]) C1
                   ((acc ++ tok_text t)
                      ++ repeat TAB (Z.to_nat (sep_width C (List.length pre))))
                   Hn2 HC2 Hmax1)
        as (C' & Hrun & Hl' & Hmax' & Hbelow' & Hat' & Hsame').
      rewrite <- app_assoc in Hrun. cbn [app] in Hrun.
      rewrite length_app in Hrun, Hl', Hbelow', Hat', Hsame'.
      cbn [List.length] in Hrun, Hl', Hbelow', Hat', Hsame'.
      replace (List.length pre + 1)%nat with (S (List.length pre))
        in Hrun, Hl', Hbelow', Hat', Hsame' by lia.
      exists C'. cbn [List.length]. rewrite Hrun.
      split.
      { f_equal. f_equal.
        change (map tok_text (t :: t' :: r'))
          with (tok_text t :: tok_text t' :: map tok_text r').
        rewrite join_texts_cons, <- !app_assoc. do 3 f_equal.
        apply join_texts_ext. intros j Hj _. unfold sep_width.
        rewrite Hother by lia. reflexivity. }
      split; [lia|]. split; [exact Hmax'|].
      split.
      { intros j Hj. rewrite Hbelow' by lia. apply Hbelow. exact Hj. }
      split.
      { intros j H1 H2.
        destruct (Nat.eq_dec j (List.length pre)) as [->|Hne].
        - rewrite Hbelow' by lia. split; [exact Hati | lia].
        - destruct (Hat' j ltac:(lia) ltac:(lia)) as [Hv Hin].
          split; [|exact Hin]. rewrite Hv. unfold sep_width.
          rewrite Hother by exact Hne. reflexivity. }
      { intros Hlong Hnz.
        assert (HC1 : C1 = C) by (apply Hsame; [lia | apply Hnz; lia]).
        subst C1. apply Hsame'; [lia|].
        intros j H1 H2. apply Hnz; lia. }
Qed.

Lemma drop_null_back_valid (toks : list HumdrumToken) :
  drop_null_back (valid_tokens toks) = valid_tokens toks.
Proof.
  destruct toks as [|t r]; [reflexivity|].
  destruct (@exists_last _ (t :: r) ltac:(discriminate)) as (r0 & x & Hx).
  rewrite Hx. unfold valid_tokens. rewrite map_app. cbn [map].
  unfold drop_null_back. rewrite last_last.
  destruct (map Some r0 ++ [Some x]); reflexivity.
Qed.

(** What createLineFromTokens does once the trailing [NULL] is dropped
    and every pointer left is valid. *)
Lemma createLineFromTokens_valid (l : HumdrumLine) (toks : list HumdrumToken) :
  drop_null_back (m_tokens l) = valid_tokens toks ->
  Z.of_nat (List.length toks) <= INT_MAX ->
  Z.of_nat (List.length (m_tabs l)) <= INT_MAX ->
  exists C',
    createLineFromTokens l
    = Some (with_text (with_tokens l (valid_tokens toks) C')
                      (join_texts (map tok_text toks) (m_tabs l) 0)) /\
    (List.length toks <= S (List.length C'))%nat /\
    Z.of_nat (List.length C') <= INT_MAX /\
    (forall j, (S j < List.length toks)%nat ->
               nth j C' 0 = sep_width (m_tabs l) j /\ (j < List.length C')%nat) /\
    ((List.length toks <= S (List.length (m_tabs l)))%nat ->
     (forall j, (S j < List.length toks)%nat -> nth j (m_tabs l) 0 <> 0) ->
     C' = m_tabs l).
Proof.
  intros Hv Hn HC. unfold createLineFromTokens. rewrite Hv.
  destruct (@join_loop_run toks [] (m_tabs l) [] Hn ltac:(simpl; lia) HC)
    as (C' & Hrun & Hl & Hmax & _ & Hat & Hsame).
  cbn [app List.length Z.of_nat] in *.
  unfold valid_tokens at 1. rewrite length_map, Hrun. cbn [fst snd].
  exists C'. split; [reflexivity|]. split; [exact Hl|]. split; [exact Hmax|].
  split.
  - intros j Hj. apply Hat; lia.
  - intros H1 H2. apply Hsame; [exact H1|]. intros j _ Hj. apply H2. exact Hj.
Qed.

(* ------------------------------------------------------------------ *)
(** ** Writing the line back *)

(** X6: createLineFromTokens never fails on a line whose token
    pointers, a trailing [NULL] aside, are valid: it writes the token
    texts in order, with after each token but the last as many tabs as
    its stored width says, one tab when that width is 0 or is missing
    from the tab vector, and it stores the width it used. *)
Theorem createLineFromTokens_joins (l : HumdrumLine) (toks : list HumdrumToken)
        (Hvalid : drop_null_back (m_tokens l) = valid_tokens toks)
        (Hcount : Z.of_nat (List.length toks) <= INT_MAX)
        (Htabs : Z.of_nat (List.length (m_tabs l)) <= INT_MAX) :
  exists l1,
    createLineFromTokens l = Some l1 /\
    line_text l1 = join_texts (map tok_text toks) (m_tabs l) 0 /\
    m_tokens l1 = valid_tokens toks /\
    forall j, (S j < List.length toks)%nat ->
              nth j (m_tabs l1) 0 = sep_width (m_tabs l) j.
Proof.
  destruct (@createLineFromTokens_valid l toks Hvalid Hcount Htabs)
    as (C' & Hrun & _ & _ & Hat & _).
  eexists. split; [exact Hrun|].
  split; [reflexivity|]. split; [reflexivity|].
  intros j Hj. apply Hat. exact Hj.
Qed.

Lemma join_texts_single (ts : list text) (C : list Z) (i : nat) :
  (forall j, sep_width C j = 1) -> join_texts ts C i = tab_join ts.
Proof.
  intros H. revert i. induction ts as [|t r IH]; intros i; [reflexivity|].
  cbn [join_texts tab_join]. destruct r as [|t' r']; [reflexivity|].
  rewrite H, (IH (S i)). reflexivity.
Qed.

Lemma sep_width_zeros (tabs : list Z) (j : nat) :
  sep_width (map (fun _ => 0) tabs) j = 1.
Proof.
  unfold sep_width. revert j. induction tabs as [|k r IH]; intros j.
  - destruct j; reflexivity.
  - destruct j as [|j]; [reflexivity|]. apply IH.
Qed.

(** X7: after removeExtraTabs, createLineFromTokens writes the tokens
    with exactly one tab between neighbours. *)
Theorem removeExtraTabs_single_tabs (l : HumdrumLine) (toks : list HumdrumToken)
        (Hvalid : drop_null_back (m_tokens l) = valid_tokens toks)
        (Hcount : Z.of_nat (List.length toks) <= INT_MAX)
        (Htabs : Z.of_nat (List.length (m_tabs l)) <= INT_MAX) :
  exists l1,
    createLineFromTokens (removeExtraTabs l) = Some l1 /\
    line_text l1 = tab_join (map tok_text toks).
Proof.
  assert (Htabs' : Z.of_nat (List.length (m_tabs (removeExtraTabs l))) <= INT_MAX)
    by (unfold removeExtraTabs; cbn [with_tokens m_tabs]; rewrite length_map;
        exact Htabs).
  destruct (@createLineFromTokens_valid (removeExtraTabs l) toks Hvalid Hcount Htabs')
    as (C' & Hrun & _).
  eexists. split; [exact Hrun|].
  cbn [with_text line_text]. apply join_texts_single.
  intros j. apply sep_width_zeros.
Qed.

(** X8: createLineFromTokens is idempotent: run on its own result it
    changes nothing. *)
Theorem createLineFromTokens_idempotent (l l1 : HumdrumLine)
        (toks : list HumdrumToken)
        (Hvalid : drop_null_back (m_tokens l) = valid_tokens toks)
        (Hcount : Z.of_nat (List.length toks) <= INT_MAX)
        (Htabs : Z.of_nat (List.length (m_tabs l)) <= INT_MAX)
        (Hrun : createLineFromTokens l = Some l1) :
  createLineFromTokens l1 = Some l1.
Proof.
  destruct (@createLineFromTokens_valid l toks Hvalid Hcount Htabs)
    as (C' & Hrun1 & Hl & Hmax & Hat & _).
  rewrite Hrun1 in Hrun. injection Hrun as <-.
  set (l1 := with_text (with_tokens l (valid_tokens toks) C')
                       (join_texts (map tok_text toks) (m_tabs l) 0)).
  assert (Hv1 : drop_null_back (m_tokens l1) = valid_tokens toks)
    by apply drop_null_back_valid.
  destruct (@createLineFromTokens_valid l1 toks Hv1 Hcount Hmax)
    as (C'' & Hrun2 & _ & _ & _ & Hsame).
  rewrite Hrun2.
  assert (HC : C'' = C').
  { apply Hsame; [exact Hl|]. intros j Hj.
    destruct (Hat j Hj) as [Hv _]. cbn [l1 with_text with_tokens m_tabs].
    rewrite Hv. apply eff_width_nonzero. }
  rewrite HC.
  assert (Htext : join_texts (map tok_text toks) (m_tabs l1) 0
                  = join_texts (map tok_text toks) (m_tabs l) 0).
  { apply join_texts_ext. intros j _ Hj. rewrite length_map in Hj.
    destruct (Hat j ltac:(lia)) as [Hv Hin].
    cbn [l1 with_text with_tokens m_tabs]. unfold sep_width at 1.
    rewrite (nth_indep C' 1 0 Hin), Hv. unfold sep_width.
    apply eff_width_idem. }
  rewrite Htext. reflexivity.
Qed.

(* ------------------------------------------------------------------ *)
(** ** Null pointers and appended tokens *)

Lemma valid_or_null (L : list HTp) :
  (exists toks, L = valid_tokens toks) \/
  (exists pre rest, L = valid_tokens pre ++ None :: rest).
Proof.
  induction L as [|p L IH].
  - left. exists []. reflexivity.
  - destruct p as [t|].
    + destruct IH as [(toks & ->) | (pre & rest & ->)].
      * left. exists (t :: toks). reflexivity.
      * right. exists (t :: pre), rest. reflexivity.
    + right. exists [], L. reflexivity.
Qed.

Lemma valid_tokens_no_null (toks : list HumdrumToken) :
  ~ In None (valid_tokens toks).
Proof.
  unfold valid_tokens. intros H. apply in_map_iff in H.
  destruct H as (x & Hx & _). discriminate.
Qed.

Lemma drop_null_back_length (L : list HTp) :
  (List.length (drop_null_back L) <= List.length L)%nat.
Proof.
  unfold drop_null_back. destruct L as [|p L]; [simpl; lia|].
  destruct (last (p :: L) None); [lia|].
  destruct (@exists_last _ (p :: L) ltac:(discriminate)) as (r & x & ->).
  rewrite removelast_last, length_app. simpl. lia.
Qed.

(** The joining loop reaches a [NULL] pointer that has only valid
    pointers in front of it. *)
Lemma join_loop_hits_null (pre done : list HumdrumToken) (rest : list HTp)
      (C : list Z) (acc : text) (fuel : nat) :
  (List.length pre < fuel)%nat ->
  Z.of_nat (List.length (valid_tokens (done ++ pre) ++ None :: rest)) <= INT_MAX ->
  (List.length done <= List.length C)%nat ->
  Z.of_nat (List.length C) <= INT_MAX ->
  join_loop fuel (valid_tokens (done ++ pre) ++ None :: rest)
            (Z.of_nat (List.length done)) C acc = None.
Proof.
  revert done C acc fuel.
  induction pre as [|t pre IH]; intros done C acc fuel Hfuel Hn HC HCmax.
  - destruct fuel as [|f]; [simpl in Hfuel; lia|].
    rewrite app_nil_r in *. rewrite join_loop_S, (int_len_small _ Hn).
    assert (Hlen : List.length (valid_tokens done ++ None :: rest)
                   = (List.length done + S (List.length rest))%nat)
      by (unfold valid_tokens; rewrite length_app, length_map; reflexivity).
    rewrite Hlen.
    destruct (Z.ltb_spec (Z.of_nat (List.length done))
                         (Z.of_nat (List.length done + S (List.length rest))));
      [|lia].
    assert (Hat : nth_error (valid_tokens done ++ None :: rest) (List.length done)
                  = Some None).
    { rewrite nth_error_app2 by (unfold valid_tokens; rewrite length_map; lia).
      unfold valid_tokens. rewrite length_map, Nat.sub_diag. reflexivity. }
    rewrite (vec_at_nat _ _ Hat). reflexivity.
  - destruct fuel as [|f]; [simpl in Hfuel; lia|].
    assert (Hlen : List.length (valid_tokens (done ++ t :: pre) ++ None :: rest)
                   = (List.length done + S (List.length pre)
                      + S (List.length rest))%nat)
      by (unfold valid_tokens; rewrite length_app, length_map, length_app;
          simpl; lia).
    assert (Hat : nth_error (valid_tokens (done ++ t :: pre) ++ None :: rest)
                            (List.length done) = Some (Some t)).
    { rewrite nth_error_app1
        by (unfold valid_tokens; rewrite length_map, length_app; simpl; lia).
      apply valid_tokens_nth. }
    destruct (@join_step f _ (List.length done) t C acc Hat
                ltac:(rewrite Hlen; lia) Hn HC HCmax)
      as (C1 & Hstep & Hl1 & Hmax1 & _).
    rewrite Hstep.
    replace (S (List.length done)) with (List.length (done ++ [t]))
      by (rewrite length_app; simpl; lia).
    replace (done ++ t :: pre) with ((done ++ [t]) ++ pre) in *
      by (rewrite <- app_assoc; reflexivity).
    apply IH.
    + simpl in Hfuel. lia.
    + exact Hn.
    + rewrite length_app. simpl. lia.
    + exact Hmax1.
Qed.

(** X9: createLineFromTokens fails by dereferencing [NULL] exactly when
    the token vector holds a [NULL] pointer that is not its last
    entry. *)
Theorem createLineFromTokens_fails_iff (l : HumdrumLine)
        (Hcount : Z.of_nat (List.length (m_tokens l)) <= INT_MAX)
        (Htabs : Z.of_nat (List.length (m_tabs l)) <= INT_MAX) :
  createLineFromTokens l = None <-> In None (drop_null_back (m_tokens l)).
Proof.
  pose proof (drop_null_back_length (m_tokens l)) as Hle.
  destruct (valid_or_null (drop_null_back (m_tokens l)))
    as [(toks & Hv) | (pre & rest & Hv)].
  - assert (Hn : Z.of_nat (List.length toks) <= INT_MAX).
    { rewrite Hv in Hle. unfold valid_tokens in Hle. rewrite length_map in Hle.
      lia. }
    destruct (@createLineFromTokens_valid l toks Hv Hn Htabs) as (C' & Hrun & _).
    rewrite Hrun, Hv. split; [discriminate|].
    intros H. exfalso. exact (valid_tokens_no_null toks H).
  - split; [intros _; rewrite Hv; apply in_or_app; right; left; reflexivity|].
    intros _. unfold createLineFromTokens. rewrite Hv.
    pose proof (@join_loop_hits_null pre [] rest (m_tabs l) []
                  (List.length (valid_tokens pre ++ None :: rest))) as H.
    cbn [app List.length Z.of_nat] in H. rewrite H.
    + reflexivity.
    + unfold valid_tokens. rewrite length_app, length_map. simpl. lia.
    + rewrite <- Hv. lia.
    + lia.
    + exact Htabs.
Qed.

(** *** Appending a token *)

Lemma join_texts_glue (ts : list text) (bt pre more : list Z) (rest : list text) :
  List.length bt = List.length ts ->
  Forall (fun k => 1 <= k) bt ->
  rest <> [] ->
  join_texts (ts ++ rest) (pre ++ bt ++ more) (List.length pre)
  = glue ts bt
      ++ join_texts rest (pre ++ bt ++ more) (List.length pre + List.length ts).
Proof.
  revert bt pre. induction ts as [|t r IH]; intros [|k bt] pre Hlen Hpos Hrest;
    simpl in Hlen; try discriminate.
  - cbn [app glue List.length]. rewrite Nat.add_0_r. reflexivity.
  - apply Forall_cons_iff in Hpos. destruct Hpos as [Hk Hpos].
    cbn [app glue].
    destruct (r ++ rest) as [|x xs] eqn:E;
      [destruct r; simpl in E; [congruence | discriminate]|].
    rewrite join_texts_cons.
    assert (Hw : sep_width (pre ++ k :: bt ++ more) (List.length pre) = k).
    { unfold sep_width. rewrite app_nth2, Nat.sub_diag by lia.
      cbn [nth]. apply eff_width_id. lia. }
    rewrite Hw.
    replace (pre ++ k :: bt ++ more) with ((pre ++ [k]) ++ bt ++ more)
      by (rewrite <- app_assoc; reflexivity).
    replace (S (List.length pre)) with (List.length (pre ++ [k]))
      by (rewrite length_app; simpl; lia).
    rewrite (IH bt (pre ++ [k]) ltac:(lia) Hpos Hrest).
    rewrite length_app. cbn [List.length].
    replace (List.length pre + 1 + List.length r)%nat
      with (List.length pre + S (List.length r))%nat by lia.
    rewrite <- !app_assoc. reflexivity.
Qed.

(** X10: appending a token to a freshly tokenized line with spines and
    writing the line back gives the old line, then the new token: the
    tabs that ended the old line separate them, and a single tab
    separates them when the old line ended in none.  The tab count
    given with the token is not written. *)
Theorem appendToken_text (l : HumdrumLine) (tok : HumdrumToken) (tabcount : Z)
        (Hfit : size (line_text l) < INT_MAX)
        (Hsp : hasSpines (line_text l) = true) :
  exists l1 k,
    createLineFromTokens
      (appendToken (createTokensFromLine l) (Some tok) tabcount) = Some l1 /\
    line_text l = strip_tabs (line_text l) ++ repeat TAB k /\
    line_text l1
    = strip_tabs (line_text l) ++ repeat TAB (Nat.max 1 k) ++ tok_text tok.
Proof.
  assert (Hfit' : fits_int (line_text l)) by (unfold fits_int; lia).
  destruct (tokenize_spined l Hfit' Hsp)
    as (ts & t & bt & k & Htok & Htab & Hlen & Hpos & Hk & Hsplit & Hlast
        & Hlive & _).
  set (l0 := appendToken (createTokensFromLine l) (Some tok) tabcount).
  assert (Hv : drop_null_back (m_tokens l0)
               = valid_tokens (map HumdrumToken_new (ts ++ [t]) ++ [tok])).
  { assert (Ht0 : m_tokens l0
                  = valid_tokens (map HumdrumToken_new (ts ++ [t]) ++ [tok])).
    { unfold l0, appendToken. cbn [with_tokens m_tokens]. rewrite Htok.
      unfold valid_tokens, fresh_tokens.
      rewrite (map_app Some), map_map. reflexivity. }
    rewrite Ht0. apply drop_null_back_valid. }
  assert (Hn : Z.of_nat (List.length (map HumdrumToken_new (ts ++ [t]) ++ [tok]))
               <= INT_MAX).
  { pose proof (@glue_length ts bt Hlen Hpos) as Hg.
    assert (Hs : List.length (line_text l)
                 = (List.length (glue ts bt) + List.length t + Z.to_nat k)%nat)
      by (rewrite Hsplit, !length_app, repeat_length; reflexivity).
    assert (1 <= List.length t + Z.to_nat k)%nat
      by (destruct Hlive as [Ht | Hk1];
          [destruct t; [congruence|simpl; lia] | lia]).
    unfold size in Hfit. rewrite length_app, length_map, length_app. simpl. lia. }
  assert (HC : Z.of_nat (List.length (m_tabs l0)) <= INT_MAX).
  { unfold l0, appendToken. cbn [with_tokens m_tabs].
    rewrite Htab, !length_app. simpl.
    rewrite length_app, length_map, length_app in Hn. simpl in Hn. lia. }
  destruct (@createLineFromTokens_valid l0 _ Hv Hn HC) as (C' & Hrun & _).
  eexists. exists (Z.to_nat k). split; [exact Hrun|].
  assert (Hstrip : strip_tabs (line_text l) = glue ts bt ++ t)
    by (rewrite Hsplit; apply strip_tabs_app_tabs; exact Hlast).
  rewrite Hstrip. split; [exact Hsplit|].
  cbn [with_text line_text].
  rewrite map_app, map_map. cbn [map tok_text HumdrumToken_new].
  rewrite map_id.
  unfold l0, appendToken. cbn [with_tokens m_tabs]. rewrite Htab.
  rewrite <- !app_assoc. cbn [app].
  pose proof (@join_texts_glue ts bt [] [k; tabcount] [t; tok_text tok] Hlen Hpos
                ltac:(discriminate)) as Hg.
  cbn [app List.length Nat.add] in Hg. rewrite Hg.
  rewrite join_texts_cons. cbn [join_texts].
  assert (Hw : Z.to_nat (sep_width (bt ++ [k; tabcount]) (List.length ts))
               = Nat.max 1 (Z.to_nat k)).
  { unfold sep_width. rewrite app_nth2, <- Hlen, Nat.sub_diag by lia.
    cbn [nth]. unfold eff_width. destruct (Z.eqb_spec k 0); lia. }
  rewrite Hw. reflexivity.
Qed.

(** X11: appending after the last position is appending at the end, on
    every line that has one tab count per token; a position beyond the
    end of either vector is undefined. *)
Theorem appendTokenAfter_last (l : HumdrumLine) (tok : HTp) (tabcount : Z)
        (Hsame : List.length (m_tabs l) = List.length (m_tokens l)) :
  appendTokenAfter l (Z.of_nat (List.length (m_tokens l)) - 1) tok tabcount
  = Some (appendToken l tok tabcount) /\
  forall index, Z.of_nat (List.length (m_tokens l)) <= index ->
                appendTokenAfter l index tok tabcount = None.
Proof.
  unfold appendTokenAfter, insertToken, appendToken. split.
  - replace (Z.of_nat (List.length (m_tokens l)) - 1 + 1)
      with (Z.of_nat (List.length (m_tokens l))) by lia.
    rewrite Hsame, Z.leb_refl, Nat2Z.id.
    replace (0 <=? Z.of_nat (List.length (m_tokens l))) with true
      by (symmetry; apply Z.leb_le; lia).
    cbn [andb]. rewrite <- Hsame at 3 4.
    rewrite !firstn_all, !skipn_all. reflexivity.
  - intros index Hi.
    replace (index + 1 <=? Z.of_nat (List.length (m_tokens l))) with false
      by (symmetry; apply Z.leb_gt; lia).
    rewrite andb_false_r. reflexivity.
Qed.

(* ------------------------------------------------------------------ *)
(** ** Keys and values of reference records *)

Lemma at_inside (s : text) (i : Z) :
  0 <= i < size s -> at_ s i = Some (nth (Z.to_nat i) s NUL).
Proof. intros H. unfold at_. rewrite range_check_true by exact H. reflexivity. Qed.

Lemma drop_spaces_length (q : text) :
  (List.length (drop_spaces q) <= List.length q)%nat.
Proof.
  induction q as [|c r IH]; simpl; [lia|].
  destruct (isspace c); simpl; lia.
Qed.

(** The loop that skips white space, on the part [q] of the line that
    lies between its start position and its bound. *)
Lemma skip_spaces_spec (q p rest : text) (fuel : nat) (index : Z) :
  (List.length q < fuel)%nat ->
  skip_spaces fuel (p ++ q ++ rest) (Z.of_nat (List.length p)) index
              (Z.of_nat (List.length (p ++ q)))
  = Some (index + Z.of_nat (List.length q - List.length (drop_spaces q))).
Proof.
  revert p fuel index. induction q as [|c r IH]; intros p fuel index Hfuel.
  - destruct fuel as [|f]; [simpl in Hfuel; lia|].
    simpl. rewrite app_nil_r.
    destruct (Z.ltb_spec (Z.of_nat (List.length p)) (Z.of_nat (List.length p)));
      [lia|]. f_equal. lia.
  - destruct fuel as [|f]; [simpl in Hfuel; lia|].
    cbn [skip_spaces].
    destruct (Z.ltb_spec (Z.of_nat (List.length p))
                         (Z.of_nat (List.length (p ++ c :: r))));
      [|rewrite length_app in *; simpl in *; lia].
    rewrite at_inside
      by (unfold size; rewrite !length_app; simpl; lia).
    rewrite Nat2Z.id, app_nth2, Nat.sub_diag by lia. cbn [app nth drop_spaces].
    destruct (isspace c) eqn:Ec.
    + replace (Z.of_nat (List.length p) + 1)
        with (Z.of_nat (List.length (p ++ [c])))
        by (rewrite length_app; simpl; lia).
      replace (p ++ c :: r ++ rest) with ((p ++ [c]) ++ r ++ rest)
        by (rewrite <- app_assoc; reflexivity).
      replace (p ++ c :: r) with ((p ++ [c]) ++ r)
        by (rewrite <- app_assoc; reflexivity).
      rewrite IH by (simpl in Hfuel; lia).
      pose proof (drop_spaces_length r). f_equal. cbn [List.length]. lia.
    + f_equal. cbn [List.length]. lia.
Qed.

Lemma skipn_drop_spaces (q : text) :
  skipn (List.length q - List.length (drop_spaces q)) q = drop_spaces q.
Proof.
  induction q as [|c r IH]; [reflexivity|].
  cbn [drop_spaces]. destruct (isspace c).
  - pose proof (drop_spaces_length r).
    replace (List.length (c :: r) - List.length (drop_spaces r))%nat
      with (S (List.length r - List.length (drop_spaces r)))
      by (cbn [List.length]; lia).
    cbn [skipn]. exact IH.
  - rewrite Nat.sub_diag. reflexivity.
Qed.

Lemma resize_pred (r : text) (x : ascii) :
  fits_int (r ++ [x]) ->
  resize (r ++ [x]) (int_size (r ++ [x]) - 1) = r.
Proof.
  intros Hfit. rewrite (int_size_fits Hfit). unfold resize, size.
  rewrite length_app. cbn [List.length].
  replace (Z.to_nat (Z.of_nat (List.length r + 1) - 1)) with (List.length r)
    by lia.
  rewrite firstn_app, Nat.sub_diag, firstn_all. cbn [firstn].
  replace (List.length r - (List.length r + 1))%nat with 0%nat by lia.
  cbn [repeat]. rewrite !app_nil_r. reflexivity.
Qed.

Lemma drop_spaces_end_snoc (r : text) (x : ascii) :
  drop_spaces_end (r ++ [x])
  = if isspace x then drop_spaces_end r else r ++ [x].
Proof.
  unfold drop_spaces_end. rewrite rev_app_distr. cbn [rev app drop_spaces].
  destruct (isspace x); [reflexivity|].
  cbn [rev]. rewrite rev_involutive. reflexivity.
Qed.

(** The loop with [break]: white space is cut from the end. *)
Lemma trim_tail_break_spec (out : text) (fuel : nat) :
  fits_int out -> (List.length out < fuel)%nat ->
  trim_tail_break fuel out (int_size out - 1) = Some (drop_spaces_end out).
Proof.
  revert fuel. induction out as [|x r IH] using rev_ind; intros fuel Hfit Hfuel.
  - destruct fuel; [simpl in Hfuel; lia|]. reflexivity.
  - destruct fuel as [|f]; [simpl in Hfuel; lia|].
    cbn [trim_tail_break]. rewrite (@resize_pred r x Hfit).
    rewrite (int_size_fits Hfit).
    assert (Hsz : size (r ++ [x]) = Z.of_nat (List.length r) + 1)
      by (unfold size; rewrite length_app; simpl; lia).
    rewrite Hsz.
    destruct (Z.geb_spec (Z.of_nat (List.length r) + 1 - 1) 0); [|lia].
    rewrite at_inside by lia.
    replace (Z.to_nat (Z.of_nat (List.length r) + 1 - 1)) with (List.length r)
      by lia.
    rewrite app_nth2, Nat.sub_diag by lia. cbn [nth].
    rewrite drop_spaces_end_snoc.
    destruct (isspace x); [|reflexivity].
    assert (Hfr : fits_int r) by (exact (@fits_int_prefix r [x] Hfit)).
    replace (Z.of_nat (List.length r) + 1 - 1 - 1) with (int_size r - 1)
      by (rewrite (int_size_fits Hfr); unfold size; lia).
    apply IH; [exact Hfr|]. rewrite length_app in Hfuel. simpl in Hfuel. lia.
Qed.

Lemma count_spaces_firstn_S (out : text) (j : nat) :
  (j < List.length out)%nat ->
  count_spaces (firstn (S j) out)
  = (count_spaces (firstn j out)
     + if isspace (nth j out NUL) then 1 else 0)%nat.
Proof.
  revert j. induction out as [|a r IH]; intros j Hj; [simpl in Hj; lia|].
  destruct j as [|j].
  - unfold count_spaces. cbn [firstn filter nth]. destruct (isspace a); reflexivity.
  - change (firstn (S (S j)) (a :: r)) with (a :: firstn (S j) r).
    change (firstn (S j) (a :: r)) with (a :: firstn j r).
    cbn [nth]. simpl in Hj. specialize (IH j ltac:(lia)).
    unfold count_spaces in *. cbn [filter].
    destruct (isspace a); cbn [List.length]; rewrite IH; lia.
Qed.

Lemma firstn_snoc_le (A : Type) (r : list A) (x : A) (n : nat) :
  (n <= List.length r)%nat -> firstn n (r ++ [x]) = firstn n r.
Proof.
  intros H. rewrite firstn_app.
  replace (n - List.length r)%nat with 0%nat by lia.
  cbn [firstn]. apply app_nil_r.
Qed.

(** The loop without [break]: every position is visited, and each
    white-space character found cuts one character from the end. *)
Lemma trim_tail_scan_spec (j : nat) :
  forall (out : text) (fuel : nat),
    fits_int out -> (j <= List.length out)%nat -> (j < fuel)%nat ->
    trim_tail_scan fuel out (Z.of_nat j - 1)
    = Some (firstn (List.length out - count_spaces (firstn j out)) out).
Proof.
  induction j as [|j IH]; intros out fuel Hfit Hj Hfuel.
  - destruct fuel as [|f]; [lia|]. cbn [trim_tail_scan].
    change (Z.of_nat 0 - 1 >=? 0) with false. cbv iota.
    cbn [firstn]. unfold count_spaces. cbn [filter List.length].
    rewrite Nat.sub_0_r, firstn_all. reflexivity.
  - destruct fuel as [|f]; [lia|]. cbn [trim_tail_scan].
    destruct (Z.geb_spec (Z.of_nat (S j) - 1) 0); [|lia].
    rewrite at_inside by (unfold size; lia).
    replace (Z.to_nat (Z.of_nat (S j) - 1)) with j by lia.
    rewrite (@count_spaces_firstn_S out j) by lia.
    replace (Z.of_nat (S j) - 1 - 1) with (Z.of_nat j - 1) by lia.
    destruct (isspace (nth j out NUL)) eqn:Ec.
    + destruct (@exists_last _ out) as (r & x & Hout);
        [intros ->; simpl in Hj; lia|].
      subst out. rewrite (@resize_pred r x Hfit).
      rewrite length_app in Hj. cbn [List.length] in Hj.
      rewrite (IH r f (@fits_int_prefix r [x] Hfit)) by lia.
      rewrite (@firstn_snoc_le _ r x j) by lia.
      rewrite length_app. cbn [List.length].
      replace (List.length r + 1 - (count_spaces (firstn j r) + 1))%nat
        with (List.length r - count_spaces (firstn j r))%nat by lia.
      rewrite firstn_snoc_le by lia. reflexivity.
    + rewrite (IH out f Hfit) by lia. rewrite Nat.add_0_r. reflexivity.
Qed.

Lemma trim_tail_scan_key_cut (out : text) :
  fits_int out ->
  trim_tail_scan (S (List.length out)) out (int_size out - 1)
  = Some (key_cut out).
Proof.
  intros Hfit. rewrite (int_size_fits Hfit). unfold size.
  rewrite (@trim_tail_scan_spec (List.length out) out _ Hfit) by lia.
  rewrite firstn_all. reflexivity.
Qed.

Lemma find_char_bound (c : ascii) (s : text) (l : nat) :
  find_char c s = Some l -> (l < List.length s)%nat.
Proof.
  revert l. induction s as [|x r IH]; intros l H; [discriminate|].
  simpl in H. destruct (char_eqb x c).
  - injection H as <-. simpl. lia.
  - destruct (find_char c r) as [k|]; [|discriminate].
    injection H as <-. specialize (IH k eq_refl). simpl. lia.
Qed.

Lemma fits_int_sub (s : text) (t : text) :
  fits_int s -> (List.length t <= List.length s)%nat -> fits_int t.
Proof. unfold fits_int, size. lia. Qed.

(** The shared tail of the value getters, without its loops. *)
Lemma reference_value_from_spec (s : text) (c : nat) :
  fits_int s -> find_char ":" s = Some c ->
  reference_value_from s = Some (trim_spaces (skipn (S c) s)).
Proof.
  intros Hfit Hc. unfold reference_value_from. rewrite Hc.
  pose proof (find_char_bound _ _ Hc) as Hlt.
  assert (Hci : to_int (Z.of_nat c) = Z.of_nat c).
  { apply to_int_small. unfold fits_int, size in Hfit. unfold INT_MAX in *. lia. }
  rewrite Hci, (int_size_fits Hfit).
  set (p := firstn (S c) s). set (q := skipn (S c) s).
  assert (Hs : s = p ++ q ++ []) by (rewrite app_nil_r; symmetry; apply firstn_skipn).
  assert (Hp : List.length p = S c) by (unfold p; rewrite length_firstn; lia).
  assert (Hq : (List.length q = List.length s - S c)%nat)
    by (unfold q; apply length_skipn).
  assert (Hskip : skip_spaces (S (List.length s)) s (Z.of_nat c + 1)
                              (Z.of_nat c + 1) (size s)
                  = Some (Z.of_nat c + 1
                          + Z.of_nat (List.length q - List.length (drop_spaces q)))).
  { pose proof (@skip_spaces_spec q p [] (S (List.length s)) (Z.of_nat c + 1)) as H.
    rewrite <- Hs in H. rewrite length_app, Hp in H.
    replace (Z.of_nat (S c)) with (Z.of_nat c + 1) in H by lia.
    replace (Z.of_nat (S c + List.length q)) with (size s) in H
      by (unfold size; lia).
    apply H. lia. }
  rewrite Hskip. cbn [bind].
  pose proof (drop_spaces_length q) as Hdl.
  unfold trim_spaces.
  destruct (Z.geb_spec
              (Z.of_nat c + 1
               + Z.of_nat (List.length q - List.length (drop_spaces q)))
              (size s)) as [Hge|Hlt2].
  - assert (Hz : List.length (drop_spaces q) = 0%nat) by (unfold size in Hge; lia).
    destruct (drop_spaces q); [reflexivity | discriminate].
  - assert (Hout : substr_from s
                     (Z.to_nat (Z.of_nat c + 1
                        + Z.of_nat (List.length q - List.length (drop_spaces q))))
                   = drop_spaces q).
    { unfold substr_from.
      replace (Z.to_nat (Z.of_nat c + 1
                 + Z.of_nat (List.length q - List.length (drop_spaces q))))
        with ((List.length q - List.length (drop_spaces q)) + S c)%nat by lia.
      rewrite <- skipn_skipn. fold q. apply skipn_drop_spaces. }
    rewrite Hout.
    assert (Hfo : fits_int (drop_spaces q)) by (apply (@fits_int_sub s _ Hfit); lia).
    apply trim_tail_break_spec; [exact Hfo | lia].
Qed.

(** The shared tail of the key getters, without its loops. *)
Lemma reference_key_from_spec (s : text) (m c : nat) :
  fits_int s -> find_char ":" s = Some c -> (m <= c)%nat ->
  reference_key_from s (Z.of_nat m)
  = Some (key_cut (drop_spaces (substr s m (c - m)))).
Proof.
  intros Hfit Hc Hm. unfold reference_key_from. rewrite Hc.
  pose proof (find_char_bound _ _ Hc) as Hlt.
  assert (Hci : to_int (Z.of_nat c) = Z.of_nat c).
  { apply to_int_small. unfold fits_int, size in Hfit. unfold INT_MAX in *. lia. }
  rewrite Hci. cbv zeta.
  set (p := firstn m s). set (q := substr s m (c - m)).
  set (rest := skipn c s).
  assert (Hp : List.length p = m) by (unfold p; rewrite length_firstn; lia).
  assert (Hq : List.length q = (c - m)%nat).
  { unfold q, substr. rewrite length_firstn, length_skipn. lia. }
  assert (Hqr : skipn m s = q ++ rest).
  { unfold q, rest, substr.
    replace c with ((c - m) + m)%nat at 2 by lia.
    rewrite <- skipn_skipn. symmetry. apply firstn_skipn. }
  assert (Hs : s = p ++ q ++ rest).
  { rewrite <- Hqr. symmetry. apply firstn_skipn. }
  assert (Hskip : skip_spaces (S (List.length s)) s (Z.of_nat m)
                              (Z.of_nat m) (Z.of_nat c)
                  = Some (Z.of_nat m
                          + Z.of_nat (List.length q - List.length (drop_spaces q)))).
  { pose proof (@skip_spaces_spec q p rest (S (List.length s)) (Z.of_nat m)) as H.
    rewrite <- Hs in H. rewrite length_app, Hp in H.
    replace (m + List.length q)%nat with c in H by lia.
    apply H. lia. }
  rewrite Hskip. cbn [bind].
  pose proof (drop_spaces_length q) as Hdl.
  destruct (Z.geb_spec
              (Z.of_nat m
               + Z.of_nat (List.length q - List.length (drop_spaces q)))
              (Z.of_nat c)) as [Hge|Hlt2].
  - assert (Hz : List.length (drop_spaces q) = 0%nat) by lia.
    destruct (drop_spaces q); [reflexivity | discriminate].
  - assert (Hout : substr s
                     (Z.to_nat (Z.of_nat m
                        + Z.of_nat (List.length q - List.length (drop_spaces q))))
                     (Z.to_nat (Z.of_nat c
                        - (Z.of_nat m
                           + Z.of_nat (List.length q
                                       - List.length (drop_spaces q)))))
                   = drop_spaces q).
    { unfold substr.
      replace (Z.to_nat (Z.of_nat m
                 + Z.of_nat (List.length q - List.length (drop_spaces q))))
        with ((List.length q - List.length (drop_spaces q)) + m)%nat by lia.
      replace (Z.to_nat (Z.of_nat c
                 - (Z.of_nat m
                    + Z.of_nat (List.length q - List.length (drop_spaces q)))))
        with (List.length (drop_spaces q)) by lia.
      rewrite <- skipn_skipn, Hqr, skipn_app.
      replace (List.length q - List.length (drop_spaces q) - List.length q)%nat
        with 0%nat by lia.
      cbn [skipn]. rewrite skipn_drop_spaces, firstn_app, Nat.sub_diag.
      cbn [firstn]. rewrite firstn_all, app_nil_r. reflexivity. }
    rewrite Hout.
    apply trim_tail_scan_key_cut. apply (@fits_int_sub s _ Hfit). lia.
Qed.

Lemma find_char_skip (c : ascii) (p q : text) :
  forallb (fun x => negb (char_eqb x c)) p = true ->
  find_char c (p ++ q)
  = match find_char c q with
    | Some k => Some (List.length p + k)%nat
    | None => None
    end.
Proof.
  intros H. induction p as [|x r IH]; simpl in *.
  - destruct (find_char c q); reflexivity.
  - apply andb_true_iff in H. destruct H as [Hx Hr].
    apply negb_true_iff in Hx. rewrite Hx, (IH Hr).
    destruct (find_char c q); reflexivity.
Qed.

Lemma at_3_inside (s : text) :
  4 <= size s -> at_ s 3 = Some (nth 3 s NUL).
Proof. intros H. apply at_inside. lia. Qed.

Lemma subscript_inside (s : text) (i : Z) :
  0 <= i < size s -> subscript s i = Some (nth (Z.to_nat i) s NUL).
Proof.
  intros Hi. unfold subscript.
  destruct (Z.leb_spec 0 i); [|lia].
  destruct (Z.leb_spec i (size s)); [reflexivity|lia].
Qed.

Lemma starts_universal (s : text) :
  starts_reference s = true -> char_eqb (nth 3 s NUL) "!" = true ->
  4 <= size s ->
  text_eqb (substr s 0 4) (lit "!!!!") = true.
Proof.
  intros Hst H3 H4. destruct (starts_reference_inv _ Hst) as (r & ->).
  apply char_eqb_eq in H3. cbn [nth] in H3.
  destruct r as [|a r]; [unfold size in H4; simpl in H4; lia|].
  cbn [nth] in H3. subst a. reflexivity.
Qed.

Lemma colon_after_marker (s : text) (c : nat) :
  starts_reference s = true -> find_char ":" s = Some c ->
  (marker_width s <= c)%nat.
Proof.
  intros Hst Hc. destruct (starts_reference_inv _ Hst) as (r & ->).
  unfold marker_width. cbn [nth]. simpl in Hc.
  destruct r as [|a r]; [discriminate|]. cbn [nth].
  cbn [find_char] in Hc.
  destruct (char_eqb a "!") eqn:Ha.
  - apply char_eqb_eq in Ha. subst a.
    change (char_eqb "!" ":") with false in Hc. cbv iota in Hc.
    destruct (find_char ":" r); [|discriminate]. injection Hc as <-. lia.
  - destruct (char_eqb a ":").
    + injection Hc as <-. lia.
    + destruct (find_char ":" r); [|discriminate]. injection Hc as <-. lia.
Qed.

Lemma getReferenceKey_global (s : text) :
  5 <= size s -> starts_reference s = true ->
  char_eqb (nth 3 s NUL) "!" = false ->
  getReferenceKey s = reference_key_from s 3.
Proof.
  intros H5 Hst H3. unfold getReferenceKey, getGlobalReferenceKey.
  fold (starts_reference s). rewrite Hst. cbn [negb].
  destruct (Z.ltb_spec (size s) 4); [lia|].
  destruct (Z.ltb_spec (size s) 5); [lia|].
  rewrite at_3_inside, subscript_inside by lia.
  cbn [bind]. change (Z.to_nat 3) with 3%nat.
  rewrite H3. reflexivity.
Qed.

Lemma getReferenceKey_universal (s : text) :
  6 <= size s -> starts_reference s = true ->
  char_eqb (nth 3 s NUL) "!" = true ->
  char_eqb (nth 4 s NUL) "!" = false ->
  getReferenceKey s = reference_key_from s 4.
Proof.
  intros H6 Hst H3 H4. unfold getReferenceKey, getUniversalReferenceKey.
  fold (starts_reference s). rewrite Hst. cbn [negb].
  destruct (Z.ltb_spec (size s) 4); [lia|].
  destruct (Z.ltb_spec (size s) 6); [lia|].
  rewrite at_3_inside, subscript_inside by lia.
  cbn [bind]. change (Z.to_nat 4) with 4%nat.
  rewrite H3, H4. cbn [negb].
  rewrite (starts_universal _ Hst H3) by lia. reflexivity.
Qed.

Lemma getReferenceValue_global (s : text) :
  6 <= size s -> starts_reference s = true ->
  char_eqb (nth 3 s NUL) "!" = false ->
  char_eqb (nth 4 s NUL) "!" = false ->
  getReferenceValue s = reference_value_from s.
Proof.
  intros H6 Hst H3 H4. unfold getReferenceValue, getGlobalReferenceValue.
  fold (starts_reference s). rewrite Hst. cbn [negb].
  destruct (Z.ltb_spec (size s) 4); [lia|].
  destruct (Z.ltb_spec (size s) 6); [lia|].
  rewrite at_3_inside, subscript_inside by lia.
  cbn [bind]. change (Z.to_nat 4) with 4%nat.
  rewrite H3, H4. reflexivity.
Qed.

Lemma firstn_length_app (A : Type) (a b : list A) :
  firstn (List.length a) (a ++ b) = a.
Proof. induction a as [|x r IH]; [reflexivity|]. simpl. f_equal. exact IH. Qed.

Lemma skipn_length_app (A : Type) (a b : list A) :
  skipn (List.length a) (a ++ b) = b.
Proof. induction a as [|x r IH]; [reflexivity|]. simpl. exact IH. Qed.

Lemma drop_spaces_run (ws value : text) :
  forallb isspace ws = true -> drop_spaces (ws ++ value) = drop_spaces value.
Proof.
  induction ws as [|c r IH]; intros H; [reflexivity|].
  simpl in H. apply andb_true_iff in H. destruct H as [Hc Hr].
  cbn [app drop_spaces]. rewrite Hc. exact (IH Hr).
Qed.

Lemma trim_spaces_plain (value : text) :
  plain_value value = true -> trim_spaces value = value.
Proof.
  unfold plain_value, trim_spaces. intros H.
  apply andb_true_iff in H. destruct H as [Hh Hl].
  apply negb_true_iff in Hh, Hl.
  assert (Hd : drop_spaces value = value).
  { destruct value as [|a r]; [reflexivity|]. cbn [nth] in Hh.
    cbn [drop_spaces]. rewrite Hh. reflexivity. }
  rewrite Hd.
  destruct value as [|a r]; [reflexivity|].
  destruct (@exists_last _ (a :: r)) as (r' & x & Hv); [discriminate|].
  rewrite Hv in Hl |- *. rewrite last_last in Hl.
  rewrite drop_spaces_end_snoc, Hl. reflexivity.
Qed.

(** X12: getReferenceValue on every line whose length fits an int: the
    result is the text after the first colon with the white space
    removed from both of its ends, provided the line starts with three
    exclamation marks, has at least six characters and has no
    exclamation mark at position 4; in every other case, and when the
    line has no colon, the result is the empty string.  The function
    never throws. *)
Theorem getReferenceValue_trims (s : text) :
  fits_int s ->
  getReferenceValue s
  = Some (if starts_reference s && (6 <=? size s)
             && negb (char_eqb (nth 4 s NUL) "!")
          then match find_char ":" s with
               | Some c => trim_spaces (skipn (S c) s)
               | None => []
               end
          else []).
Proof.
  intros Hfit. unfold getReferenceValue. fold (starts_reference s).
  destruct (Z.ltb_spec (size s) 4) as [H4|H4].
  - destruct (Z.leb_spec 6 (size s)); [lia|].
    rewrite andb_false_r. reflexivity.
  - destruct (starts_reference s) eqn:Hst; [|reflexivity].
    cbn [negb andb]. rewrite (at_3_inside _ H4). cbn [bind].
    assert (Hsub : forall i, 0 <= i < size s ->
                     subscript s i = Some (nth (Z.to_nat i) s NUL)).
    { intros i Hi. unfold subscript.
      destruct (Z.leb_spec 0 i); [|lia].
      destruct (Z.leb_spec i (size s)); [reflexivity|lia]. }
    assert (Htail : reference_value_from s
                    = Some match find_char ":" s with
                           | Some c => trim_spaces (skipn (S c) s)
                           | None => []
                           end).
    { destruct (find_char ":" s) as [c|] eqn:Hc.
      - apply (reference_value_from_spec Hfit Hc).
      - unfold reference_value_from. rewrite Hc. reflexivity. }
    destruct (char_eqb (nth 3 s NUL) "!") eqn:H3; cbn [negb].
    + unfold getUniversalReferenceValue.
      destruct (Z.ltb_spec (size s) 6) as [H6|H6];
        destruct (Z.leb_spec 6 (size s)); try lia; [reflexivity|].
      cbn [andb].
      assert (H44 : text_eqb (substr s 0 4) (lit "!!!!") = true).
      { destruct (starts_reference_inv _ Hst) as (r & ->).
        apply char_eqb_eq in H3. cbn [nth] in H3.
        destruct r as [|a r]; [unfold size in H6; simpl in H6; lia|].
        cbn [nth] in H3. subst a. reflexivity. }
      rewrite H44. cbn [negb]. rewrite (Hsub 4) by lia.
      cbn [bind]. change (Z.to_nat 4) with 4%nat.
      destruct (char_eqb (nth 4 s NUL) "!"); [reflexivity | exact Htail].
    + unfold getGlobalReferenceValue.
      destruct (Z.ltb_spec (size s) 6) as [H6|H6];
        destruct (Z.leb_spec 6 (size s)); try lia; [reflexivity|].
      cbn [andb]. fold (starts_reference s). rewrite Hst. cbn [negb].
      rewrite (Hsub 4) by lia.
      cbn [bind]. change (Z.to_nat 4) with 4%nat.
      destruct (char_eqb (nth 4 s NUL) "!"); [reflexivity | exact Htail].
Qed.

(** X13: getReferenceKey on every line whose length fits an int.  The key
    is read between the marker (three exclamation marks, or four when
    position 3 holds one) and the first colon: the white space in front
    of it is skipped, and then one character is cut from its end for
    every white-space character it contains, wherever that character
    stands, because the trimming loop has no break.  Lines that do not
    start with the marker, are too short, or have an exclamation mark
    right after the marker give the empty string, as do lines without
    a colon.  The function never throws. *)
Theorem getReferenceKey_cuts (s : text) :
  fits_int s ->
  getReferenceKey s
  = Some (if starts_reference s
             && (Z.of_nat (marker_width s) + 2 <=? size s)
             && negb (char_eqb (nth (marker_width s) s NUL) "!")
          then match find_char ":" s with
               | Some c =>
                   key_cut (drop_spaces
                              (substr s (marker_width s) (c - marker_width s)))
               | None => []
               end
          else []).
Proof.
  intros Hfit.
  destruct (starts_reference s) eqn:Hst.
  2:{ unfold getReferenceKey. fold (starts_reference s). rewrite Hst.
      cbn [negb andb]. destruct (size s <? 4); reflexivity. }
  cbn [andb].
  assert (Htail : forall m, (m <= marker_width s)%nat ->
            m = marker_width s ->
            reference_key_from s (Z.of_nat m)
            = Some match find_char ":" s with
                   | Some c =>
                       key_cut (drop_spaces
                                  (substr s (marker_width s)
                                          (c - marker_width s)))
                   | None => []
                   end).
  { intros m _ ->. destruct (find_char ":" s) as [c|] eqn:Hc.
    - apply (reference_key_from_spec Hfit Hc).
      exact (colon_after_marker _ Hst Hc).
    - unfold reference_key_from. rewrite Hc. reflexivity. }
  unfold marker_width in *.
  destruct (char_eqb (nth 3 s NUL) "!") eqn:H3.
  - destruct (Z.leb_spec (Z.of_nat 4 + 2) (size s)) as [H6|H6].
    + cbn [andb]. destruct (char_eqb (nth 4 s NUL) "!") eqn:H4; cbn [negb].
      * unfold getReferenceKey, getUniversalReferenceKey.
        fold (starts_reference s). rewrite Hst. cbn [negb].
        destruct (Z.ltb_spec (size s) 4); [lia|].
        destruct (Z.ltb_spec (size s) 6); [lia|].
        rewrite at_3_inside, subscript_inside by lia.
        cbn [bind]. change (Z.to_nat 4) with 4%nat.
        rewrite H3, H4. cbn [negb].
        rewrite (starts_universal _ Hst H3) by lia. reflexivity.
      * rewrite (getReferenceKey_universal s) by (assumption || lia).
        apply (Htail 4%nat); [lia | reflexivity].
    + cbn [andb]. unfold getReferenceKey, getUniversalReferenceKey.
      fold (starts_reference s). rewrite Hst. cbn [negb].
      destruct (Z.ltb_spec (size s) 4); [reflexivity|].
      rewrite at_3_inside by lia. cbn [bind]. rewrite H3.
      cbn [negb]. destruct (Z.ltb_spec (size s) 6); [reflexivity|lia].
  - destruct (Z.leb_spec (Z.of_nat 3 + 2) (size s)) as [H5|H5].
    + cbn [andb]. rewrite H3. cbn [negb].
      rewrite (getReferenceKey_global s) by (assumption || lia).
      apply (Htail 3%nat); [lia | reflexivity].
    + cbn [andb]. unfold getReferenceKey, getGlobalReferenceKey.
      fold (starts_reference s). rewrite Hst. cbn [negb].
      destruct (Z.ltb_spec (size s) 4); [reflexivity|].
      rewrite at_3_inside by lia. cbn [bind]. rewrite H3.
      cbn [negb]. destruct (Z.ltb_spec (size s) 5); [reflexivity|lia].
Qed.

(** X14: a reference record written as three exclamation marks, a key, a
    colon, any white space and a value is read back as it was written:
    isReference holds, getReferenceKey returns the key and
    getReferenceValue the value.  The key must be non-empty, free of
    white space and colons, and must not have an exclamation mark in
    its first two places (the value getter tests position 4 of the
    line); the value must not begin or end with white space. *)
Theorem reference_record_round_trip (key ws value : text) :
  fits_int (reference_record key ws value) ->
  plain_key key = true ->
  forallb isspace ws = true ->
  plain_value value = true ->
  isReference (reference_record key ws value) = Some true /\
  getReferenceKey (reference_record key ws value) = Some key /\
  getReferenceValue (reference_record key ws value) = Some value.
Proof.
  intros Hfit Hkey Hws Hval. unfold plain_key in Hkey.
  apply andb_true_iff in Hkey. destruct Hkey as [Hkey Hk1].
  apply andb_true_iff in Hkey. destruct Hkey as [Hkey Hk0].
  apply andb_true_iff in Hkey. destruct Hkey as [Hne Hall].
  destruct key as [|k0 kr]; [discriminate|]. clear Hne.
  cbn [nth] in Hk0, Hk1. apply negb_true_iff in Hk0.
  apply negb_true_iff in Hk1.
  set (s := reference_record (k0 :: kr) ws value) in *.
  assert (Hs : s = (lit "!!!" ++ k0 :: kr) ++ ":"%char :: ws ++ value).
  { unfold s, reference_record. rewrite <- app_assoc. reflexivity. }
  assert (Hst : starts_reference s = true) by reflexivity.
  assert (Hsz : size s = 5 + Z.of_nat (List.length kr)
                         + Z.of_nat (List.length (ws ++ value))).
  { rewrite Hs. unfold size. rewrite length_app. cbn [List.length lit].
    simpl List.length. lia. }
  assert (H3 : char_eqb (nth 3 s NUL) "!" = false) by exact Hk0.
  assert (Hnocolon : forallb (fun x => negb (char_eqb x ":"))
                             (lit "!!!" ++ k0 :: kr) = true).
  { rewrite forallb_app. apply andb_true_iff. split; [reflexivity|].
    apply forallb_forall. intros x Hx.
    rewrite forallb_forall in Hall. specialize (Hall x Hx).
    apply andb_true_iff in Hall. tauto. }
  assert (Hnoblank : forall b, isspace b = true ->
            forallb (fun x => negb (char_eqb x b))
                    (lit "!!!" ++ k0 :: kr) = true).
  { intros b Hb. apply forallb_forall. intros x Hx.
    apply negb_true_iff. destruct (char_eqb x b) eqn:E; [|reflexivity].
    apply char_eqb_eq in E. subst x.
    apply in_app_or in Hx. destruct Hx as [Hx|Hx].
    - simpl in Hx. destruct Hx as [<-|[<-|[<-|[]]]]; discriminate Hb.
    - rewrite forallb_forall in Hall. specialize (Hall b Hx).
      rewrite Hb in Hall. discriminate. }
  assert (Hc : find_char ":" s = Some (3 + List.length (k0 :: kr))%nat).
  { rewrite Hs, (@find_char_skip _ _ _ Hnocolon). cbn [find_char].
    change (char_eqb ":" ":") with true. cbv iota.
    rewrite length_app. simpl List.length. f_equal. lia. }
  assert (Hfound : forall b, isspace b = true ->
            found_before (find_char b s)
                         (3 + List.length (k0 :: kr)) = false).
  { intros b Hb. rewrite Hs, (@find_char_skip _ _ _ (Hnoblank b Hb)).
    destruct (find_char b (":"%char :: ws ++ value)) as [k|]; [|reflexivity].
    unfold found_before. apply Nat.ltb_ge. rewrite length_app.
    simpl List.length. lia. }
  split; [|split].
  - unfold isReference, isGlobalReference. fold (starts_reference s).
    rewrite Hst. cbn [negb].
    destruct (Z.ltb_spec (size s) 5); [lia|].
    rewrite at_3_inside by lia. rewrite H3, Hc.
    rewrite (Hfound " "%char eq_refl), (Hfound TAB eq_refl). reflexivity.
  - rewrite (getReferenceKey_global s) by (assumption || lia).
    change 3 with (Z.of_nat 3).
    rewrite (@reference_key_from_spec s 3 _ Hfit Hc) by lia.
    assert (Hsub : substr s 3 (3 + List.length (k0 :: kr) - 3) = k0 :: kr).
    { unfold substr. rewrite Hs.
      replace (3 + List.length (k0 :: kr) - 3)%nat
        with (List.length (k0 :: kr)) by lia.
      change (skipn 3 ((lit "!!!" ++ k0 :: kr) ++ ":"%char :: ws ++ value))
        with ((k0 :: kr) ++ ":"%char :: ws ++ value).
      apply firstn_length_app. }
    rewrite Hsub.
    assert (Hk0s : isspace k0 = false).
    { cbn [forallb] in Hall. apply andb_true_iff in Hall.
      destruct Hall as [Hall _]. apply andb_true_iff in Hall.
      destruct Hall as [Hall _]. apply negb_true_iff in Hall. exact Hall. }
    cbn [drop_spaces]. rewrite Hk0s.
    unfold key_cut, count_spaces.
    assert (Hnone : filter isspace (k0 :: kr) = []).
    { clear -Hall. induction (k0 :: kr) as [|x r IH]; [reflexivity|].
      cbn [forallb] in Hall. apply andb_true_iff in Hall.
      destruct Hall as [Hx Hr]. apply andb_true_iff in Hx.
      destruct Hx as [Hx _]. apply negb_true_iff in Hx.
      cbn [filter]. rewrite Hx. exact (IH Hr). }
    rewrite Hnone. change (List.length (@nil ascii)) with 0%nat.
    rewrite Nat.sub_0_r, firstn_all. reflexivity.
  - assert (Hskip : skipn (S (3 + List.length (k0 :: kr))) s = ws ++ value).
    { rewrite Hs.
      replace (S (3 + List.length (k0 :: kr)))
        with (List.length ((lit "!!!" ++ k0 :: kr) ++ [":"%char]))
        by (rewrite !length_app; simpl List.length; lia).
      replace ((lit "!!!" ++ k0 :: kr) ++ ":"%char :: ws ++ value)
        with (((lit "!!!" ++ k0 :: kr) ++ [":"%char]) ++ ws ++ value)
        by (rewrite <- app_assoc; reflexivity).
      apply skipn_length_app. }
    assert (Htrim : trim_spaces (ws ++ value) = value).
    { unfold trim_spaces. rewrite (@drop_spaces_run ws value Hws).
      exact (@trim_spaces_plain value Hval). }
    destruct (Z.ltb_spec (size s) 6) as [H6|H6].
    + assert (Hnil : ws ++ value = []).
      { destruct (ws ++ value); [reflexivity|].
        cbn [List.length] in Hsz. lia. }
      apply app_eq_nil in Hnil. destruct Hnil as [_ ->].
      unfold getReferenceValue, getGlobalReferenceValue.
      fold (starts_reference s). rewrite Hst. cbn [negb].
      destruct (Z.ltb_spec (size s) 4); [lia|].
      rewrite at_3_inside by lia. cbn [bind]. rewrite H3.
      cbn [negb]. destruct (Z.ltb_spec (size s) 6); [reflexivity|lia].
    + assert (H4 : char_eqb (nth 4 s NUL) "!" = false).
      { rewrite Hs. cbn [lit app nth]. simpl.
        destruct kr as [|k1 kr']; [reflexivity|]. exact Hk1. }
      rewrite (getReferenceValue_global s) by (assumption || lia).
      rewrite (@reference_value_from_spec s _ Hfit Hc), Hskip, Htrim.
      reflexivity.
Qed.

(** X15: the two kinds of reference record exclude each other, and both
    are global comments: a line that isGlobalReference accepts is
    rejected by isUniversalReference and is not a universal comment; a
    line that isUniversalReference accepts is rejected by
    isGlobalReference and is a universal comment; in both cases
    isCommentGlobal holds and the line has no spines. *)
Theorem reference_kinds_exclusive (s : text) :
  fits_int s ->
  (isGlobalReference s = Some true ->
   isUniversalReference s = Some false /\ isCommentUniversal s = false /\
   isCommentGlobal s = true /\ hasSpines s = false) /\
  (isUniversalReference s = Some true ->
   isGlobalReference s = Some false /\ isCommentUniversal s = true /\
   isCommentGlobal s = true /\ hasSpines s = false).
Proof.
  intros Hfit.
  assert (Hcg : starts_reference s = true ->
                isCommentGlobal s = true /\ hasSpines s = false).
  { intros Hst. destruct (starts_reference_inv _ Hst) as (r & Hs).
    assert (Hg : isCommentGlobal s = true).
    { rewrite (isCommentGlobal_bang Hfit), Hs. reflexivity. }
    split; [exact Hg|]. unfold hasSpines. rewrite Hg, orb_true_r. reflexivity. }
  split.
  - intros H. unfold isGlobalReference in H.
    destruct (Z.ltb_spec (size s) 5) as [H5|H5]; [discriminate|].
    fold (starts_reference s) in H.
    destruct (starts_reference s) eqn:Hst; [|discriminate].
    cbn [negb] in H. rewrite at_3_inside in H by lia.
    destruct (char_eqb (nth 3 s NUL) "!") eqn:H3; [discriminate|]. clear H.
    destruct (Hcg eq_refl) as [Hg Hsp].
    split; [|split; [|split; assumption]].
    + unfold isUniversalReference.
      destruct (Z.ltb_spec (size s) 5); [lia|].
      destruct (starts_reference_inv _ Hst) as (r & Hs). subst s.
      destruct r as [|a r]; [unfold size in H5; simpl in H5; lia|].
      cbn [nth] in H3. unfold substr. cbn [skipn firstn lit text_eqb].
      simpl. rewrite H3. reflexivity.
    + unfold isCommentUniversal.
      rewrite (@equalChar_inside s 3 "!" Hfit) by lia.
      change (Z.to_nat 3) with 3%nat. rewrite H3. reflexivity.
  - intros H. unfold isUniversalReference in H.
    destruct (Z.ltb_spec (size s) 5) as [H5|H5]; [discriminate|].
    destruct (text_eqb (substr s 0 4) (lit "!!!!")) eqn:H44; [|discriminate].
    clear H.
    assert (Hs : exists r, s = lit "!!!!" ++ r).
    { unfold substr in H44. cbn [skipn] in H44.
      destruct s as [|a [|b [|c [|d r]]]]; simpl in H44;
        try discriminate H44;
        try (rewrite ?andb_false_r in H44; discriminate H44).
      apply andb_true_iff in H44. destruct H44 as [Ea H44].
      apply andb_true_iff in H44. destruct H44 as [Eb H44].
      apply andb_true_iff in H44. destruct H44 as [Ec H44].
      apply andb_true_iff in H44. destruct H44 as [Ed _].
      apply char_eqb_eq in Ea, Eb, Ec, Ed. subst. exists r. reflexivity. }
    destruct Hs as (r & Hs).
    assert (Hst : starts_reference s = true) by (rewrite Hs; reflexivity).
    destruct (Hcg Hst) as [Hg Hsp].
    assert (H3 : nth 3 s NUL = "!"%char) by (rewrite Hs; reflexivity).
    split; [|split; [|split; assumption]].
    + unfold isGlobalReference. fold (starts_reference s). rewrite Hst.
      destruct (Z.ltb_spec (size s) 5); [lia|]. cbn [negb].
      rewrite at_3_inside by lia. rewrite H3. reflexivity.
    + unfold isCommentUniversal.
      rewrite !(@equalChar_inside s _ "!" Hfit) by lia.
      rewrite Hs. reflexivity.
Qed.

(* ------------------------------------------------------------------ *)
(** ** Cleared lines, cached tokens, lines without owner *)

Lemma createTokensFromLine_nonempty (l : HumdrumLine) :
  fits_int (line_text l) -> m_tokens (createTokensFromLine l) <> [].
Proof.
  intros Hfit.
  destruct (hasSpines (line_text l)) eqn:Hsp.
  - destruct (@tokenize_spined l Hfit Hsp) as (ts & t & bt & k & Htok & _).
    rewrite Htok. unfold fresh_tokens. destruct ts; discriminate.
  - unfold createTokensFromLine, scan_line. cbn [with_tokens m_tokens].
    destruct (size (line_text l) =? 0) eqn:E; [discriminate|].
    unfold hasSpines in Hsp. unfold isEmpty in Hsp. rewrite E in Hsp.
    cbn [orb] in Hsp.
    destruct (isCommentGlobal (line_text l)) eqn:Hg; [|discriminate].
    rewrite (@isCommentGlobal_bang _ Hfit) in Hg. rewrite Hg. discriminate.
Qed.

(** X16: getTokens tokenizes the text only when the line has no tokens
    yet.  On a line whose length fits an int the list it returns is
    never empty, and a second call returns the same list and leaves the
    line as the first call left it; a line that already has tokens is
    returned as it is, whatever its text says. *)
Theorem getTokens_cached (l : HumdrumLine) :
  fits_int (line_text l) ->
  fst (getTokens l) <> [] /\
  getTokens (snd (getTokens l)) = getTokens l /\
  (m_tokens l <> [] -> getTokens l = (m_tokens l, l)).
Proof.
  intros Hfit. unfold getTokens.
  destruct (m_tokens l) as [|p r] eqn:Ht.
  - cbn [List.length Nat.eqb fst snd].
    pose proof (@createTokensFromLine_nonempty l Hfit) as Hne.
    split; [exact Hne|]. split; [|congruence].
    destruct (m_tokens (createTokensFromLine l)) as [|q r'] eqn:Hq;
      [congruence|].
    cbn [List.length Nat.eqb]. rewrite Hq. reflexivity.
  - cbn [List.length Nat.eqb fst snd]. rewrite Ht.
    cbn [List.length Nat.eqb].
    split; [rewrite ?Ht; discriminate|].
    split; [|intros _]; rewrite ?Ht; reflexivity.
Qed.

(** X17: clear keeps the text and the four durations, empties both
    vectors and unsets the gate.  The next getTokens therefore
    tokenizes the text again, whereas createLineFromTokens called on
    the cleared line erases the text. *)
Theorem clear_resets_line (l : HumdrumLine) :
  fst (getTokens (clear l)) = m_tokens (createTokensFromLine l) /\
  m_tabs (snd (getTokens (clear l))) = m_tabs (createTokensFromLine l) /\
  line_text (snd (getTokens (clear l))) = line_text l /\
  m_rhythm_analyzed (snd (getTokens (clear l))) = false /\
  createLineFromTokens (clear l) = Some (with_text (clear l) []).
Proof. repeat split. Qed.

(** X18: setDuration never stores a negative duration: a non-negative
    argument is stored as it is, any negative one is replaced by 0, so
    the mark -1 that the constructors put there cannot be restored
    through it.  Nothing else of the line changes. *)
Theorem setDuration_clamps (l : HumdrumLine) (aDur : HumNum) :
  isNonNegative (m_duration (setDuration l aDur)) = true /\
  (isNonNegative aDur = true -> m_duration (setDuration l aDur) = aDur) /\
  (isNegative aDur = true ->
   m_duration (setDuration l aDur) = HumNum_of_int 0) /\
  setDuration l (m_duration (setDuration l aDur)) = setDuration l aDur /\
  line_text (setDuration l aDur) = line_text l /\
  m_tokens (setDuration l aDur) = m_tokens l /\
  m_rhythm_analyzed (setDuration l aDur) = m_rhythm_analyzed l.
Proof.
  unfold setDuration. cbn [m_duration line_text m_tokens m_rhythm_analyzed].
  destruct (isNonNegative aDur) eqn:E.
  - rewrite E. repeat split; try assumption.
    unfold isNegative, isNonNegative in *. intros H.
    apply Z.ltb_lt in H. apply Z.leb_le in E. lia.
  - repeat split; try discriminate.
Qed.

Section UnanalysedLines.

Variable analyzeRhythmStructure : HumdrumFile -> HumdrumFile.
Variable getScoreDuration : HumdrumFile -> HumNum.

Variable w : World.
Variable this : nat.
Variable l : HumdrumLine.
Hypothesis Hthis : nth_error (f_lines (w_file w)) this = Some l.

Lemma ensure_rhythm_unowned :
  m_owner l = OwnerNull ->
  ensure_rhythm analyzeRhythmStructure this w = Some (tt, w).
Proof.
  intros Ho. unfold ensure_rhythm, bind.
  rewrite (@read_line_this w this l Hthis), Ho.
  destruct (m_rhythm_analyzed l); reflexivity.
Qed.

(** X19: a line without an owner is never analysed: whatever its gate
    says, the four field accessors and getBarlineDuration return what
    is stored in the line and start no analysis.  getDurationToEnd,
    with the gate unset, goes through the null owner pointer and
    fails. *)
Theorem unowned_line_accessors :
  m_owner l = OwnerNull ->
  getDuration analyzeRhythmStructure this w = Some (m_duration l, w) /\
  getDurationFromStart analyzeRhythmStructure this w
  = Some (m_durationFromStart l, w) /\
  getDurationFromBarline analyzeRhythmStructure this w
  = Some (m_durationFromBarline l, w) /\
  getDurationToBarline analyzeRhythmStructure this w
  = Some (m_durationToBarline l, w) /\
  getBarlineDuration analyzeRhythmStructure this w
  = Some (if isBarline (line_text l)
          then m_durationToBarline l
          else HumNum_add (m_durationFromBarline l) (m_durationToBarline l),
          w) /\
  (m_rhythm_analyzed l = false ->
   getDurationToEnd analyzeRhythmStructure getScoreDuration this w = None).
Proof.
  intros Ho.
  pose proof (ensure_rhythm_unowned Ho) as He.
  pose proof (@read_line_this w this l Hthis) as Hr.
  assert (Hfrom : getDurationFromBarline analyzeRhythmStructure this w
                  = Some (m_durationFromBarline l, w)).
  { unfold getDurationFromBarline, bind. rewrite He, Hr. reflexivity. }
  assert (Hto : getDurationToBarline analyzeRhythmStructure this w
                = Some (m_durationToBarline l, w)).
  { unfold getDurationToBarline, bind. rewrite He, Hr. reflexivity. }
  split; [|split; [|split; [exact Hfrom|split; [exact Hto|split]]]].
  - unfold getDuration, bind. rewrite He, Hr. reflexivity.
  - unfold getDurationFromStart, bind. rewrite He, Hr. reflexivity.
  - unfold getBarlineDuration. unfold bind at 1. rewrite He.
    unfold bind at 1. rewrite Hr.
    destruct (isBarline (line_text l)); [exact Hto|].
    unfold bind. rewrite Hfrom, Hto. reflexivity.
  - intros Hg. unfold getDurationToEnd. unfold bind at 1.
    rewrite Hr, Hg. cbn [negb]. rewrite Ho.
    unfold bind, ret. rewrite Hr, Ho. reflexivity.
Qed.

End UnanalysedLines.

(* ------------------------------------------------------------------ *)
(** ** How often the analysis is started *)

Section AnalysisPasses.

Variable analyzeRhythmStructure : HumdrumFile -> HumdrumFile.

Variable w : World.
Variable this : nat.
Variable l : HumdrumLine.
Hypothesis Hthis : nth_error (f_lines (w_file w)) this = Some l.
Hypothesis Hgate : m_rhythm_analyzed l = false.
Hypothesis Howner : m_owner l = OwnerFile.

(** X20: on an owned line whose gate is unset, getBarlineDuration starts
    the analysis of the file; when that pass sets the gate of the line,
    it is the only pass, and the result is read from the line as the
    pass left it: durationToBarline on a barline, the sum of
    durationFromBarline and durationToBarline otherwise. *)
Theorem getBarlineDuration_single_pass (l' : HumdrumLine) :
  nth_error (f_lines (analyzeRhythmStructure (w_file w))) this = Some l' ->
  m_rhythm_analyzed l' = true ->
  getBarlineDuration analyzeRhythmStructure this w
  = Some (if isBarline (line_text l')
          then m_durationToBarline l'
          else HumNum_add (m_durationFromBarline l') (m_durationToBarline l'),
          after_passes analyzeRhythmStructure 1 w).
Proof.
  intros Hthis' Hgate'.
  set (w' := after_passes analyzeRhythmStructure 1 w).
  assert (Hw' : nth_error (f_lines (w_file w')) this = Some l') by exact Hthis'.
  destruct (@field_accessors_cached analyzeRhythmStructure w' this l' Hw' Hgate')
    as (_ & _ & Hfrom & Hto).
  unfold getBarlineDuration. unfold bind at 1.
  rewrite (@ensure_rhythm_unset analyzeRhythmStructure w this l Hthis Hgate Howner).
  change (mkWorld (analyzeRhythmStructure (w_file w)) (S (w_passes w))) with w'.
  unfold bind at 1.
  rewrite (@read_line_this w' this l' Hw').
  destruct (isBarline (line_text l')); [exact Hto|].
  unfold bind. rewrite Hfrom, Hto. reflexivity.
Qed.

(** X21: every accessor tests the gate for itself.  On an owned line
    whose gate is unset getDuration starts one analysis pass and returns
    the duration that pass left in the line.  When the pass leaves the
    line owned and its gate unset, whatever else it writes,
    getBarlineDuration starts the analysis again in each accessor it
    calls.  On a line that is a barline after the first pass it runs
    two passes and returns the durationToBarline the second one left.
    On any other line, when the second pass too leaves the line owned
    and its gate unset, it runs three passes and returns the sum of
    durationFromBarline and durationToBarline, the operand evaluated
    first read after the second pass and the other after the third. *)
Theorem getBarlineDuration_repeats_analysis (l1 : HumdrumLine) :
  nth_error (f_lines (w_file (after_passes analyzeRhythmStructure 1 w))) this
  = Some l1 ->
  getDuration analyzeRhythmStructure this w
  = Some (m_duration l1, after_passes analyzeRhythmStructure 1 w) /\
  (m_rhythm_analyzed l1 = false -> m_owner l1 = OwnerFile ->
   forall l2,
     nth_error (f_lines (w_file (after_passes analyzeRhythmStructure 2 w))) this
     = Some l2 ->
     (isBarline (line_text l1) = true ->
      getBarlineDuration analyzeRhythmStructure this w
      = Some (m_durationToBarline l2, after_passes analyzeRhythmStructure 2 w) /\
      getBarlineDuration_right_first analyzeRhythmStructure this w
      = Some (m_durationToBarline l2, after_passes analyzeRhythmStructure 2 w)) /\
     (isBarline (line_text l1) = false ->
      m_rhythm_analyzed l2 = false -> m_owner l2 = OwnerFile ->
      forall l3,
        nth_error (f_lines (w_file (after_passes analyzeRhythmStructure 3 w))) this
        = Some l3 ->
        getBarlineDuration analyzeRhythmStructure this w
        = Some (HumNum_add (m_durationFromBarline l2) (m_durationToBarline l3),
                after_passes analyzeRhythmStructure 3 w) /\
        getBarlineDuration_right_first analyzeRhythmStructure this w
        = Some (HumNum_add (m_durationFromBarline l3) (m_durationToBarline l2),
                after_passes analyzeRhythmStructure 3 w))).
Proof.
  intros H1.
  assert (Hw0 : after_passes analyzeRhythmStructure 0 w = w)
    by (destruct w; reflexivity).
  assert (Hstep : forall n x,
            nth_error (f_lines (w_file (after_passes analyzeRhythmStructure n w)))
                      this = Some x ->
            m_rhythm_analyzed x = false -> m_owner x = OwnerFile ->
            ensure_rhythm analyzeRhythmStructure this
                          (after_passes analyzeRhythmStructure n w)
            = Some (tt, after_passes analyzeRhythmStructure (S n) w)).
  { intros n x Hx Hg Ho.
    rewrite (@ensure_rhythm_unset analyzeRhythmStructure _ this x Hx Hg Ho).
    reflexivity. }
  assert (Hfirst : ensure_rhythm analyzeRhythmStructure this w
                   = Some (tt, after_passes analyzeRhythmStructure 1 w)).
  { rewrite <- Hw0 at 1. apply (Hstep 0%nat l); [rewrite Hw0; exact Hthis| |];
      assumption. }
  assert (Hfrom : forall n x y,
            nth_error (f_lines (w_file (after_passes analyzeRhythmStructure n w)))
                      this = Some x ->
            m_rhythm_analyzed x = false -> m_owner x = OwnerFile ->
            nth_error (f_lines (w_file (after_passes analyzeRhythmStructure (S n) w)))
                      this = Some y ->
            getDurationFromBarline analyzeRhythmStructure this
                                   (after_passes analyzeRhythmStructure n w)
            = Some (m_durationFromBarline y,
                    after_passes analyzeRhythmStructure (S n) w)).
  { intros n x y Hx Hg Ho Hy. unfold getDurationFromBarline, bind.
    rewrite (Hstep n x Hx Hg Ho), (@read_line_this _ this y Hy). reflexivity. }
  assert (Hto : forall n x y,
            nth_error (f_lines (w_file (after_passes analyzeRhythmStructure n w)))
                      this = Some x ->
            m_rhythm_analyzed x = false -> m_owner x = OwnerFile ->
            nth_error (f_lines (w_file (after_passes analyzeRhythmStructure (S n) w)))
                      this = Some y ->
            getDurationToBarline analyzeRhythmStructure this
                                 (after_passes analyzeRhythmStructure n w)
            = Some (m_durationToBarline y,
                    after_passes analyzeRhythmStructure (S n) w)).
  { intros n x y Hx Hg Ho Hy. unfold getDurationToBarline, bind.
    rewrite (Hstep n x Hx Hg Ho), (@read_line_this _ this y Hy). reflexivity. }
  split.
  - unfold getDuration, bind.
    rewrite Hfirst, (@read_line_this _ this l1 H1). reflexivity.
  - intros Hg1 Ho1 l2 H2. split.
    + intros Hbar. split.
      * unfold getBarlineDuration. unfold bind at 1. rewrite Hfirst.
        unfold bind at 1. rewrite (@read_line_this _ this l1 H1), Hbar.
        exact (Hto 1%nat l1 l2 H1 Hg1 Ho1 H2).
      * unfold getBarlineDuration_right_first. unfold bind at 1. rewrite Hfirst.
        unfold bind at 1. rewrite (@read_line_this _ this l1 H1), Hbar.
        exact (Hto 1%nat l1 l2 H1 Hg1 Ho1 H2).
    + intros Hbar Hg2 Ho2 l3 H3. split.
      * unfold getBarlineDuration. unfold bind at 1. rewrite Hfirst.
        unfold bind at 1. rewrite (@read_line_this _ this l1 H1), Hbar.
        unfold bind.
        rewrite (Hfrom 1%nat l1 l2 H1 Hg1 Ho1 H2),
                (Hto 2%nat l2 l3 H2 Hg2 Ho2 H3).
        reflexivity.
      * unfold getBarlineDuration_right_first. unfold bind at 1. rewrite Hfirst.
        unfold bind at 1. rewrite (@read_line_this _ this l1 H1), Hbar.
        unfold bind.
        rewrite (Hto 1%nat l1 l2 H1 Hg1 Ho1 H2),
                (Hfrom 2%nat l2 l3 H2 Hg2 Ho2 H3).
        reflexivity.
Qed.

End AnalysisPasses.

(* ------------------------------------------------------------------ *)
(** ** analyzeTracks run twice *)

(** analyzeTracks on a line with spines, in one expression. *)
Lemma analyzeTracks_closed_form (l : HumdrumLine) (toks : list HumdrumToken) :
  hasSpines (line_text l) = true ->
  m_tokens l = valid_tokens toks ->
  Forall (fun t => track_of t < INT_MAX) toks ->
  analyzeTracks l
  = Some (with_tokens l (valid_tokens (numbered toks)) (m_tabs l)).
Proof.
  intros Hspines Htoks Hfit.
  unfold analyzeTracks. rewrite Hspines, Htoks. cbn [negb].
  assert (Hfit' : Forall (fun t => track_of t <= INT_MAX - 1) toks)
    by (eapply Forall_impl; [|exact Hfit]; cbv beta; intros; lia).
  destruct (@assign_tracks_bound toks 0 (INT_MAX - 1) Hfit')
    as (mx & Hrun1 & Hmx & Hall);
    [lia | unfold INT_MAX; lia |].
  rewrite Hrun1. cbn [fst snd].
  rewrite as_int_fits by (unfold INT_MAX in *; lia).
  unfold numbered. set (toks1 := map retrack toks).
  set (zeros := repeat 0 (Z.to_nat (mx + 1))).
  assert (Hzlen : Z.of_nat (List.length zeros) = mx + 1)
    by (unfold zeros; rewrite repeat_length; lia).
  assert (Hrange : Forall (fun t => 0 <= tok_track t < Z.of_nat (List.length zeros))
                          toks1).
  { unfold toks1. apply Forall_map. rewrite Hzlen.
    eapply Forall_impl; [|exact Hall]. intros t Ht.
    cbn [retrack setTrack tok_track].
    pose proof (decimal_value_nonneg (tok_spineinfo t)). unfold track_of in *.
    lia. }
  destruct (@count_subtracks_spec toks1 zeros Hrange) as (sub & Hrun2 & Hslen & Hcnt).
  rewrite Hrun2.
  assert (Hzero : forall j, nth (Z.to_nat j) zeros 0 = 0)
    by (intros j; unfold zeros; apply nth_repeat).
  rewrite (@assign_subtracks_spec toks1 toks1 [] sub zeros).
  - reflexivity.
  - lia.
  - rewrite Hslen. exact Hrange.
  - intros j Hj. rewrite (Hcnt j) by lia. rewrite Hzero. lia.
  - intros j Hj _. rewrite Hzero. reflexivity.
Qed.

Lemma number_subtracks_spineinfo (full ts pre : list HumdrumToken) :
  map tok_spineinfo (number_subtracks full pre ts) = map tok_spineinfo ts.
Proof.
  revert pre. induction ts as [|t r IH]; intros pre; [reflexivity|].
  simpl. rewrite IH. reflexivity.
Qed.

(** Numbering again, with lists that count the same, changes
    nothing. *)
Lemma number_subtracks_again (full full' ts pre pre' : list HumdrumToken) :
  (forall k, same_track k full' = same_track k full) ->
  (forall k, same_track k pre' = same_track k pre) ->
  number_subtracks full' pre' (number_subtracks full pre ts)
  = number_subtracks full pre ts.
Proof.
  intros Hfull. revert pre pre'.
  induction ts as [|t r IH]; intros pre pre' Hpre; [reflexivity|].
  cbn [number_subtracks].
  cbn [setSubtrackCount setSubtrack tok_track tok_text tok_spineinfo].
  rewrite Hfull, !same_track_app, Hpre.
  rewrite !same_track_cons.
  cbn [setSubtrackCount setSubtrack tok_track].
  f_equal. apply IH. intros k.
  rewrite !same_track_app, Hpre, !same_track_cons.
  reflexivity.
Qed.

Lemma retrack_numbered (toks : list HumdrumToken) :
  map retrack (numbered toks) = numbered toks.
Proof.
  unfold numbered.
  assert (H : forall full pre ts,
            map retrack (number_subtracks full pre (map retrack ts))
            = number_subtracks full pre (map retrack ts)).
  { intros full pre ts. revert pre.
    induction ts as [|t r IH]; intros pre; [reflexivity|].
    cbn [map number_subtracks]. rewrite IH. f_equal. }
  apply H.
Qed.

Lemma numbered_track_of (toks : list HumdrumToken) :
  map track_of (numbered toks) = map track_of toks.
Proof.
  unfold numbered, track_of.
  rewrite <- !(map_map tok_spineinfo
                 (fun s => decimal_value (first_digit_run s))).
  rewrite number_subtracks_spineinfo, (map_map retrack tok_spineinfo).
  reflexivity.
Qed.

Lemma numbered_idem (toks : list HumdrumToken) :
  numbered (numbered toks) = numbered toks.
Proof.
  assert (H : numbered (numbered toks)
              = number_subtracks (map retrack (numbered toks)) []
                                 (map retrack (numbered toks)))
    by reflexivity.
  rewrite H, retrack_numbered. unfold numbered.
  apply number_subtracks_again.
  - intros k. apply same_track_map, number_subtracks_tracks.
  - reflexivity.
Qed.

(** X22: analyzeTracks is idempotent: on a line with spines, valid token
    pointers and track numbers below INT_MAX (2147483647), it succeeds,
    and running it again on its result changes nothing. *)
Theorem analyzeTracks_idempotent (l : HumdrumLine) (toks : list HumdrumToken) :
  hasSpines (line_text l) = true ->
  m_tokens l = valid_tokens toks ->
  Forall (fun t => track_of t < INT_MAX) toks ->
  exists l1, analyzeTracks l = Some l1 /\ analyzeTracks l1 = Some l1.
Proof.
  intros Hspines Htoks Hfit.
  exists (with_tokens l (valid_tokens (numbered toks)) (m_tabs l)).
  split; [exact (analyzeTracks_closed_form l Hspines Htoks Hfit)|].
  assert (Hfit' : Forall (fun t => track_of t < INT_MAX) (numbered toks)).
  { apply Forall_forall. intros t Hin.
    assert (Hm : In (track_of t) (map track_of toks))
      by (rewrite <- numbered_track_of; apply in_map; exact Hin).
    apply in_map_iff in Hm. destruct Hm as (u & Hu & Hin').
    rewrite Forall_forall in Hfit. rewrite <- Hu. exact (Hfit u Hin'). }
  rewrite (@analyzeTracks_closed_form
             (with_tokens l (valid_tokens (numbered toks)) (m_tabs l))
             (numbered toks) Hspines eq_refl Hfit').
  cbn [with_tokens line_text m_tabs m_duration m_durationFromStart
       m_durationFromBarline m_durationToBarline m_rhythm_analyzed m_owner].
  rewrite numbered_idem. reflexivity.
Qed.

(** X23: on a line with spines, valid token pointers and track numbers
    below INT_MAX (2147483647), analyzeTracks succeeds and changes only
    the tokens, and afterwards the pair of track and subtrack identifies
    a token of the line: of two tokens in the same track, the one
    further right has the larger subtrack number, the numbers start at
    1, and none exceeds the subtrack count stored in the token. *)
Theorem analyzeTracks_subtracks_increase
        (l : HumdrumLine) (toks : list HumdrumToken) :
  hasSpines (line_text l) = true ->
  m_tokens l = valid_tokens toks ->
  Forall (fun t => track_of t < INT_MAX) toks ->
  exists toks',
    analyzeTracks l = Some (with_tokens l (valid_tokens toks') (m_tabs l)) /\
    forall i j t u,
      nth_error toks' i = Some t -> nth_error toks' j = Some u ->
      (i < j)%nat -> tok_track t = tok_track u ->
      1 <= tok_subtrack t /\ tok_subtrack t < tok_subtrack u /\
      tok_subtrack u <= tok_subtrackcount u.
Proof.
  intros Hspines Htoks Hfit. exists (numbered toks).
  split; [exact (analyzeTracks_closed_form l Hspines Htoks Hfit)|].
  unfold numbered. set (T := map retrack toks).
  intros i j t u Hi Hj Hij Htrack.
  assert (Hlen : List.length (number_subtracks T [] T) = List.length T)
    by apply number_subtracks_length.
  assert (Hsrc : forall m x, nth_error (number_subtracks T [] T) m = Some x ->
            exists x0, nth_error T m = Some x0).
  { intros m x Hm.
    assert (m < List.length T)%nat
      by (rewrite <- Hlen; apply nth_error_Some; congruence).
    destruct (nth_error T m) eqn:E; [eauto|].
    apply nth_error_None in E. lia. }
  destruct (Hsrc i t Hi) as (t0 & Hi0). destruct (Hsrc j u Hj) as (u0 & Hj0).
  pose proof (@number_subtracks_nth T T [] i t0 t Hi0 Hi) as Ht.
  pose proof (@number_subtracks_nth T T [] j u0 u Hj0 Hj) as Hu.
  cbn [app] in Ht, Hu. cbv zeta in Ht, Hu.
  assert (Hk : tok_track t0 = tok_track u0).
  { rewrite Ht, Hu in Htrack. exact Htrack. }
  set (k := tok_track u0) in *. rewrite Hk in Ht.
  assert (Hpre : forall m, (same_track k (firstn m T) <= same_track k T)%nat).
  { intros m. rewrite <- (firstn_skipn m T) at 2. rewrite same_track_app. lia. }
  assert (Hstep : forall m x0, nth_error T m = Some x0 -> tok_track x0 = k ->
            same_track k (firstn (S m) T)
            = S (same_track k (firstn m T))).
  { intros m x0 Hm Hx.
    assert (Hsplit : firstn (S m) T = firstn m T ++ [x0]).
    { clear -Hm. revert m Hm. induction T as [|a r IH]; intros m Hm.
      - destruct m; discriminate.
      - destruct m as [|m]; simpl in Hm.
        + injection Hm as ->. reflexivity.
        + change (firstn (S (S m)) (a :: r)) with (a :: firstn (S m) r).
          rewrite (IH m Hm). reflexivity. }
    rewrite Hsplit, same_track_app, same_track_cons, Hx, Z.eqb_refl.
    change (same_track k []) with 0%nat. lia. }
  assert (Hmono : (same_track k (firstn (S i) T)
                   <= same_track k (firstn j T))%nat).
  { assert (Hf : firstn (S i) T = firstn (S i) (firstn j T)).
    { rewrite firstn_firstn. f_equal. lia. }
    rewrite Hf.
    rewrite <- (firstn_skipn (S i) (firstn j T)) at 2.
    rewrite same_track_app. lia. }
  pose proof (Hstep i t0 Hi0 Hk) as Hsi.
  pose proof (Hstep j u0 Hj0 eq_refl) as Hsj.
  pose proof (Hpre (S j)) as Hall.
  assert (Hmany : (Z.of_nat (same_track k T) >? 1) = true)
    by (apply Z.gtb_lt; lia).
  rewrite Hmany in Ht, Hu. rewrite Ht, Hu.
  cbn [setSubtrackCount setSubtrack tok_subtrack tok_subtrackcount].
  lia.
Qed.

(* ------------------------------------------------------------------ *)
(** ** Reading a line from CSV *)

Lemma nth_middle_Z (p : text) (x : ascii) (r : text) :
  nth (Z.to_nat (Z.of_nat (List.length p))) (p ++ x :: r) NUL = x.
Proof. rewrite Nat2Z.id. apply nth_middle. Qed.

Lemma size_app (a b : text) : size (a ++ b) = size a + size b.
Proof. unfold size. rewrite length_app. lia. Qed.

(** With a separator that is not empty the loop ends. *)
Lemma csv_loop_total (fuel : nat) :
  forall (newcsv separator : text) (i : Z) (inquote : bool) (output : text),
    fits_int separator -> separator <> [] ->
    Z.max 0 (int_size newcsv - i) < Z.of_nat fuel ->
    exists out, csv_loop fuel newcsv separator i inquote output = Some out.
Proof.
  induction fuel as [|f IH]; intros newcsv sep i q out Hfs Hne Hfuel; [lia|].
  assert (Hsep : 1 <= int_size sep).
  { rewrite (int_size_fits Hfs). unfold size.
    destruct sep; [congruence | simpl; lia]. }
  cbn [csv_loop].
  destruct (Z.ltb_spec i (int_size newcsv)) as [Hi|Hi]; [|eauto].
  cbv zeta.
  repeat match goal with
         | |- context [if ?b then _ else _] => destruct b
         end; apply IH; try assumption; lia.
Qed.

Lemma not_literal (s : text) :
  text_eqb (substr s 0 2) (lit "!!") = false ->
  (2 <=? size s) && char_eqb (nth 0 s NUL) "!" && char_eqb (nth 1 s NUL) "!"
  = false.
Proof.
  intros H. destruct s as [|a [|b r]]; [reflexivity| |].
  - cbn [nth]. rewrite andb_false_r. reflexivity.
  - unfold substr in H. cbn [skipn firstn lit text_eqb] in H. simpl in H.
    rewrite andb_true_r in H. cbn [nth].
    destruct (2 <=? size (a :: b :: r)); [|reflexivity]. exact H.
Qed.

Lemma strip_cr_id (s : text) :
  char_eqb (last s NUL) CR = false -> strip_cr s = s.
Proof. intros H. unfold strip_cr. rewrite H, andb_false_r. reflexivity. Qed.

(** The loop outside quotes, over text without quotes, the separator
    being one character. *)
Lemma csv_loop_plain (q : text) :
  forall (p : text) (sep : ascii) (fuel : nat) (out : text),
    fits_int (p ++ q) -> quote_free q = true ->
    (List.length q < fuel)%nat ->
    csv_loop fuel (p ++ q) [sep] (Z.of_nat (List.length p)) false out
    = Some (out ++ tab_for sep q).
Proof.
  induction q as [|x r IH]; intros p sep fuel out Hfit Hq Hfuel.
  - destruct fuel as [|f]; [simpl in Hfuel; lia|]. cbn [csv_loop].
    rewrite (int_size_fits Hfit), app_nil_r. unfold size.
    destruct (Z.ltb_spec (Z.of_nat (List.length p)) (Z.of_nat (List.length p)));
      [lia|]. cbn [tab_for map]. rewrite app_nil_r. reflexivity.
  - destruct fuel as [|f]; [simpl in Hfuel; lia|]. cbn [csv_loop].
    rewrite (int_size_fits Hfit). unfold size at 1. rewrite length_app.
    cbn [List.length].
    destruct (Z.ltb_spec (Z.of_nat (List.length p))
                         (Z.of_nat (List.length p + S (List.length r))));
      [|lia].
    cbv zeta. rewrite nth_middle_Z.
    cbn [quote_free forallb] in Hq. apply andb_true_iff in Hq.
    destruct Hq as [Hx Hr]. apply negb_true_iff in Hx. rewrite Hx.
    cbn [andb negb].
    assert (Hsub : substr (p ++ x :: r) (Z.to_nat (Z.of_nat (List.length p)))
                          1 = [x]).
    { unfold substr. rewrite Nat2Z.id, skipn_length_app. reflexivity. }
    rewrite Hsub. cbn [text_eqb]. rewrite andb_true_r.
    change (int_size [sep]) with 1.
    replace (Z.of_nat (List.length p) + (1 - 1) + 1)
      with (Z.of_nat (List.length (p ++ [x])))
      by (rewrite length_app; simpl; lia).
    replace (Z.of_nat (List.length p) + 1)
      with (Z.of_nat (List.length (p ++ [x])))
      by (rewrite length_app; simpl; lia).
    replace (p ++ x :: r) with ((p ++ [x]) ++ r) in *
      by (rewrite <- app_assoc; reflexivity).
    cbn [tab_for map]. fold (tab_for sep r).
    destruct (char_eqb x sep).
    + rewrite (IH (p ++ [x]) sep f (out ++ [TAB]) Hfit Hr)
        by (simpl in Hfuel; lia).
      rewrite <- app_assoc. reflexivity.
    + rewrite (IH (p ++ [x]) sep f (out ++ [x]) Hfit Hr)
        by (simpl in Hfuel; lia).
      rewrite <- app_assoc. reflexivity.
Qed.

Lemma char_eqb_DQUOTE : char_eqb DQUOTE DQUOTE = true.
Proof. reflexivity. Qed.

(** The loop inside quotes, over an escaped field and its closing
    quote: whatever the separator is. *)
Lemma csv_loop_quoted (field : text) :
  forall (p separator : text) (fuel : nat) (out : text),
    fits_int (p ++ csv_escape field ++ [DQUOTE]) ->
    (S (List.length (csv_escape field)) < fuel)%nat ->
    csv_loop fuel (p ++ csv_escape field ++ [DQUOTE]) separator
             (Z.of_nat (List.length p)) true out
    = Some (out ++ field).
Proof.
  induction field as [|x r IH]; intros p sep fuel out Hfit Hfuel.
  - destruct fuel as [|[|f]]; [simpl in Hfuel; lia | simpl in Hfuel; lia|].
    cbn [csv_escape flat_map app] in *.
    assert (Hsz : size (p ++ [DQUOTE]) = Z.of_nat (List.length p) + 1)
      by (rewrite size_app; reflexivity).
    cbn [csv_loop]. rewrite (int_size_fits Hfit), Hsz.
    destruct (Z.ltb_spec (Z.of_nat (List.length p))
                         (Z.of_nat (List.length p) + 1)); [|lia].
    cbv zeta. rewrite nth_middle_Z, char_eqb_DQUOTE. cbn [negb andb].
    rewrite (nth_overflow (p ++ [DQUOTE]))
      by (rewrite length_app; simpl; lia).
    change (char_eqb NUL DQUOTE) with false. cbn [andb].
    destruct (Z.ltb_spec (Z.of_nat (List.length p) + 1)
                         (Z.of_nat (List.length p) + 1)); [lia|].
    rewrite app_nil_r. reflexivity.
  - destruct fuel as [|f]; [simpl in Hfuel; lia|].
    cbn [csv_escape flat_map] in *. fold (csv_escape r) in *.
    destruct (char_eqb x DQUOTE) eqn:Ex.
    + apply char_eqb_eq in Ex. subst x.
      cbn [app] in *.
      assert (Hsz : size (p ++ DQUOTE :: DQUOTE :: csv_escape r ++ [DQUOTE])
                    = Z.of_nat (List.length p) + 3
                      + Z.of_nat (List.length (csv_escape r))).
      { rewrite size_app. unfold size. cbn [List.length].
        rewrite length_app. simpl. lia. }
      cbn [csv_loop]. rewrite (int_size_fits Hfit), Hsz.
      destruct (Z.ltb_spec (Z.of_nat (List.length p))
                  (Z.of_nat (List.length p) + 3
                   + Z.of_nat (List.length (csv_escape r)))); [|lia].
      cbv zeta. rewrite nth_middle_Z, char_eqb_DQUOTE. cbn [negb andb].
      assert (Hnext : nth (Z.to_nat (Z.of_nat (List.length p) + 1))
                          (p ++ DQUOTE :: DQUOTE :: csv_escape r ++ [DQUOTE])
                          NUL = DQUOTE).
      { replace (Z.to_nat (Z.of_nat (List.length p) + 1))
          with (List.length (p ++ [DQUOTE]))
          by (rewrite length_app; simpl; lia).
        replace (p ++ DQUOTE :: DQUOTE :: csv_escape r ++ [DQUOTE])
          with ((p ++ [DQUOTE]) ++ DQUOTE :: csv_escape r ++ [DQUOTE])
          by (rewrite <- app_assoc; reflexivity).
        apply nth_middle. }
      rewrite Hnext, char_eqb_DQUOTE. cbn [andb].
      destruct (Z.ltb_spec (Z.of_nat (List.length p))
                  (Z.of_nat (List.length p) + 3
                   + Z.of_nat (List.length (csv_escape r)) - 1)); [|lia].
      replace (Z.of_nat (List.length p) + 1 + 1)
        with (Z.of_nat (List.length (p ++ [DQUOTE; DQUOTE])))
        by (rewrite length_app; simpl; lia).
      replace (p ++ DQUOTE :: DQUOTE :: csv_escape r ++ [DQUOTE])
        with ((p ++ [DQUOTE; DQUOTE]) ++ csv_escape r ++ [DQUOTE]) in *
        by (rewrite <- app_assoc; reflexivity).
      rewrite (IH (p ++ [DQUOTE; DQUOTE]) sep f (out ++ [DQUOTE]) Hfit)
        by (simpl in Hfuel; lia).
      rewrite <- app_assoc. reflexivity.
    + cbn [app] in *.
      assert (Hsz : size (p ++ x :: csv_escape r ++ [DQUOTE])
                    = Z.of_nat (List.length p) + 2
                      + Z.of_nat (List.length (csv_escape r))).
      { rewrite size_app. unfold size. cbn [List.length].
        rewrite length_app. simpl. lia. }
      cbn [csv_loop]. rewrite (int_size_fits Hfit), Hsz.
      destruct (Z.ltb_spec (Z.of_nat (List.length p))
                  (Z.of_nat (List.length p) + 2
                   + Z.of_nat (List.length (csv_escape r)))); [|lia].
      cbv zeta. rewrite nth_middle_Z, Ex. cbn [negb andb].
      replace (Z.of_nat (List.length p) + 1)
        with (Z.of_nat (List.length (p ++ [x])))
        by (rewrite length_app; simpl; lia).
      replace (p ++ x :: csv_escape r ++ [DQUOTE])
        with ((p ++ [x]) ++ csv_escape r ++ [DQUOTE]) in *
        by (rewrite <- app_assoc; reflexivity).
      rewrite (IH (p ++ [x]) sep f (out ++ [x]) Hfit)
        by (simpl in Hfuel; lia).
      rewrite <- app_assoc. reflexivity.
Qed.

(** Outside quotes, with the empty separator, the loop stays at a
    character that is not a quote: it writes a tab and takes [i] back
    to where it was. *)
Lemma csv_loop_stuck (fuel : nat) :
  forall (newcsv : text) (i : Z) (out : text),
    i < int_size newcsv ->
    char_eqb (nth (Z.to_nat i) newcsv NUL) DQUOTE = false ->
    csv_loop fuel newcsv [] i false out = None.
Proof.
  induction fuel as [|f IH]; intros newcsv i out Hi Hc; [reflexivity|].
  cbn [csv_loop]. destruct (Z.ltb_spec i (int_size newcsv)); [|lia].
  cbv zeta. rewrite Hc. cbn [andb negb List.length].
  unfold substr. cbn [firstn text_eqb].
  change (int_size []) with 0.
  replace (i + (0 - 1) + 1) with i by lia.
  apply IH; assumption.
Qed.

(** X24: with a separator that is not empty, setLineFromCsv ends and
    does not fail, whatever the CSV text (quotes left open, separators
    of several characters): every iteration of its loop moves forward.
    An empty CSV text leaves the line as it is; a text that starts with
    two exclamation marks is stored as it is, less one carriage return
    at its end, and is not searched for quotes or separators.  In every
    case the tokens of the line are left as they were. *)
Theorem setLineFromCsv_total (l : HumdrumLine) (csv separator : text) :
  fits_int separator -> separator <> [] ->
  (exists l', setLineFromCsv l csv separator = Some l' /\
              m_tokens l' = m_tokens l /\ m_tabs l' = m_tabs l) /\
  (csv = [] -> setLineFromCsv l csv separator = Some l) /\
  (csv <> [] ->
   text_eqb (substr (strip_cr csv) 0 2) (lit "!!") = true ->
   setLineFromCsv l csv separator = Some (with_text l (strip_cr csv))).
Proof.
  intros Hfs Hne. unfold setLineFromCsv.
  split; [|split].
  - destruct (size csv <? 1); [exists l; repeat split|].
    cbv zeta.
    destruct ((2 <=? size (strip_cr csv))
              && char_eqb (nth 0 (strip_cr csv) NUL) "!"
              && char_eqb (nth 1 (strip_cr csv) NUL) "!").
    + eexists. repeat split.
    + destruct (@csv_loop_total (S (List.length (strip_cr csv)))
                  (strip_cr csv) separator 0 false [] Hfs Hne)
        as (out & Hout).
      { pose proof (@int_size_le (strip_cr csv)). unfold size in *. lia. }
      rewrite Hout. eexists. repeat split.
  - intros ->. reflexivity.
  - intros Hcsv Hbang.
    destruct (Z.ltb_spec (size csv) 1) as [H1|H1].
    + unfold size in H1. destruct csv; [congruence | simpl in H1; lia].
    + cbv zeta.
      unfold substr in Hbang.
      destruct (strip_cr csv) as [|a [|b r]]; simpl in Hbang;
        try discriminate Hbang;
        try (rewrite ?andb_false_r in Hbang; discriminate Hbang).
      rewrite ?andb_true_r in Hbang.
      apply andb_true_iff in Hbang. destruct Hbang as [Ha Hb].
      cbn [nth]. rewrite Ha, Hb.
      replace (2 <=? size (a :: b :: r)) with true; [reflexivity|].
      symmetry. apply Z.leb_le. unfold size. simpl. lia.
Qed.

(** X25: a CSV text without double quotes, with a separator of one
    character, becomes the text of the line with every separator
    replaced by a tab and nothing else changed (the text must not start
    with two exclamation marks nor end with a carriage return).  The
    overload for C strings does not pass its separator on: whatever
    separator it is given, it splits at commas. *)
Theorem setLineFromCsv_plain (l : HumdrumLine) (csv : text) (sep other : ascii) :
  fits_int csv -> csv <> [] -> quote_free csv = true ->
  char_eqb (last csv NUL) CR = false ->
  text_eqb (substr csv 0 2) (lit "!!") = false ->
  setLineFromCsv l csv [sep] = Some (with_text l (tab_for sep csv)) /\
  (c_str csv = csv ->
   setLineFromCsv_cstring l csv [other]
   = Some (with_text l (tab_for "," csv))).
Proof.
  intros Hfit Hne Hq Hcr Hbang.
  assert (H : forall s, setLineFromCsv l csv [s]
                        = Some (with_text l (tab_for s csv))).
  { intros s. unfold setLineFromCsv.
    destruct (Z.ltb_spec (size csv) 1) as [H1|H1].
    - unfold size in H1. destruct csv; [congruence | simpl in H1; lia].
    - cbv zeta. rewrite (strip_cr_id _ Hcr), (not_literal _ Hbang).
      pose proof (@csv_loop_plain csv [] s (S (List.length csv)) []
                    Hfit Hq ltac:(lia)) as Hloop.
      cbn [app List.length Z.of_nat] in Hloop. rewrite Hloop. reflexivity. }
  split; [apply H|].
  intros Hc. unfold setLineFromCsv_cstring. rewrite Hc. apply (H ","%char).
Qed.

(** X26: a field written in double quotes, with its own double quotes
    doubled, is read back as it was: separators, tabs and quotes inside
    it are kept, whatever the separator is, the empty one included. *)
Theorem setLineFromCsv_quoted_field
        (l : HumdrumLine) (field separator : text) :
  fits_int (csv_quoted field) ->
  setLineFromCsv l (csv_quoted field) separator = Some (with_text l field).
Proof.
  intros Hfit. unfold setLineFromCsv.
  assert (Hlast : last (csv_quoted field) NUL = DQUOTE).
  { unfold csv_quoted.
    change (DQUOTE :: csv_escape field ++ [DQUOTE])
      with ((DQUOTE :: csv_escape field) ++ [DQUOTE]).
    apply last_last. }
  assert (Hstrip : strip_cr (csv_quoted field) = csv_quoted field).
  { apply strip_cr_id. rewrite Hlast. reflexivity. }
  destruct (Z.ltb_spec (size (csv_quoted field)) 1) as [H1|H1];
    [unfold csv_quoted, size in H1; simpl in H1; lia|].
  cbv zeta. rewrite Hstrip.
  replace (char_eqb (nth 0 (csv_quoted field) NUL) "!") with false
    by reflexivity.
  rewrite andb_false_r. cbn [andb].
  assert (Hsz : 2 <= size (csv_quoted field)).
  { unfold csv_quoted, size. cbn [List.length]. rewrite length_app.
    simpl. lia. }
  assert (Hstep : csv_loop (S (List.length (csv_quoted field)))
                           (csv_quoted field) separator 0 false []
                  = csv_loop (List.length (csv_quoted field))
                             (csv_quoted field) separator 1 true []).
  { cbn [csv_loop]. rewrite (int_size_fits Hfit).
    destruct (Z.ltb_spec 0 (size (csv_quoted field))); [|lia].
    reflexivity. }
  rewrite Hstep.
  pose proof (@csv_loop_quoted field [DQUOTE] separator
                (List.length (csv_quoted field)) []) as Hloop.
  cbn [app List.length Z.of_nat] in Hloop.
  change (DQUOTE :: csv_escape field ++ [DQUOTE])
    with (csv_quoted field) in Hloop.
  change (Z.pos (Pos.of_succ_nat 0)) with 1 in Hloop.
  rewrite Hloop; [reflexivity | exact Hfit |].
  unfold csv_quoted. cbn [List.length]. rewrite length_app. simpl. lia.
Qed.

(** X27: with an empty separator the loop of setLineFromCsv does not
    end when the text starts with a character that is neither a double
    quote nor an exclamation mark: the empty separator matches there,
    a tab is written and the position is taken back by one, so that no
    amount of iterations finishes the call. *)
Theorem setLineFromCsv_empty_separator (l : HumdrumLine) (csv : text)
        (c : ascii) (r : text) :
  fits_int csv ->
  strip_cr csv = c :: r ->
  char_eqb c DQUOTE = false -> char_eqb c "!" = false ->
  (forall fuel output, csv_loop fuel (strip_cr csv) [] 0 false output = None) /\
  setLineFromCsv l csv [] = None.
Proof.
  intros Hfit Hs Hq Hb.
  assert (Hsize : 1 <= size csv).
  { unfold size. destruct csv; [discriminate Hs | simpl; lia]. }
  assert (Hfit' : fits_int (c :: r)).
  { rewrite <- Hs. unfold strip_cr.
    destruct ((0 <? size csv) && char_eqb (last csv NUL) CR); [|exact Hfit].
    unfold resize. apply (@fits_int_sub csv _ Hfit).
    rewrite length_app, length_firstn, repeat_length. unfold size. lia. }
  assert (Hloop : forall fuel output,
            csv_loop fuel (c :: r) [] 0 false output = None).
  { intros fuel output. apply csv_loop_stuck.
    - rewrite (int_size_fits Hfit'). unfold size. simpl. lia.
    - exact Hq. }
  rewrite Hs. split; [exact Hloop|].
  unfold setLineFromCsv. destruct (Z.ltb_spec (size csv) 1); [lia|].
  cbv zeta. rewrite Hs. cbn [nth]. rewrite Hb, andb_false_r. cbn [andb].
  rewrite Hloop. reflexivity.
Qed.

(* ------------------------------------------------------------------ *)
(** ** Loops over the tokens *)

Lemma tokenized_valid (l : HumdrumLine) :
  fits_int (line_text l) -> line_text l <> [] ->
  exists toks,
    toks <> [] /\
    m_tokens (createTokensFromLine l) = valid_tokens toks /\
    Z.of_nat (List.length toks) <= INT_MAX.
Proof.
  intros Hfit Hne.
  destruct (text_eqb (substr (line_text l) 0 2) (lit "!!")) eqn:Hbang.
  - exists [HumdrumToken_new (c_str (line_text l))].
    split; [discriminate|].
    unfold createTokensFromLine, scan_line. rewrite Hbang.
    destruct (size (line_text l) =? 0) eqn:E.
    + apply Z.eqb_eq in E. unfold size in E.
      destruct (line_text l); [congruence | simpl in E; lia].
    + split; [reflexivity|]. unfold INT_MAX. simpl. lia.
  - assert (Hsp : hasSpines (line_text l) = true).
    { unfold hasSpines. rewrite (@isCommentGlobal_bang _ Hfit), Hbang.
      destruct (isEmpty (line_text l)) eqn:E; [|reflexivity].
      apply isEmpty_nil in E. congruence. }
    destruct (@tokenize_spined l Hfit Hsp)
      as (ts & t & bt & k & Htok & Htab & Hlen & Hpos & Hk & Hsplit & _
          & Hlive & _).
    exists (map HumdrumToken_new (ts ++ [t])).
    split; [destruct ts; discriminate|].
    split.
    + rewrite Htok. unfold fresh_tokens, valid_tokens. rewrite map_map.
      reflexivity.
    + rewrite length_map.
      exact (@token_count_fits (line_text l) ts t bt k Hfit Hlen Hpos
               Hsplit Hlive).
Qed.

Lemma token_valid (l : HumdrumLine) (pre post : list HumdrumToken)
      (t : HumdrumToken) :
  m_tokens l = valid_tokens (pre ++ t :: post) ->
  token l (Z.of_nat (List.length pre)) = Some (Some t).
Proof.
  intros H. unfold token. rewrite H.
  rewrite range_check_true.
  - rewrite Nat2Z.id. apply valid_tokens_nth.
  - unfold valid_tokens. rewrite length_map, length_app. simpl. lia.
Qed.

Section TokenTestFacts.

Variable token_isManipulator : HumdrumToken -> bool.
Variable token_isTerminator : HumdrumToken -> bool.

Lemma manipulator_loop_valid (post : list HumdrumToken) :
  forall (pre : list HumdrumToken) (l : HumdrumLine) (fuel : nat),
    m_tokens l = valid_tokens (pre ++ post) ->
    Z.of_nat (List.length (pre ++ post)) <= INT_MAX ->
    (List.length post <= fuel)%nat ->
    manipulator_loop token_isManipulator fuel l (Z.of_nat (List.length pre))
    = Some (existsb token_isManipulator post).
Proof.
  induction post as [|t r IH]; intros pre l fuel Htok Hmax Hfuel.
  - destruct fuel as [|f]; [reflexivity|]. cbn [manipulator_loop existsb].
    rewrite Htok, int_len_small
      by (unfold valid_tokens; rewrite length_map; exact Hmax).
    unfold valid_tokens. rewrite length_map, app_nil_r.
    destruct (Z.ltb_spec (Z.of_nat (List.length pre))
                         (Z.of_nat (List.length pre))); [lia | reflexivity].
  - destruct fuel as [|f]; [simpl in Hfuel; lia|].
    cbn [manipulator_loop existsb].
    rewrite (@token_valid l pre r t Htok).
    rewrite Htok at 1. rewrite int_len_small
      by (unfold valid_tokens; rewrite length_map; exact Hmax).
    unfold valid_tokens at 1. rewrite length_map, length_app. cbn [List.length].
    destruct (Z.ltb_spec (Z.of_nat (List.length pre))
                         (Z.of_nat (List.length pre + S (List.length r))));
      [|lia].
    destruct (token_isManipulator t); [reflexivity|]. cbn [orb].
    replace (Z.of_nat (List.length pre) + 1)
      with (Z.of_nat (List.length (pre ++ [t])))
      by (rewrite length_app; simpl; lia).
    apply IH.
    + rewrite <- app_assoc. exact Htok.
    + rewrite <- app_assoc. exact Hmax.
    + simpl in Hfuel. lia.
Qed.

Lemma terminator_loop_valid (post : list HumdrumToken) :
  forall (pre : list HumdrumToken) (l : HumdrumLine) (fuel : nat),
    m_tokens l = valid_tokens (pre ++ post) ->
    Z.of_nat (List.length (pre ++ post)) <= INT_MAX ->
    (List.length post <= fuel)%nat ->
    terminator_loop token_isTerminator fuel l (Z.of_nat (List.length pre))
    = Some (forallb token_isTerminator post).
Proof.
  induction post as [|t r IH]; intros pre l fuel Htok Hmax Hfuel.
  - destruct fuel as [|f]; [reflexivity|]. cbn [terminator_loop forallb].
    unfold getTokenCount. fold (int_len (m_tokens l)).
    rewrite Htok, int_len_small
      by (unfold valid_tokens; rewrite length_map; exact Hmax).
    unfold valid_tokens. rewrite length_map, app_nil_r.
    destruct (Z.ltb_spec (Z.of_nat (List.length pre))
                         (Z.of_nat (List.length pre))); [lia | reflexivity].
  - destruct fuel as [|f]; [simpl in Hfuel; lia|].
    cbn [terminator_loop forallb].
    rewrite (@token_valid l pre r t Htok).
    unfold getTokenCount. fold (int_len (m_tokens l)).
    rewrite Htok at 1. rewrite int_len_small
      by (unfold valid_tokens; rewrite length_map; exact Hmax).
    unfold valid_tokens at 1. rewrite length_map, length_app. cbn [List.length].
    destruct (Z.ltb_spec (Z.of_nat (List.length pre))
                         (Z.of_nat (List.length pre + S (List.length r))));
      [|lia].
    destruct (token_isTerminator t); [|reflexivity]. cbn [negb andb].
    replace (Z.of_nat (List.length pre) + 1)
      with (Z.of_nat (List.length (pre ++ [t])))
      by (rewrite length_app; simpl; lia).
    apply IH.
    + rewrite <- app_assoc. exact Htok.
    + rewrite <- app_assoc. exact Hmax.
    + simpl in Hfuel. lia.
Qed.

(** X28: the loops over the tokens after tokenizing.  On a line that is
    not empty all token pointers are valid, so that isManipulator says
    whether some token is a manipulator and isTerminator whether all
    are terminators, and neither fails.  On the empty line the token
    vector ends with a [NULL] pointer: isManipulator dereferences it
    unless the empty token counts as a manipulator, and isTerminator
    dereferences it when the empty token counts as a terminator. *)
Theorem token_loops_after_tokenizing (l : HumdrumLine) :
  fits_int (line_text l) ->
  (line_text l <> [] ->
   exists toks,
     m_tokens (createTokensFromLine l) = valid_tokens toks /\
     isManipulator token_isManipulator (createTokensFromLine l)
     = Some (existsb token_isManipulator toks) /\
     isTerminator token_isTerminator (createTokensFromLine l)
     = Some (forallb token_isTerminator toks)) /\
  (line_text l = [] ->
   isManipulator token_isManipulator (createTokensFromLine l)
   = (if token_isManipulator (HumdrumToken_new []) then Some true else None) /\
   isTerminator token_isTerminator (createTokensFromLine l)
   = (if token_isTerminator (HumdrumToken_new []) then None else Some false)).
Proof.
  intros Hfit. split.
  - intros Hne.
    destruct (@tokenized_valid l Hfit Hne) as (toks & Hnil & Htok & Hmax).
    exists toks. split; [exact Htok|].
    assert (Hlen : List.length (m_tokens (createTokensFromLine l))
                   = List.length toks)
      by (rewrite Htok; unfold valid_tokens; apply length_map).
    split.
    + unfold isManipulator. rewrite Hlen.
      apply (@manipulator_loop_valid toks [] (createTokensFromLine l)
               (List.length toks) Htok Hmax). lia.
    + unfold isTerminator.
      assert (Hcount : getTokenCount (createTokensFromLine l)
                       = Z.of_nat (List.length toks)).
      { unfold getTokenCount. rewrite Hlen. apply to_int_small.
        lia. }
      rewrite Hcount.
      destruct (Z.eqb_spec (Z.of_nat (List.length toks)) 0) as [E|E].
      { destruct toks; [congruence | simpl in E; lia]. }
      rewrite Hlen.
      apply (@terminator_loop_valid toks [] (createTokensFromLine l)
               (List.length toks) Htok Hmax). lia.
  - intros Hnil.
    assert (Htok : m_tokens (createTokensFromLine l)
                   = [Some (HumdrumToken_new []); None]).
    { unfold createTokensFromLine, scan_line. rewrite Hnil. reflexivity. }
    unfold isManipulator, isTerminator, getTokenCount.
    rewrite Htok. cbn [List.length].
    split.
    + cbn [manipulator_loop]. unfold token, int_len. rewrite Htok.
      cbn. destruct (token_isManipulator (HumdrumToken_new [])); reflexivity.
    + cbn [terminator_loop]. unfold token, getTokenCount. rewrite Htok.
      cbn. destruct (token_isTerminator (HumdrumToken_new [])); reflexivity.
Qed.

End TokenTestFacts.

(* ------------------------------------------------------------------ *)
(** ** Bar numbers *)

Lemma take_digits_run (ds r : text) :
  Forall (fun c => isdigit c = true) ds ->
  isdigit (nth 0 r NUL) = false ->
  take_digits (ds ++ r) = ds.
Proof.
  intros Hd Hr. induction ds as [|d ds IH].
  - destruct r as [|x r]; [reflexivity|]. cbn [nth] in Hr.
    cbn [app take_digits]. rewrite Hr. reflexivity.
  - apply Forall_cons_iff in Hd. destruct Hd as [Hd Hds].
    cbn [app take_digits]. rewrite Hd, (IH Hds). reflexivity.
Qed.

Lemma more_digits_c_str (r : text) (acc : Z) :
  more_digits (c_str r) acc = more_digits r acc.
Proof.
  revert acc. induction r as [|c r IH]; intros acc; [reflexivity|].
  cbn [c_str]. destruct (char_eqb c NUL) eqn:E.
  - apply char_eqb_eq in E. subst c. reflexivity.
  - cbn [more_digits]. destruct (isdigit c); [|reflexivity].
    destruct (acc * 10 + digit_value c <=? INT_MAX); [apply IH | reflexivity].
Qed.

Lemma more_digits_range (r : text) :
  forall acc n, 0 <= acc <= INT_MAX ->
    more_digits r acc = Some n -> 0 <= n <= INT_MAX.
Proof.
  induction r as [|c r IH]; intros acc n Hacc H.
  - injection H as <-. exact Hacc.
  - cbn [more_digits] in H. destruct (isdigit c) eqn:Ec.
    + destruct (Z.leb_spec (acc * 10 + digit_value c) INT_MAX) as [Hle|Hgt];
        [|discriminate].
      pose proof (isdigit_value c Ec).
      apply (IH (acc * 10 + digit_value c) n); [lia | exact H].
    + injection H as <-. exact Hacc.
Qed.

Lemma bar_number_loop_range (fuel : nat) :
  forall l i n, bar_number_loop fuel l i = Some n -> -1 <= n <= INT_MAX.
Proof.
  induction fuel as [|f IH]; intros l i n H.
  - injection H as <-. unfold INT_MAX. lia.
  - cbn [bar_number_loop] in H.
    destruct (i <? getTokenCount l);
      [|injection H as <-; unfold INT_MAX; lia].
    destruct (token l i) as [[tok|]|]; try discriminate.
    destruct (size (tok_text tok) <? 2);
      [injection H as <-; unfold INT_MAX; lia|].
    destruct (at_ (tok_text tok) 1) as [c|]; [|discriminate].
    destruct (isdigit c); [|exact (IH _ _ _ H)].
    unfold scan_bar_number in H.
    destruct (c_str (tok_text tok)) as [|c0 [|c1 r]];
      try exact (IH _ _ _ H).
    destruct (char_eqb c0 "=" && isdigit c1) eqn:E;
      [|exact (IH _ _ _ H)].
    apply andb_true_iff in E. destruct E as [_ E1].
    destruct (more_digits r (digit_value c1)) as [m|] eqn:Em;
      [|discriminate].
    pose proof (isdigit_value c1 E1) as Hd.
    assert (Hm : 0 <= m <= INT_MAX).
    { apply (@more_digits_range r (digit_value c1) m); [|exact Em].
      unfold INT_MAX. lia. }
    destruct (Z.geb_spec m 0); [|lia].
    injection H as <-. lia.
Qed.

(** X29: getBarNumber looks at the tokens from the left and stops at the
    first one that decides: a line that is not a barline, or whose
    first token has fewer than two characters, gives -1 whatever
    numbers the tokens to the right carry (so the barline [=] followed
    by [=12] has no number); a first token made of [=], a run of
    digits and a rest that does not start with a digit gives the
    number the digits write.  A result is never below -1. *)
Theorem getBarNumber_first_token (l : HumdrumLine) (t : HumdrumToken)
        (rest : list HTp) :
  m_tokens l = Some t :: rest ->
  Z.of_nat (List.length (m_tokens l)) <= INT_MAX ->
  (forall n, getBarNumber l = Some n -> -1 <= n) /\
  (isBarline (line_text l) = false -> getBarNumber l = Some (-1)) /\
  (size (tok_text t) < 2 -> getBarNumber l = Some (-1)) /\
  (forall ds r,
     isBarline (line_text l) = true ->
     tok_text t = "="%char :: ds ++ r ->
     ds <> [] -> Forall (fun c => isdigit c = true) ds ->
     isdigit (nth 0 r NUL) = false ->
     decimal_value ds <= INT_MAX ->
     getBarNumber l = Some (decimal_value ds)).
Proof.
  intros Htok Hmax.
  assert (Hcount : getTokenCount l = Z.of_nat (List.length (m_tokens l))).
  { unfold getTokenCount. apply to_int_small. lia. }
  assert (Hfirst : token l 0 = Some (Some t)).
  { unfold token. rewrite Htok. reflexivity. }
  assert (Hstep : forall f,
            bar_number_loop (S f) l 0
            = if size (tok_text t) <? 2 then Some (-1)
              else
                c <- at_ (tok_text t) 1 ;;
                if isdigit c then
                  r <- scan_bar_number (tok_text t) ;;
                  match r with
                  | Some output =>
                      if output >=? 0 then Some output
                      else bar_number_loop f l (0 + 1)
                  | None => bar_number_loop f l (0 + 1)
                  end
                else bar_number_loop f l (0 + 1)).
  { intros f. cbn [bar_number_loop]. rewrite Hcount, Htok.
    cbn [List.length]. rewrite Hfirst.
    destruct (Z.ltb_spec 0 (Z.of_nat (S (List.length rest)))); [|lia].
    reflexivity. }
  split; [|split; [|split]].
  - intros n H. unfold getBarNumber in H.
    destruct (negb (isBarline (line_text l))).
    + injection H as <-. lia.
    + apply bar_number_loop_range in H. lia.
  - intros Hb. unfold getBarNumber. rewrite Hb. reflexivity.
  - intros Hshort. unfold getBarNumber.
    destruct (negb (isBarline (line_text l))); [reflexivity|].
    rewrite Htok. cbn [List.length]. rewrite Hstep.
    destruct (Z.ltb_spec (size (tok_text t)) 2); [reflexivity | lia].
  - intros ds r Hb Htext Hne Hds Hr Hval.
    unfold getBarNumber. rewrite Hb. cbn [negb].
    rewrite Htok. cbn [List.length]. rewrite Hstep.
    destruct ds as [|d ds]; [congruence|]. clear Hne.
    apply Forall_cons_iff in Hds. destruct Hds as [Hd Hds].
    rewrite Htext.
    assert (Hsz : 2 <= size ("="%char :: (d :: ds) ++ r))
      by (unfold size; simpl; lia).
    destruct (Z.ltb_spec (size ("="%char :: (d :: ds) ++ r)) 2); [lia|].
    rewrite at_inside by lia. change (Z.to_nat 1) with 1%nat.
    cbn [app nth]. rewrite Hd.
    unfold scan_bar_number. cbn [c_str].
    change (char_eqb "=" NUL) with false. cbv iota.
    assert (Hdn : char_eqb d NUL = false).
    { destruct (char_eqb d NUL) eqn:E; [|reflexivity].
      apply char_eqb_eq in E. subst d. discriminate Hd. }
    rewrite Hdn. change (char_eqb "=" "=") with true. rewrite Hd.
    cbn [andb]. rewrite more_digits_c_str.
    pose proof (isdigit_value d Hd) as Hdv.
    assert (Hvalue : decimal_value (d :: ds)
                     = decimal_from (digit_value d) (take_digits (ds ++ r))).
    { rewrite (take_digits_run r Hds Hr). unfold decimal_value, decimal_from.
      cbn [fold_left]. reflexivity. }
    rewrite more_digits_value; [|lia|rewrite <- Hvalue; exact Hval].
    rewrite <- Hvalue.
    assert (Hpos : 0 <= decimal_value (d :: ds)).
    { unfold decimal_value.
      apply (@decimal_from_mono (d :: ds) 0); [|lia].
      constructor; assumption. }
    destruct (Z.geb_spec (decimal_value (d :: ds)) 0); [reflexivity | lia].
Qed.

(* ------------------------------------------------------------------ *)
(** ** Extra tabs *)

Lemma vec_at_Some (v : list Z) (i x : Z) :
  vec_at v i = Some x ->
  0 <= i < Z.of_nat (List.length v) /\ nth (Z.to_nat i) v 0 = x.
Proof.
  unfold vec_at. intros H.
  destruct (Z.leb_spec 0 i); [|discriminate].
  destruct (Z.ltb_spec i (Z.of_nat (List.length v))); [|discriminate].
  cbn [andb] in H. split; [lia|].
  apply nth_error_nth. exact H.
Qed.

Lemma Forall_firstn_keep (P : Z -> Prop) (v : list Z) :
  Forall P v -> forall n, Forall P (firstn n v).
Proof.
  induction 1 as [|x v Hx Hv IH]; intros n.
  - rewrite firstn_nil. constructor.
  - destruct n as [|n]; cbn [firstn]; constructor; [exact Hx | apply IH].
Qed.

Lemma Forall_skipn_keep (P : Z -> Prop) (v : list Z) :
  Forall P v -> forall n, Forall P (skipn n v).
Proof.
  induction 1 as [|x v Hx Hv IH]; intros n.
  - rewrite skipn_nil. constructor.
  - destruct n as [|n]; cbn [skipn]; [constructor; assumption | apply IH].
Qed.

Lemma Forall_vec_set (P : Z -> Prop) (v : list Z) (i x : Z) :
  Forall P v -> P x -> Forall P (vec_set v i x).
Proof.
  intros Hv Hx. unfold vec_set. apply Forall_app. split.
  - apply Forall_firstn_keep. exact Hv.
  - constructor; [exact Hx | apply Forall_skipn_keep; exact Hv].
Qed.

(** The loop keeps the length of the tab vector and never writes a
    count below 1. *)
Lemma extra_tabs_loop_inv (fuel : nat) :
  forall (l : HumdrumLine) (w : list Z) (j track : Z)
         (local tabs tabs' : list Z),
    extra_tabs_loop fuel l w j track local tabs = Some tabs' ->
    Forall (fun k => 1 <= k) tabs ->
    List.length tabs' = List.length tabs /\ Forall (fun k => 1 <= k) tabs'.
Proof.
  induction fuel as [|f IH]; intros l w j track local tabs tabs' H Hpos.
  - injection H as <-. split; [reflexivity | exact Hpos].
  - cbn [extra_tabs_loop] in H.
    destruct (j <? getTokenCount l);
      [|injection H as <-; split; [reflexivity | exact Hpos]].
    destruct (token l j) as [[tok|]|]; try discriminate.
    cbv zeta in H.
    match type of H with
    | match ?e with _ => _ end = _ => destruct e as [tabs1|] eqn:E1
    end; [|discriminate].
    assert (H1 : List.length tabs1 = List.length tabs
                 /\ Forall (fun k => 1 <= k) tabs1).
    { destruct (negb (tok_track tok =? track) && (track >? 0));
        [|injection E1 as <-; split; [reflexivity | exact Hpos]].
      destruct (vec_at w track) as [wl|]; [|discriminate].
      destruct (vec_at local track) as [c|]; [|discriminate].
      destruct (as_int (wl - c)) as [diff|]; [|discriminate].
      destruct ((diff >? 0) && (j >? 0)) eqn:Ed;
        [|injection E1 as <-; split; [reflexivity | exact Hpos]].
      apply andb_true_iff in Ed. destruct Ed as [Ed _].
      apply Z.gtb_lt in Ed.
      destruct (vec_at tabs (j - 1)) as [k|] eqn:Ek; [|discriminate].
      destruct (as_int (k + diff)) as [k'|] eqn:Ek'; [|discriminate].
      injection E1 as <-.
      apply vec_at_Some in Ek. destruct Ek as [Hrange Hk].
      apply as_int_Some in Ek'. destruct Ek' as [-> _].
      split; [apply vec_set_length; exact Hrange|].
      apply Forall_vec_set; [exact Hpos|].
      assert (1 <= k).
      { rewrite Forall_forall in Hpos. apply Hpos. rewrite <- Hk.
        apply nth_In. lia. }
      lia. }
    destruct H1 as [Hlen1 Hpos1].
    destruct (vec_at local (tok_track tok)) as [c|]; [|discriminate].
    destruct (as_int (c + 1)) as [c'|]; [|discriminate].
    destruct (IH _ _ _ _ _ _ _ H Hpos1) as [Hlen Hp].
    split; [congruence | exact Hp].
Qed.

Lemma nth_map_ones (v : list Z) (i : nat) :
  (i < List.length v)%nat -> nth i (map (fun _ : Z => 1) v) 0 = 1.
Proof.
  revert i. induction v as [|x v IH]; intros i Hi; [simpl in Hi; lia|].
  destruct i as [|i]; [reflexivity|]. cbn [map nth]. apply IH.
  simpl in Hi. lia.
Qed.

Lemma nth_Forall (P : Z -> Prop) (v : list Z) (i : nat) :
  Forall P v -> (i < List.length v)%nat -> P (nth i v 0).
Proof.
  intros Hv Hi. rewrite Forall_forall in Hv. apply Hv. apply nth_In. exact Hi.
Qed.

(** The loop runs to its end when the token pointers are valid, the
    tracks are indices of the width vector, and the widths are below
    [INT_MAX]. *)
Lemma extra_tabs_loop_runs (post : list HumdrumToken) :
  forall (pre : list HumdrumToken) (l : HumdrumLine) (w : list Z) (track : Z)
         (local tabs : list Z) (fuel : nat),
    m_tokens l = valid_tokens (pre ++ post) ->
    Z.of_nat (List.length (pre ++ post)) <= INT_MAX ->
    Forall (fun t => 0 <= tok_track t < Z.of_nat (List.length w)) post ->
    Forall (fun x => 0 <= x < INT_MAX) w ->
    List.length local = List.length w ->
    Forall (fun c => 0 <= c <= Z.of_nat (List.length pre)) local ->
    (track = 0 \/ 0 <= track < Z.of_nat (List.length w)) ->
    List.length tabs = List.length (pre ++ post) ->
    (forall i, (List.length pre - 1 <= i < List.length tabs)%nat ->
               nth i tabs 0 = 1) ->
    (List.length post <= fuel)%nat ->
    exists tabs',
      extra_tabs_loop fuel l w (Z.of_nat (List.length pre)) track local tabs
      = Some tabs'.
Proof.
  induction post as [|t r IH];
    intros pre l w track local tabs fuel Htok Hmax Htracks Hw Hllen Hlocal
           Htrack Htlen Hones Hfuel.
  - destruct fuel as [|f]; [eexists; reflexivity|].
    cbn [extra_tabs_loop]. rewrite app_nil_r in *.
    assert (Hcount : getTokenCount l = Z.of_nat (List.length pre)).
    { unfold getTokenCount. rewrite Htok. unfold valid_tokens.
      rewrite length_map. apply to_int_small. lia. }
    rewrite Hcount.
    destruct (Z.ltb_spec (Z.of_nat (List.length pre))
                         (Z.of_nat (List.length pre))); [lia|].
    eexists. reflexivity.
  - destruct fuel as [|f]; [simpl in Hfuel; lia|].
    cbn [extra_tabs_loop].
    assert (Hcount : getTokenCount l
                     = Z.of_nat (List.length (pre ++ t :: r))).
    { unfold getTokenCount. rewrite Htok. unfold valid_tokens.
      rewrite length_map. apply to_int_small. lia. }
    rewrite Hcount, (@token_valid l pre r t Htok).
    assert (Hlen : List.length (pre ++ t :: r)
                   = (List.length pre + S (List.length r))%nat)
      by (rewrite length_app; reflexivity).
    destruct (Z.ltb_spec (Z.of_nat (List.length pre))
                         (Z.of_nat (List.length (pre ++ t :: r)))); [|lia].
    cbv zeta.
    apply Forall_cons_iff in Htracks. destruct Htracks as [Ht Hr].
    assert (Hinner : exists tabs1,
              (if negb (tok_track t =? track) && (track >? 0) then
                 w0 <- vec_at w track ;;
                 c <- vec_at local track ;;
                 diff <- as_int (w0 - c) ;;
                 if (diff >? 0) && (Z.of_nat (List.length pre) >? 0) then
                   k <- vec_at tabs (Z.of_nat (List.length pre) - 1) ;;
                   k' <- as_int (k + diff) ;;
                   Some (vec_set tabs (Z.of_nat (List.length pre) - 1) k')
                 else Some tabs
               else Some tabs) = Some tabs1 /\
              List.length tabs1 = List.length tabs /\
              forall i, (List.length pre <= i < List.length tabs1)%nat ->
                        nth i tabs1 0 = 1).
    { destruct (negb (tok_track t =? track) && (track >? 0)) eqn:Ec.
      2:{ exists tabs. split; [reflexivity|]. split; [reflexivity|].
          intros i Hi. apply Hones. lia. }
      apply andb_true_iff in Ec. destruct Ec as [_ Ec].
      apply Z.gtb_lt in Ec.
      assert (Hin : 0 <= track < Z.of_nat (List.length w))
        by (destruct Htrack; lia).
      rewrite (vec_at_nth w Hin).
      assert (Hin' : 0 <= track < Z.of_nat (List.length local))
        by (rewrite Hllen; exact Hin).
      rewrite (vec_at_nth local Hin').
      pose proof (@nth_Forall _ w (Z.to_nat track) Hw ltac:(lia)) as Hwl.
      pose proof (@nth_Forall _ local (Z.to_nat track) Hlocal ltac:(lia)) as Hc.
      cbv beta in Hwl, Hc.
      set (wl := nth (Z.to_nat track) w 0) in *.
      set (c := nth (Z.to_nat track) local 0) in *.
      rewrite as_int_fits by (unfold INT_MAX in *; lia).
      destruct ((wl - c >? 0) && (Z.of_nat (List.length pre) >? 0)) eqn:Ed.
      2:{ exists tabs. split; [reflexivity|]. split; [reflexivity|].
          intros i Hi. apply Hones. lia. }
      apply andb_true_iff in Ed. destruct Ed as [Ed Ej].
      apply Z.gtb_lt in Ed, Ej.
      assert (Hj : 0 <= Z.of_nat (List.length pre) - 1
                   < Z.of_nat (List.length tabs)) by lia.
      rewrite (vec_at_nth tabs Hj).
      assert (Hk : nth (Z.to_nat (Z.of_nat (List.length pre) - 1)) tabs 0 = 1).
      { apply Hones. lia. }
      rewrite Hk, as_int_fits by (unfold INT_MAX in *; lia).
      eexists. split; [reflexivity|].
      split; [apply vec_set_length; exact Hj|].
      intros i Hi. rewrite vec_set_length in Hi by exact Hj.
      pose proof (@vec_set_nth tabs (Z.of_nat (List.length pre) - 1)
                    (Z.of_nat i) (1 + (wl - c)) Hj ltac:(lia)) as Hn.
      rewrite Nat2Z.id in Hn. rewrite Hn.
      destruct (Z.eqb_spec (Z.of_nat i) (Z.of_nat (List.length pre) - 1));
        [lia|].
      apply Hones. lia. }
    destruct Hinner as (tabs1 & Hrun & Hlen1 & Hones1).
    rewrite Hrun.
    assert (Htin : 0 <= tok_track t < Z.of_nat (List.length local))
      by (rewrite Hllen; exact Ht).
    rewrite (vec_at_nth local Htin).
    pose proof (@nth_Forall _ local (Z.to_nat (tok_track t)) Hlocal
                  ltac:(lia)) as Hc.
    cbv beta in Hc.
    rewrite as_int_fits by (unfold INT_MAX in *; lia).
    replace (Z.of_nat (List.length pre) + 1)
      with (Z.of_nat (List.length (pre ++ [t])))
      by (rewrite length_app; simpl; lia).
    apply IH.
    + rewrite <- app_assoc. exact Htok.
    + rewrite <- app_assoc. exact Hmax.
    + exact Hr.
    + exact Hw.
    + rewrite vec_set_length by exact Htin. exact Hllen.
    + apply Forall_vec_set.
      * eapply Forall_impl; [|exact Hlocal]. intros a Ha. cbv beta in *.
        rewrite length_app. simpl. lia.
      * rewrite length_app. simpl. lia.
    + right. exact Ht.
    + rewrite Hlen1, <- app_assoc. exact Htlen.
    + intros i Hi. apply Hones1. rewrite length_app in Hi. simpl in Hi. lia.
    + simpl in Hfuel. lia.
Qed.

(** X30: addExtraTabs leaves a line without spines as it is.  On a line
    with spines it changes the tab counts only: whenever it returns,
    text and tokens are the same, there are as many tab counts as
    before, and every count is at least 1, so that createLineFromTokens
    has no width of 0 to replace.  It does return when the token
    pointers are valid, there is a tab count for every token, every
    track is an index of the width vector and the widths are not
    negative and below INT_MAX. *)
Theorem addExtraTabs_widths (l : HumdrumLine) (trackWidths : list Z) :
  (hasSpines (line_text l) = false -> addExtraTabs l trackWidths = Some l) /\
  (forall l', hasSpines (line_text l) = true ->
     addExtraTabs l trackWidths = Some l' ->
     line_text l' = line_text l /\ m_tokens l' = m_tokens l /\
     List.length (m_tabs l') = List.length (m_tabs l) /\
     Forall (fun k => 1 <= k) (m_tabs l')) /\
  (forall toks, hasSpines (line_text l) = true ->
     m_tokens l = valid_tokens toks ->
     Z.of_nat (List.length toks) <= INT_MAX ->
     List.length (m_tabs l) = List.length toks ->
     Forall (fun t => 0 <= tok_track t < Z.of_nat (List.length trackWidths))
            toks ->
     Forall (fun x => 0 <= x < INT_MAX) trackWidths ->
     exists l', addExtraTabs l trackWidths = Some l').
Proof.
  split; [|split].
  - intros H. unfold addExtraTabs. rewrite H. reflexivity.
  - intros l' Hsp H. unfold addExtraTabs in H. rewrite Hsp in H.
    cbn [negb] in H.
    destruct (extra_tabs_loop _ _ _ _ _ _ _) as [tabs|] eqn:E; [|discriminate].
    injection H as <-.
    assert (Hones : Forall (fun k => 1 <= k) (map (fun _ : Z => 1) (m_tabs l))).
    { apply Forall_forall. intros x Hx. apply in_map_iff in Hx.
      destruct Hx as (y & <- & _). lia. }
    destruct (@extra_tabs_loop_inv _ _ _ _ _ _ _ _ E Hones) as [Hlen Hpos].
    cbn [with_tokens line_text m_tokens m_tabs].
    rewrite length_map in Hlen. repeat split; assumption.
  - intros toks Hsp Htok Hmax Htabs Htracks Hw.
    unfold addExtraTabs. rewrite Hsp. cbn [negb].
    destruct (@extra_tabs_loop_runs toks [] l trackWidths 0
                (repeat 0 (List.length trackWidths))
                (map (fun _ : Z => 1) (m_tabs l))
                (List.length (m_tokens l)))
      as (tabs' & Hrun).
    + exact Htok.
    + exact Hmax.
    + exact Htracks.
    + exact Hw.
    + apply repeat_length.
    + apply Forall_forall. intros x Hx. apply repeat_spec in Hx. subst x.
      simpl. lia.
    + left. reflexivity.
    + rewrite length_map. exact Htabs.
    + intros i Hi. rewrite length_map in Hi.
      apply nth_map_ones. lia.
    + rewrite Htok. unfold valid_tokens. rewrite length_map. lia.
    + cbn [List.length Z.of_nat] in Hrun. rewrite Hrun. eexists. reflexivity.
Qed.

End Line.

(* ================================================================== *)
(** * The theorems on written-out lines

    The witnesses and counterexamples are closed statements.  Those
    that mention a line made by a constructor or a token made by the
    tokenizer need the values that are not in the sources written out
    as well: [sample_externals] is one choice of them.  Every theorem
    applied below is proved for all choices. *)

#[local] Existing Instance sample_externals.

Lemma char_access_total_in_bounds_witness :
  fits_int (lit "=1") /\
  (Chars.getChar_checked (lit "=1") 2 = Some (getChar (lit "=1") 2) /\
   Chars.equalChar_checked (lit "=1") 2 "=" = Some (equalChar (lit "=1") 2 "=") /\
   ((2 < 0 \/ size (lit "=1") <= 2) ->
      getChar (lit "=1") 2 = NUL /\ equalChar (lit "=1") 2 "=" = false) /\
   (0 <= 2 < size (lit "=1") ->
      nth_error (lit "=1") (Z.to_nat 2) = Some (getChar (lit "=1") 2))).
Proof.
  assert (Hfit : fits_int (lit "=1")) by (vm_compute; discriminate).
  split; [exact Hfit|].
  exact (char_access_total_in_bounds 2 "=" Hfit).
Defined.





Lemma analyzeTracks_numbers_witness :
  hasSpines (line_text split_line) = true /\
  m_tokens split_line = valid_tokens split_line_tokens /\
  Forall (fun t => track_of t < INT_MAX) split_line_tokens /\
  tracks_analyzed split_line split_line_tokens.
Proof.
  assert (Hfit : Forall (fun t => track_of t < INT_MAX) split_line_tokens)
    by (repeat constructor; vm_compute; reflexivity).
  split; [reflexivity|]. split; [reflexivity|]. split; [exact Hfit|].
  exact (proj2 (@analyzeTracks_numbers split_line split_line_tokens)
               eq_refl eq_refl Hfit).
Defined.

(** C5 (as stated) fails on a line without spines.  The line is the
    global comment [!!x]; its one token has no digit in its spine
    information and holds track 5.  analyzeTracks returns at its first
    test, and the token keeps the 5 where the claim has the 0 of a
    spine information without digits.  The state of the token is
    written out, field by field: what a token holds when it has just
    been built is not in the sources. *)
Lemma analyzeTracks_global_comment_counterexample :
  hasSpines (line_text stale_comment) = false /\
  m_tokens stale_comment = valid_tokens [stale_token] /\
  track_of stale_token = 0 /\
  analyzeTracks stale_comment = Some stale_comment /\
  ~ tracks_analyzed stale_comment [stale_token].
Proof.
  split; [reflexivity|]. split; [reflexivity|].
  split; [reflexivity|]. split; [reflexivity|].
  intros (toks' & Hrun & _ & Hprop).
  assert (Htoks : valid_tokens toks' = valid_tokens [stale_token]).
  { vm_compute in Hrun. injection Hrun as Hrun. symmetry. exact Hrun. }
  destruct toks' as [|t' [|? ?]]; try discriminate.
  injection Htoks as ->.
  destruct (Hprop 0%nat _ _ eq_refl eq_refl) as (_ & _ & Htrack & _).
  vm_compute in Htrack. discriminate.
Qed.

Lemma getBarlineDuration_analyzed_witness :
  nth_error (f_lines (w_file sample_world)) 0 = Some (analysed_line (lit "=1") 0 0 0 2) /\
  m_rhythm_analyzed (analysed_line (lit "=1") 0 0 0 2) = true /\
  getBarlineDuration sample_analysis 0 sample_world
  = Some (HumNum_of_int 2, sample_world).
Proof.
  split; [reflexivity|]. split; [reflexivity|].
  exact (@getBarlineDuration_analyzed sample_analysis sample_world 0%nat
           (analysed_line (lit "=1") 0 0 0 2) eq_refl eq_refl).
Defined.

Lemma tokenize_regenerates_witness :
  fits_int (line_text (blank_line (lit "4c" ++ [TAB; TAB] ++ lit "4e" ++ [TAB]))) /\
  hasSpines (line_text (blank_line (lit "4c" ++ [TAB; TAB] ++ lit "4e" ++ [TAB]))) = true /\
  exists ts ks, ts <> [] /\
    tokenized_as (blank_line (lit "4c" ++ [TAB; TAB] ++ lit "4e" ++ [TAB])) ts ks.
Proof.
  assert (Hfit : fits_int (line_text
            (blank_line (lit "4c" ++ [TAB; TAB] ++ lit "4e" ++ [TAB]))))
    by (vm_compute; discriminate).
  split; [exact Hfit|]. split; [reflexivity|].
  exact (@tokenize_regenerates sample_externals
           (blank_line (lit "4c" ++ [TAB; TAB] ++ lit "4e" ++ [TAB]))
           Hfit eq_refl).
Defined.

Lemma token_shape_witness :
  fits_int (line_text (blank_line ([TAB] ++ lit "4e" ++ [TAB; TAB] ++ lit "."))) /\
  hasSpines (line_text (blank_line ([TAB] ++ lit "4e" ++ [TAB; TAB] ++ lit "."))) = true /\
  exists ts,
    m_tokens (createTokensFromLine
                (blank_line ([TAB] ++ lit "4e" ++ [TAB; TAB] ++ lit "."))) = fresh_tokens ts /\
    Forall (fun t => tab_free t = true) ts /\
    Forall (fun t => t <> []) (tl ts) /\
    Forall (fun k => 1 <= k)
      (removelast (m_tabs (createTokensFromLine
         (blank_line ([TAB] ++ lit "4e" ++ [TAB; TAB] ++ lit "."))))) /\
    0 <= last (m_tabs (createTokensFromLine
         (blank_line ([TAB] ++ lit "4e" ++ [TAB; TAB] ++ lit ".")))) 0.
Proof.
  assert (Hfit : fits_int (line_text
            (blank_line ([TAB] ++ lit "4e" ++ [TAB; TAB] ++ lit "."))))
    by (vm_compute; discriminate).
  split; [exact Hfit|]. split; [reflexivity|].
  exact (@token_shape sample_externals (blank_line ([TAB] ++ lit "4e" ++ [TAB; TAB] ++ lit "."))
           Hfit eq_refl).
Defined.

Lemma tokens_to_text_strips_trailing_tabs_witness :
  fits_int (line_text (blank_line (lit "4c" ++ [TAB; TAB] ++ lit "4e" ++ [TAB]))) /\
  exists l1,
    createLineFromTokens
      (createTokensFromLine (blank_line (lit "4c" ++ [TAB; TAB] ++ lit "4e" ++ [TAB])))
    = Some l1 /\
    line_text l1 =
      if isCommentGlobal (line_text (blank_line (lit "4c" ++ [TAB; TAB] ++ lit "4e" ++ [TAB])))
      then c_str (line_text (blank_line (lit "4c" ++ [TAB; TAB] ++ lit "4e" ++ [TAB])))
      else strip_tabs (line_text (blank_line (lit "4c" ++ [TAB; TAB] ++ lit "4e" ++ [TAB]))).
Proof.
  assert (Hfit : fits_int (line_text
            (blank_line (lit "4c" ++ [TAB; TAB] ++ lit "4e" ++ [TAB]))))
    by (vm_compute; discriminate).
  split; [exact Hfit|].
  exact (@tokens_to_text_strips_trailing_tabs sample_externals
           (blank_line (lit "4c" ++ [TAB; TAB] ++ lit "4e" ++ [TAB])) Hfit).
Defined.

Lemma tokens_valid_unless_empty_witness :
  fits_int (line_text (blank_line (lit "!! a" ++ [TAB] ++ lit "b"))) /\
  line_text (blank_line (lit "!! a" ++ [TAB] ++ lit "b")) <> [] /\
  exists toks,
    toks <> [] /\
    m_tokens (createTokensFromLine (blank_line (lit "!! a" ++ [TAB] ++ lit "b")))
    = valid_tokens toks /\
    List.length (m_tabs (createTokensFromLine
                           (blank_line (lit "!! a" ++ [TAB] ++ lit "b"))))
    = List.length toks.
Proof.
  assert (Hfit : fits_int (line_text (blank_line (lit "!! a" ++ [TAB] ++ lit "b"))))
    by (vm_compute; discriminate).
  assert (Hne : line_text (blank_line (lit "!! a" ++ [TAB] ++ lit "b")) <> [])
    by (vm_compute; discriminate).
  split; [exact Hfit|]. split; [exact Hne|].
  exact (@tokens_valid_unless_empty sample_externals
           (blank_line (lit "!! a" ++ [TAB] ++ lit "b")) Hfit Hne).
Defined.

Lemma tokenize_joined_fields_witness :
  exists l : HumdrumLine,
    line_text l = (glue [lit "**kern"] [2] ++ lit "**text") ++ repeat TAB (Z.to_nat 1) /\
    fits_int (line_text l) /\
    hasSpines (line_text l) = true /\
    m_tokens (createTokensFromLine l) = fresh_tokens ([lit "**kern"] ++ [lit "**text"]) /\
    m_tabs (createTokensFromLine l) = [2] ++ [1].
Proof.
  exists (blank_line ((glue [lit "**kern"] [2] ++ lit "**text") ++ repeat TAB (Z.to_nat 1))).
  assert (Hfit : fits_int (line_text
            (blank_line ((glue [lit "**kern"] [2] ++ lit "**text")
                           ++ repeat TAB (Z.to_nat 1)))))
    by (vm_compute; discriminate).
  assert (Hpos : Forall (fun k => 1 <= k) [2]) by (repeat constructor; lia).
  assert (Hfree : Forall (fun t => tab_free t = true)
                         ([lit "**kern"] ++ [lit "**text"]))
    by (repeat constructor).
  assert (Hne : Forall (fun t : text => t <> [])
                       (tl ([lit "**kern"] ++ [lit "**text"])))
    by (repeat constructor; discriminate).
  assert (Hlive : lit "**text" <> [] \/ 1 <= 1) by (right; lia).
  split; [reflexivity|]. split; [exact Hfit|]. split; [reflexivity|].
  exact (@tokenize_joined_fields sample_externals
           (blank_line ((glue [lit "**kern"] [2] ++ lit "**text")
                          ++ repeat TAB (Z.to_nat 1)))
           [lit "**kern"] (lit "**text") [2] 1 eq_refl Hfit eq_refl eq_refl
           Hpos ltac:(lia) Hfree Hne Hlive).
Defined.

Lemma createLineFromTokens_joins_witness :
  drop_null_back (m_tokens edited_line) = valid_tokens edited_tokens /\
  exists l1,
    createLineFromTokens edited_line = Some l1 /\
    line_text l1 = join_texts (map tok_text edited_tokens) (m_tabs edited_line) 0 /\
    m_tokens l1 = valid_tokens edited_tokens /\
    forall j, (S j < List.length edited_tokens)%nat ->
              nth j (m_tabs l1) 0 = sep_width (m_tabs edited_line) j.
Proof.
  split; [reflexivity|].
  exact (@createLineFromTokens_joins edited_line edited_tokens eq_refl
           ltac:(vm_compute; discriminate) ltac:(vm_compute; discriminate)).
Defined.

Lemma removeExtraTabs_single_tabs_witness :
  drop_null_back (m_tokens split_line) = valid_tokens split_line_tokens /\
  exists l1,
    createLineFromTokens (removeExtraTabs split_line) = Some l1 /\
    line_text l1 = tab_join (map tok_text split_line_tokens).
Proof.
  split; [reflexivity|].
  exact (@removeExtraTabs_single_tabs split_line split_line_tokens eq_refl
           ltac:(vm_compute; discriminate) ltac:(vm_compute; discriminate)).
Defined.

Lemma createLineFromTokens_idempotent_witness :
  exists l1,
    drop_null_back (m_tokens edited_line) = valid_tokens edited_tokens /\
    createLineFromTokens edited_line = Some l1 /\
    createLineFromTokens l1 = Some l1.
Proof.
  eexists. split; [reflexivity|]. split; [reflexivity|].
  exact (@createLineFromTokens_idempotent edited_line _ edited_tokens eq_refl
           ltac:(vm_compute; discriminate) ltac:(vm_compute; discriminate)
           eq_refl).
Defined.

Lemma createLineFromTokens_fails_iff_witness :
  createLineFromTokens broken_line = None <->
  In None (drop_null_back (m_tokens broken_line)).
Proof.
  exact (@createLineFromTokens_fails_iff broken_line
           ltac:(vm_compute; discriminate) ltac:(vm_compute; discriminate)).
Defined.

Lemma appendToken_text_witness :
  size (line_text (blank_line (lit "4c" ++ [TAB] ++ lit "4e"))) < INT_MAX /\
  hasSpines (line_text (blank_line (lit "4c" ++ [TAB] ++ lit "4e"))) = true /\
  exists l1 k,
    createLineFromTokens
      (appendToken (createTokensFromLine (blank_line (lit "4c" ++ [TAB] ++ lit "4e")))
                   (Some (HumdrumToken_new (lit "4g"))) 3) = Some l1 /\
    line_text (blank_line (lit "4c" ++ [TAB] ++ lit "4e"))
    = strip_tabs (line_text (blank_line (lit "4c" ++ [TAB] ++ lit "4e")))
        ++ repeat TAB k /\
    line_text l1
    = strip_tabs (line_text (blank_line (lit "4c" ++ [TAB] ++ lit "4e")))
        ++ repeat TAB (Nat.max 1 k) ++ tok_text (HumdrumToken_new (lit "4g")).
Proof.
  assert (Hfit : size (line_text (blank_line (lit "4c" ++ [TAB] ++ lit "4e")))
                 < INT_MAX) by (vm_compute; reflexivity).
  split; [exact Hfit|]. split; [reflexivity|].
  exact (@appendToken_text sample_externals (blank_line (lit "4c" ++ [TAB] ++ lit "4e"))
           (HumdrumToken_new (lit "4g")) 3 Hfit eq_refl).
Defined.

Lemma appendTokenAfter_last_witness :
  List.length (m_tabs split_line) = List.length (m_tokens split_line) /\
  appendTokenAfter split_line (Z.of_nat (List.length (m_tokens split_line)) - 1)
                   (Some (HumdrumToken_new (lit "4b"))) 1
  = Some (appendToken split_line (Some (HumdrumToken_new (lit "4b"))) 1).
Proof.
  split; [reflexivity|].
  exact (proj1 (@appendTokenAfter_last split_line
                  (Some (HumdrumToken_new (lit "4b"))) 1 eq_refl)).
Defined.

Lemma getReferenceValue_trims_witness :
  fits_int (lit "!!!OTL:  Sonata in C  ") /\
  getReferenceValue (lit "!!!OTL:  Sonata in C  ") = Some (lit "Sonata in C").
Proof.
  assert (Hfit : fits_int (lit "!!!OTL:  Sonata in C  "))
    by (vm_compute; discriminate).
  split; [exact Hfit|].
  exact (@getReferenceValue_trims (lit "!!!OTL:  Sonata in C  ") Hfit).
Defined.

Lemma getReferenceKey_cuts_witness :
  fits_int (lit "!!! a bc: x") /\
  getReferenceKey (lit "!!! a bc: x") = Some (lit "a b").
Proof.
  assert (Hfit : fits_int (lit "!!! a bc: x")) by (vm_compute; discriminate).
  split; [exact Hfit|].
  exact (@getReferenceKey_cuts (lit "!!! a bc: x") Hfit).
Defined.

Lemma reference_record_round_trip_witness :
  isReference (reference_record (lit "COM") (lit "  ") (lit "J. S. Bach"))
  = Some true /\
  getReferenceKey (reference_record (lit "COM") (lit "  ") (lit "J. S. Bach"))
  = Some (lit "COM") /\
  getReferenceValue (reference_record (lit "COM") (lit "  ") (lit "J. S. Bach"))
  = Some (lit "J. S. Bach").
Proof.
  apply (@reference_record_round_trip (lit "COM") (lit "  ") (lit "J. S. Bach")).
  - vm_compute. discriminate.
  - reflexivity.
  - reflexivity.
  - reflexivity.
Defined.

Lemma reference_kinds_exclusive_witness :
  isUniversalReference (lit "!!!COM: Bach") = Some false /\
  isCommentUniversal (lit "!!!COM: Bach") = false /\
  isCommentGlobal (lit "!!!COM: Bach") = true /\
  hasSpines (lit "!!!COM: Bach") = false.
Proof.
  apply (@reference_kinds_exclusive (lit "!!!COM: Bach")).
  - vm_compute. discriminate.
  - reflexivity.
Defined.

Lemma getTokens_cached_witness :
  fst (getTokens (blank_line (lit "4c" ++ [TAB] ++ lit "4e"))) <> [] /\
  getTokens (snd (getTokens (blank_line (lit "4c" ++ [TAB] ++ lit "4e"))))
  = getTokens (blank_line (lit "4c" ++ [TAB] ++ lit "4e")) /\
  (m_tokens (blank_line (lit "4c" ++ [TAB] ++ lit "4e")) <> [] ->
   getTokens (blank_line (lit "4c" ++ [TAB] ++ lit "4e"))
   = (m_tokens (blank_line (lit "4c" ++ [TAB] ++ lit "4e")),
      blank_line (lit "4c" ++ [TAB] ++ lit "4e"))).
Proof.
  apply (@getTokens_cached sample_externals (blank_line (lit "4c" ++ [TAB] ++ lit "4e"))).
  vm_compute. discriminate.
Defined.

Lemma setDuration_clamps_witness :
  isNegative (HumNum_of_int (-1)) = true /\
  m_duration (setDuration (blank_line (lit "4c")) (HumNum_of_int (-1)))
  = HumNum_of_int 0.
Proof.
  split; [reflexivity|].
  destruct (@setDuration_clamps (blank_line (lit "4c")) (HumNum_of_int (-1)))
    as (_ & _ & H & _).
  exact (H eq_refl).
Defined.

Lemma unowned_line_accessors_witness :
  getDuration idle_analysis 0 (loose_world (blank_line (lit "4c")))
  = Some (HumNum_of_int (-1), loose_world (blank_line (lit "4c"))) /\
  getDurationToEnd idle_analysis sample_score 0
                   (loose_world (blank_line (lit "4c"))) = None.
Proof.
  destruct (@unowned_line_accessors idle_analysis sample_score
              (loose_world (blank_line (lit "4c"))) 0%nat
              (blank_line (lit "4c")) eq_refl eq_refl)
    as (H1 & _ & _ & _ & _ & H6).
  split; [exact H1 | exact (H6 eq_refl)].
Defined.

Lemma getBarlineDuration_single_pass_witness :
  getBarlineDuration sample_analysis 0
                     (mkWorld (mkFile [owned_line (lit "4c") 1 3]) 0)
  = Some (HumNum_of_int 4,
          after_passes sample_analysis 1
                       (mkWorld (mkFile [owned_line (lit "4c") 1 3]) 0)).
Proof.
  exact (@getBarlineDuration_single_pass sample_analysis
           (mkWorld (mkFile [owned_line (lit "4c") 1 3]) 0) 0%nat
           (owned_line (lit "4c") 1 3) eq_refl eq_refl eq_refl
           (mkLine (lit "4c") [] [] (HumNum_of_int (-1)) (HumNum_of_int (-1))
                   (HumNum_of_int 1) (HumNum_of_int 3) true OwnerFile)
           eq_refl eq_refl).
Defined.

Lemma getBarlineDuration_repeats_analysis_witness :
  getDuration busy_analysis 0
              (mkWorld (mkFile [owned_line (lit "4c") 1 3]) 0)
  = Some (HumNum_of_int 1,
          after_passes busy_analysis 1
                       (mkWorld (mkFile [owned_line (lit "4c") 1 3]) 0)) /\
  getBarlineDuration busy_analysis 0
                     (mkWorld (mkFile [owned_line (lit "4c") 1 3]) 0)
  = Some (HumNum_of_int 36,
          after_passes busy_analysis 3
                       (mkWorld (mkFile [owned_line (lit "4c") 1 3]) 0)) /\
  getBarlineDuration_right_first busy_analysis 0
                     (mkWorld (mkFile [owned_line (lit "4c") 1 3]) 0)
  = Some (HumNum_of_int 27,
          after_passes busy_analysis 3
                       (mkWorld (mkFile [owned_line (lit "4c") 1 3]) 0)).
Proof.
  destruct (@getBarlineDuration_repeats_analysis busy_analysis
              (mkWorld (mkFile [owned_line (lit "4c") 1 3]) 0) 0%nat
              (owned_line (lit "4c") 1 3) eq_refl eq_refl eq_refl
              (mkLine (lit "4c") [] [] (HumNum_of_int 1) (HumNum_of_int (-1))
                      (HumNum_of_int 2) (HumNum_of_int 13) false OwnerFile)
              eq_refl)
    as (Hd & Hb).
  split; [exact Hd|].
  destruct (Hb eq_refl eq_refl
               (mkLine (lit "4c") [] [] (HumNum_of_int 1) (HumNum_of_int (-1))
                       (HumNum_of_int 3) (HumNum_of_int 23) false OwnerFile)
               eq_refl)
    as (_ & Hdata).
  exact (Hdata eq_refl eq_refl eq_refl
               (mkLine (lit "4c") [] [] (HumNum_of_int 1) (HumNum_of_int (-1))
                       (HumNum_of_int 4) (HumNum_of_int 33) false OwnerFile)
               eq_refl).
Defined.

Lemma analyzeTracks_idempotent_witness :
  exists l1, analyzeTracks split_line = Some l1 /\ analyzeTracks l1 = Some l1.
Proof.
  apply (@analyzeTracks_idempotent split_line split_line_tokens).
  - reflexivity.
  - reflexivity.
  - repeat constructor; vm_compute; discriminate.
Defined.

Lemma analyzeTracks_subtracks_increase_witness :
  exists toks',
    analyzeTracks split_line
    = Some (with_tokens split_line (valid_tokens toks') (m_tabs split_line)) /\
    forall i j t u,
      nth_error toks' i = Some t -> nth_error toks' j = Some u ->
      (i < j)%nat -> tok_track t = tok_track u ->
      1 <= tok_subtrack t /\ tok_subtrack t < tok_subtrack u /\
      tok_subtrack u <= tok_subtrackcount u.
Proof.
  apply (@analyzeTracks_subtracks_increase split_line split_line_tokens).
  - reflexivity.
  - reflexivity.
  - repeat constructor; vm_compute; discriminate.
Defined.

Lemma setLineFromCsv_total_witness :
  (exists l', setLineFromCsv (blank_line (lit "old")) (lit "a::b:c") (lit "::")
              = Some l' /\
              m_tokens l' = m_tokens (blank_line (lit "old")) /\
              m_tabs l' = m_tabs (blank_line (lit "old"))) /\
  ((lit "a::b:c") = [] ->
   setLineFromCsv (blank_line (lit "old")) (lit "a::b:c") (lit "::")
   = Some (blank_line (lit "old"))) /\
  ((lit "a::b:c") <> [] ->
   text_eqb (substr (strip_cr (lit "a::b:c")) 0 2) (lit "!!") = true ->
   setLineFromCsv (blank_line (lit "old")) (lit "a::b:c") (lit "::")
   = Some (with_text (blank_line (lit "old")) (strip_cr (lit "a::b:c")))).
Proof.
  apply (@setLineFromCsv_total (blank_line (lit "old")) (lit "a::b:c") (lit "::")).
  - vm_compute. discriminate.
  - discriminate.
Defined.

Lemma setLineFromCsv_plain_witness :
  setLineFromCsv (blank_line []) (lit "4c;4e;4g") [";"%char]
  = Some (with_text (blank_line []) (lit "4c" ++ [TAB] ++ lit "4e" ++ [TAB] ++ lit "4g")) /\
  (c_str (lit "4c;4e;4g") = lit "4c;4e;4g" ->
   setLineFromCsv_cstring (blank_line []) (lit "4c;4e;4g") [";"%char]
   = Some (with_text (blank_line []) (lit "4c;4e;4g"))).
Proof.
  apply (@setLineFromCsv_plain (blank_line []) (lit "4c;4e;4g") ";" ";").
  - vm_compute. discriminate.
  - discriminate.
  - reflexivity.
  - reflexivity.
  - reflexivity.
Defined.

Lemma setLineFromCsv_quoted_field_witness :
  setLineFromCsv (blank_line [])
                 (csv_quoted (lit "a," ++ [DQUOTE] ++ lit "b")) (lit ",")
  = Some (with_text (blank_line []) (lit "a," ++ [DQUOTE] ++ lit "b")).
Proof.
  apply (@setLineFromCsv_quoted_field (blank_line [])
           (lit "a," ++ [DQUOTE] ++ lit "b") (lit ",")).
  vm_compute. discriminate.
Defined.

Lemma setLineFromCsv_empty_separator_witness :
  (forall fuel output,
     csv_loop fuel (strip_cr (lit "4c,4e")) [] 0 false output = None) /\
  setLineFromCsv (blank_line []) (lit "4c,4e") [] = None.
Proof.
  apply (@setLineFromCsv_empty_separator (blank_line []) (lit "4c,4e")
           "4"%char (lit "c,4e")).
  - vm_compute. discriminate.
  - reflexivity.
  - reflexivity.
  - reflexivity.
Defined.

Lemma token_loops_after_tokenizing_witness :
  isManipulator (fun t => text_eqb (tok_text t) (lit "*^"))
                (createTokensFromLine (blank_line []))
  = None /\
  isTerminator (fun t => text_eqb (tok_text t) (lit "*-"))
               (createTokensFromLine (blank_line []))
  = Some false.
Proof.
  destruct (@token_loops_after_tokenizing sample_externals
              (fun t => text_eqb (tok_text t) (lit "*^"))
              (fun t => text_eqb (tok_text t) (lit "*-"))
              (blank_line [])) as [_ H].
  - vm_compute. discriminate.
  - exact (H eq_refl).
Defined.

Lemma getBarNumber_first_token_witness :
  getBarNumber late_number_line = Some (-1) /\
  getBarNumber (createTokensFromLine (blank_line (lit "=12a-")))
  = Some 12.
Proof.
  split.
  - destruct (@getBarNumber_first_token late_number_line
                (HumdrumToken_new (lit "="))
                [Some (HumdrumToken_new (lit "=12"))] eq_refl)
      as (_ & _ & H & _).
    + vm_compute. discriminate.
    + apply H. reflexivity.
  - destruct (@getBarNumber_first_token
                (createTokensFromLine (blank_line (lit "=12a-")))
                (HumdrumToken_new (lit "=12a-")) [] eq_refl)
      as (_ & _ & _ & H).
    + vm_compute. discriminate.
    + apply (H (lit "12") (lit "a-")).
      * reflexivity.
      * reflexivity.
      * discriminate.
      * repeat constructor.
      * reflexivity.
      * vm_compute. discriminate.
Defined.

Lemma addExtraTabs_widths_witness :
  addExtraTabs tracked_line [0; 3; 2]
  = Some (with_tokens tracked_line (m_tokens tracked_line) [3; 1; 1]) /\
  exists l', addExtraTabs tracked_line [0; 3; 2] = Some l'.
Proof.
  split; [reflexivity|].
  destruct (@addExtraTabs_widths tracked_line [0; 3; 2]) as (_ & _ & H).
  apply (H [mkToken (lit "4c") (lit "1") 1 0 1;
            mkToken (lit "4e") (lit "(2)a") 2 1 2;
            mkToken (lit "4g") (lit "(2)b") 2 2 2]).
  - reflexivity.
  - reflexivity.
  - vm_compute. discriminate.
  - reflexivity.
  - repeat constructor; vm_compute; congruence.
  - repeat constructor; vm_compute; congruence.
Defined.
